(** * GPU mechanism instantiation: memory layout, binding and initialisation

    A shallow embedding of [arb::gpu::mechanism] as found in
    [arbor/backends/gpu/mechanism.cpp]: the bulk packer behind
    [mechanism::instantiate], the field lookup [field_data] and the write
    [set_parameter] built on it, the introspection accessors [field_table],
    [state_table], [global_table] and [ion_table], and the re-initialisation
    hook [mechanism::initialize].

    Conventions of the embedding.
    - Sizes, counts and offsets are natural numbers; the integer widths of
      [arb_size_type] and friends are declared in headers outside this
      translation unit, so arithmetic is taken in the range where it does not
      wrap.
    - A device pointer is a block together with an element offset.  A table
      slot or parameter-pack field that holds no valid address (never
      assigned, or null) is [None].
    - The schema [mech_] keeps its arrays as lists; the counts [n_parameters],
      [n_state_vars], [n_globals] and [n_ions] are the lengths of those lists.
    - A C++ exception raised inside a loop is an [option error] next to the
      state the loop had reached; a call of [instantiate] ends in an
      [outcome], together with the device operations it issued. *)

From Stdlib Require Import ZArith Lia Floats.
From stdpp Require Import base list gmap strings.

Local Open Scope nat_scope.

(** ** The backend

    [arb::gpu::backend] fixes the element type of value arrays, the
    alignments of [array] and [iarray], and the arithmetic of the device.
    None of these is defined in the translation unit; they are the members of
    an interface. *)
Class Backend := {
  arb_value_type : Type;
  (** the quiet NaN that [array(count, NAN)] fills a fresh block with *)
  NAN : arb_value_type;
  (** [array::alignment()] and [iarray::alignment()] *)
  array_alignment : nat;
  iarray_alignment : nat;
  (** the product [x * m] of a value and an index as the device computes it *)
  scale : arb_value_type -> Z -> arb_value_type
}.

(** [arb_index_type] *)
Abbreviation arb_index_type := Z (only parsing).

(** ** Device addresses *)

(** The allocations an instance can point into: its own two bulk buffers,
    the three device-side pointer tables, and arrays owned by the shared
    state of the cell group. *)
Inductive block : Type :=
| data_block
| indices_block
| parameters_d_block
| state_vars_d_block
| ion_states_d_block
| shared_block (id : N).

Global Instance block_eq_dec : EqDecision block.
Proof. solve_decision. Defined.

Record pointer := Ptr { ptr_block : block; ptr_offset : nat }.

Global Instance pointer_eq_dec : EqDecision pointer.
Proof. solve_decision. Defined.

(** Device operations issued through [memory::copy], [memory::fill] and the
    array constructors, in program order.  [dev_copy b off n] and
    [dev_fill b off n] target the view of [n] elements at offset [off] of
    block [b].  Reading an ion's node index back with [memory::on_host]
    writes to no block and is not recorded. *)
Inductive device_op : Type :=
| dev_alloc (b : block) (size : nat)
| dev_copy (b : block) (off n : nat)
| dev_fill (b : block) (off n : nat).

(** Kernels launched by [initialize], in program order. *)
Inductive kernel_launch : Type :=
| launch_init_mechanism
| launch_multiply_in_place (s p : option pointer) (n : nat).

(** [arbor_internal_error] with the two messages of the translation unit. *)
Inductive error : Type :=
| missing_ion_state
| no_such_global (k : string).

Global Instance error_eq_dec : EqDecision error.
Proof. solve_decision. Defined.

(** ** Schema: [arb_mechanism_type] *)

Module arb_field_info.
Record t `{Backend} := mk {
  name : string;
  default_value : arb_value_type
}.
End arb_field_info.

Module arb_ion_info.
Record t := mk { name : string }.
End arb_ion_info.

Module arb_mechanism_type.
Record t `{Backend} := mk {
  globals : list arb_field_info.t;
  state_vars : list arb_field_info.t;
  parameters : list arb_field_info.t;
  ions : list arb_ion_info.t
}.
Definition n_globals `{Backend} (m : t) : nat := length (globals m).
Definition n_state_vars `{Backend} (m : t) : nat := length (state_vars m).
Definition n_parameters `{Backend} (m : t) : nat := length (parameters m).
Definition n_ions `{Backend} (m : t) : nat := length (ions m).
End arb_mechanism_type.

(** ** Placement: [mechanism_layout] and [mechanism_overrides] *)

Module mechanism_layout.
Record t `{Backend} := mk {
  cv : list arb_index_type;
  weight : list arb_value_type;
  multiplicity : list arb_index_type
}.
End mechanism_layout.

Module mechanism_overrides.
Record t `{Backend} := mk {
  globals : gmap string arb_value_type;
  ion_rebind : gmap string string
}.
End mechanism_overrides.

(** ** Shared state of the cell group *)

(** [ion_state]: the [data()] pointers of the ion's device arrays, and the
    contents of its own node index as read back by [memory::on_host]. *)
Module ion_state.
Record t := mk {
  iX_ : pointer;
  eX_ : pointer;
  Xi_ : pointer;
  Xo_ : pointer;
  charge : pointer;
  node_index_ : list arb_index_type
}.
End ion_state.

Module shared_state.
Record t := mk {
  time : pointer;
  deliverable_events : pointer;
  cv_to_cell : pointer;
  cv_to_intdom : pointer;
  dt_cv : pointer;
  voltage : pointer;
  current_density : pointer;
  conductivity : pointer;
  temperature_degC : pointer;
  diam_um : pointer;
  time_since_spike : pointer;
  n_detector : nat;
  ion_data : gmap string ion_state.t
}.
End shared_state.

(** Members of the shared state that the instance keeps by address
    ([&shared.time], [&shared.deliverable_events]) rather than by the device
    pointer they currently hold. *)
Inductive shared_member : Type :=
| member_time
| member_deliverable_events.

(** ** The instance *)

(** Modelled from the spec: the declaration of [arb_ion_state] is outside the
    translation unit.  The ion-state record holds device pointers for current
    density, internal and external concentration, charge and the index; the
    brace initialiser in [instantiate] supplies the five value arrays [iX_],
    [eX_], [Xi_], [Xo_], [charge] in declaration order ahead of [index], which
    places the reversal potential second. *)
Module arb_ion_state.
Record t := mk {
  current_density : option pointer;
  reversal_potential : option pointer;
  internal_concentration : option pointer;
  external_concentration : option pointer;
  ionic_charge : option pointer;
  index : option pointer
}.
Definition unset : t := mk None None None None None None.
Definition with_index (p : option pointer) (s : t) : t :=
  mk (current_density s) (reversal_potential s) (internal_concentration s)
     (external_concentration s) (ionic_charge s) p.
End arb_ion_state.

(** The four members of [ion_state_view] that [ion_table] assigns. *)
Module ion_state_view.
Record t := mk {
  current_density : option pointer;
  external_concentration : option pointer;
  internal_concentration : option pointer;
  ionic_charge : option pointer
}.
End ion_state_view.

(** [arb_mechanism_ppack], the members this translation unit touches, and
    [vec_t], which [set_time_ptr] refreshes. *)
Module ppack.
Record t := mk {
  width : nat;
  mechanism_id : nat;
  vec_ci : option pointer;
  vec_di : option pointer;
  vec_dt : option pointer;
  vec_v : option pointer;
  vec_i : option pointer;
  vec_g : option pointer;
  temperature_degC : option pointer;
  diam_um : option pointer;
  time_since_spike : option pointer;
  n_detectors : nat;
  vec_t : option pointer;
  weight : option pointer;
  globals : option pointer;
  node_index : option pointer;
  multiplicity : option pointer;
  parameters : option pointer;
  state_vars : option pointer;
  ion_states : option pointer
}.
Definition unset : t :=
  mk 0 0 None None None None None None None None None 0
     None None None None None None None None.
Definition with_vec_t (p : option pointer) (k : t) : t :=
  mk (width k) (mechanism_id k) (vec_ci k) (vec_di k) (vec_dt k) (vec_v k)
     (vec_i k) (vec_g k) (temperature_degC k) (diam_um k) (time_since_spike k)
     (n_detectors k) p (weight k) (globals k) (node_index k) (multiplicity k)
     (parameters k) (state_vars k) (ion_states k).
End ppack.

(** [iface_]: the generated initialisation kernel is an external
    collaborator.  It receives the parameter pack; its effect on the
    instance's value buffer is a member of the interface. *)
Module arb_mechanism_interface.
Record t `{Backend} := mk {
  init_mechanism :
    ppack.t -> list (option arb_value_type) -> list (option arb_value_type)
}.
End arb_mechanism_interface.

(** The data members of [arb::gpu::mechanism].  [data_] and [indices_] hold
    the contents of the two device buffers; a cell that was never written is
    [None], like a slot of a host table that was never assigned. *)
Module mechanism.
Record t `{Backend} := mk {
  mech_ : arb_mechanism_type.t;
  iface_ : arb_mechanism_interface.t;
  mult_in_place_ : bool;
  width_ : nat;
  num_ions_ : nat;
  width_padded_ : nat;
  vec_t_ptr_ : option shared_member;
  event_stream_ptr_ : option shared_member;
  ppack_ : ppack.t;
  state_vars_h_ : list (option pointer);
  parameters_h_ : list (option pointer);
  ion_states_h_ : list arb_ion_state.t;
  globals_h_ : list (option arb_value_type);
  data_ : list (option arb_value_type);
  indices_ : list (option arb_index_type);
  parameters_d_ : list (option pointer);
  state_vars_d_ : list (option pointer);
  ion_states_d_ : list arb_ion_state.t
}.
(** A mechanism object as constructed, before [instantiate] has run. *)
Definition fresh `{Backend} (mech : arb_mechanism_type.t)
    (iface : arb_mechanism_interface.t) : t :=
  mk _ mech iface false 0 0 0 None None ppack.unset [] [] [] [] [] [] [] [] [].
Definition with_ppack `{Backend} (k : ppack.t) (m : t) : t :=
  mk _ (mech_ m) (iface_ m) (mult_in_place_ m) (width_ m) (num_ions_ m)
     (width_padded_ m) (vec_t_ptr_ m) (event_stream_ptr_ m) k
     (state_vars_h_ m) (parameters_h_ m) (ion_states_h_ m) (globals_h_ m)
     (data_ m) (indices_ m) (parameters_d_ m) (state_vars_d_ m)
     (ion_states_d_ m).
Definition with_data `{Backend} (d : list (option arb_value_type)) (m : t)
    : t :=
  mk _ (mech_ m) (iface_ m) (mult_in_place_ m) (width_ m) (num_ions_ m)
     (width_padded_ m) (vec_t_ptr_ m) (event_stream_ptr_ m) (ppack_ m)
     (state_vars_h_ m) (parameters_h_ m) (ion_states_h_ m) (globals_h_ m)
     d (indices_ m) (parameters_d_ m) (state_vars_d_ m) (ion_states_d_ m).
End mechanism.

(** How a call of [instantiate] ends. *)
Inductive outcome `{Backend} : Type :=
| returned (m : mechanism.t)
| thrown (e : error).

(** One device block being filled: its contents, the local cursor
    [base_ptr], and the device operations issued on it. *)
Record arena (T : Type) := Arena {
  arena_block : block;
  cells : list (option T);
  base_ptr : nat;
  issued : list device_op
}.
Arguments Arena {T}.
Arguments arena_block {T}.
Arguments cells {T}.
Arguments base_ptr {T}.
Arguments issued {T}.

Section Model.
Context `{B : Backend}.

(** ** Helpers from headers outside the translation unit *)

(** [for (auto idx: make_span(n))] over an array [arr] read at [arr[idx]]. *)
Definition span {A} (n : nat) (arr : list A) : list (nat * A) :=
  zip (seq 0 n) arr.

(** A range-for whose body may throw: the loop stops at the first exception
    and keeps the state reached so far. *)
Fixpoint for_each {X S} (body : X -> S -> S * option error) (xs : list X)
    (s : S) : S * option error :=
  match xs with
  | [] => (s, None)
  | x :: rest =>
      match body x s with
      | (s', None) => for_each body rest s'
      | (s', Some e) => (s', Some e)
      end
  end.

(** Modelled from the spec: [math::round_up] is defined in [arbor/math.hpp].
    The padded width is the smallest multiple of the alignment that is not
    below the width. *)
Definition round_up (v b : nat) : nat :=
  let m := v mod b in
  if m =? 0 then v else v - m + b.

(** Modelled from the spec: [util::value_by_key] and [util::ptr_by_key] are
    defined in [util/maputil.hpp]; on a keyed map both are a lookup, the first
    returning the mapped value if present, the second the entry or null. *)
Definition value_by_key {A} (m : gmap string A) (k : string) : option A :=
  m !! k.

Definition ptr_by_key {A} (m : gmap string A) (k : string) : option A :=
  m !! k.

(** The position in [haystack] at which [x] occurs (the first one, and
    [length haystack] when there is none). *)
Fixpoint position (x : arb_index_type) (haystack : list arb_index_type)
    : nat :=
  match haystack with
  | [] => 0
  | y :: rest => if decide (y = x) then 0 else S (position x rest)
  end.

(** Modelled from the spec: [util::index_into] is defined in
    [util/index_into.hpp].  Given the needles [A] and the haystack [B] it
    produces the sequence [C] of the length of [A] in which [C[k]] is the
    position in [B] at which [A[k]] occurs. *)
Definition index_into (A B : list arb_index_type) : list nat :=
  (fun a => position a B) <$> A.

(** Modelled from the spec: [memory::copy] and [memory::fill] are defined
    under [memory/].  [memory_copy src off n dst] is the contents of the
    block [dst] after copying [src] into its view of [n] elements at offset
    [off]; [memory_fill v off n dst] after filling that view with [v]. *)
Definition memory_copy {T} (src : list T) (off n : nat) (dst : list T)
    : list T :=
  list_inserts off (take n src) dst.

Definition memory_fill {T} (v : T) (off n : nat) (dst : list T) : list T :=
  list_inserts off (replicate n v) dst.

(** ** The bulk packer *)

(** [append_chunk = [n=width_](in, out, ptr)]: copy, [out = ptr], [ptr += n].
    The value assigned to [out] is returned. *)
Definition append_chunk {T} (n : nat) (src : list T) (a : arena T)
    : pointer * arena T :=
  (Ptr (arena_block a) (base_ptr a),
   Arena (arena_block a)
         (memory_copy (Some <$> src) (base_ptr a) n (cells a))
         (base_ptr a + n)
         (issued a ++ [dev_copy (arena_block a) (base_ptr a) n])).

(** [append_const = [n=width_](in, out, ptr)]: fill, [out = ptr],
    [ptr += n]. *)
Definition append_const {T} (n : nat) (v : T) (a : arena T)
    : pointer * arena T :=
  (Ptr (arena_block a) (base_ptr a),
   Arena (arena_block a)
         (memory_fill (Some v) (base_ptr a) n (cells a))
         (base_ptr a + n)
         (issued a ++ [dev_fill (arena_block a) (base_ptr a) n])).

(** The loop over parameters, and the one over state variables: one
    [append_const] per field, its view stored at the field's slot. *)
Definition append_fields (n : nat) (fields : list (nat * arb_field_info.t))
    (table : list (option pointer)) (a : arena arb_value_type)
    : list (option pointer) * arena arb_value_type :=
  foldl (fun '(table, a) '(idx, f) =>
           let '(out, a) :=
             append_const n (arb_field_info.default_value f) a in
           (<[idx := Some out]> table, a))
        (table, a) fields.

(** The inner loop over the schema globals for one override [(k, v)],
    entered with [found = false]. *)
Fixpoint scan_globals (k : string) (v : arb_value_type)
    (globals : list (nat * arb_field_info.t)) (found : bool)
    (globals_h : list (option arb_value_type))
    : list (option arb_value_type) * option error :=
  match globals with
  | [] => (globals_h, None)
  | (idx, g) :: rest =>
      if String.eqb (arb_field_info.name g) k
      then (<[idx := Some v]> globals_h, None)
      else if negb found
      then (globals_h, Some (no_such_global k))
      else scan_globals k v rest found globals_h
  end.

(** [for (auto& [k, v]: overrides.globals)], in the iteration order of the
    map. *)
Definition apply_global_overrides (mech : arb_mechanism_type.t)
    (overrides : mechanism_overrides.t)
    (globals_h : list (option arb_value_type))
    : list (option arb_value_type) * option error :=
  for_each (fun '(k, v) globals_h =>
              scan_globals k v
                (span (arb_mechanism_type.n_globals mech)
                      (arb_mechanism_type.globals mech))
                false globals_h)
           (map_to_list (mechanism_overrides.globals overrides)) globals_h.

(** [for (auto idx: make_span(mech_.n_globals))
       globals_h_[idx] = mech_.globals[idx].default_value;] *)
Definition assign_global_defaults (mech : arb_mechanism_type.t)
    (globals_h : list (option arb_value_type))
    : list (option arb_value_type) :=
  foldl (fun globals_h '(idx, g) =>
           <[idx := Some (arb_field_info.default_value g)]> globals_h)
        globals_h
        (span (arb_mechanism_type.n_globals mech)
              (arb_mechanism_type.globals mech)).

(** What the value block assigns. *)
Record value_block := ValueBlock {
  vb_data : list (option arb_value_type);
  vb_weight : option pointer;
  vb_parameters_h : list (option pointer);
  vb_state_vars_h : list (option pointer);
  vb_globals_h : list (option arb_value_type);
  vb_globals : option pointer;
  vb_issued : list device_op
}.

(** "Allocate and initialize state and parameter vectors with default
    values."  [old_globals] is [ppack_.globals] on entry, kept when the
    override loop throws. *)
Definition pack_values (mech : arb_mechanism_type.t)
    (overrides : mechanism_overrides.t) (pos_data : mechanism_layout.t)
    (width width_padded : nat)
    (parameters_h state_vars_h : list (option pointer))
    (globals_h : list (option arb_value_type)) (old_globals : option pointer)
    : value_block * option error :=
  let count :=
    (arb_mechanism_type.n_state_vars mech
     + arb_mechanism_type.n_parameters mech + 1) * width_padded
    + arb_mechanism_type.n_globals mech in
  let a := Arena data_block (replicate count (Some NAN)) 0
                 [dev_alloc data_block count] in
  let '(weight, a) := append_chunk width (mechanism_layout.weight pos_data) a in
  let '(parameters_h, a) :=
    append_fields width
      (span (arb_mechanism_type.n_parameters mech)
            (arb_mechanism_type.parameters mech))
      parameters_h a in
  let '(state_vars_h, a) :=
    append_fields width
      (span (arb_mechanism_type.n_state_vars mech)
            (arb_mechanism_type.state_vars mech))
      state_vars_h a in
  let globals_h := assign_global_defaults mech globals_h in
  match apply_global_overrides mech overrides globals_h with
  | (globals_h, Some e) =>
      (ValueBlock (cells a) (Some weight) parameters_h state_vars_h globals_h
                  old_globals (issued a),
       Some e)
  | (globals_h, None) =>
      let n_globals := arb_mechanism_type.n_globals mech in
      (ValueBlock (memory_copy globals_h (base_ptr a) n_globals (cells a))
                  (Some weight) parameters_h state_vars_h globals_h
                  (Some (Ptr data_block (base_ptr a)))
                  (issued a ++ [dev_copy data_block (base_ptr a) n_globals]),
       None)
  end.

(** The body of the loop under "Set ion views": bind the declared ion to
    the shared state's ion of the rebound name and record the [data()]
    pointers of its arrays. *)
Definition set_ion_view (overrides : mechanism_overrides.t)
    (shared : shared_state.t) (entry : nat * arb_ion_info.t)
    (ion_states_h : list arb_ion_state.t)
    : list arb_ion_state.t * option error :=
  let '(idx, info) := entry in
  let ion := arb_ion_info.name info in
  let ion_binding :=
    default ion
      (value_by_key (mechanism_overrides.ion_rebind overrides) ion) in
  match ptr_by_key (shared_state.ion_data shared) ion_binding with
  | None => (ion_states_h, Some missing_ion_state)
  | Some oion =>
      (<[idx := arb_ion_state.mk
                  (Some (ion_state.iX_ oion))
                  (Some (ion_state.eX_ oion))
                  (Some (ion_state.Xi_ oion))
                  (Some (ion_state.Xo_ oion))
                  (Some (ion_state.charge oion))
                  None]> ion_states_h,
       None)
  end.

Definition set_ion_views (mech : arb_mechanism_type.t)
    (overrides : mechanism_overrides.t) (shared : shared_state.t)
    (ion_states_h : list arb_ion_state.t)
    : list arb_ion_state.t * option error :=
  for_each (set_ion_view overrides shared)
           (span (arb_mechanism_type.n_ions mech)
                 (arb_mechanism_type.ions mech))
           ion_states_h.

(** The body of the loop under "Create ion indices": join the placement's
    sites against the bound ion's node index and append the result. *)
Definition append_ion_index (overrides : mechanism_overrides.t)
    (shared : shared_state.t) (pos_data : mechanism_layout.t) (width : nat)
    (entry : nat * arb_ion_info.t)
    (st : list arb_ion_state.t * arena arb_index_type)
    : (list arb_ion_state.t * arena arb_index_type) * option error :=
  let '(idx, info) := entry in
  let '(ion_states_h, a) := st in
  let ion := arb_ion_info.name info in
  let ion_binding :=
    default ion
      (value_by_key (mechanism_overrides.ion_rebind overrides) ion) in
  match ptr_by_key (shared_state.ion_data shared) ion_binding with
  | None => ((ion_states_h, a), Some missing_ion_state)
  | Some oion =>
      let ni := ion_state.node_index_ oion in
      let indices := index_into (mechanism_layout.cv pos_data) ni in
      let mech_ion_index : list arb_index_type := Z.of_nat <$> indices in
      let '(index_ptr, a) := append_chunk width mech_ion_index a in
      ((alter (arb_ion_state.with_index (Some index_ptr)) idx ion_states_h, a),
       None)
  end.

Definition append_ion_indices (mech : arb_mechanism_type.t)
    (overrides : mechanism_overrides.t) (shared : shared_state.t)
    (pos_data : mechanism_layout.t) (width : nat)
    (ion_states_h : list arb_ion_state.t) (a : arena arb_index_type)
    : (list arb_ion_state.t * arena arb_index_type) * option error :=
  for_each (append_ion_index overrides shared pos_data width)
           (span (arb_mechanism_type.n_ions mech)
                 (arb_mechanism_type.ions mech))
           (ion_states_h, a).

(** What the index block assigns. *)
Record index_block := IndexBlock {
  ib_indices : list (option arb_index_type);
  ib_node_index : option pointer;
  ib_ion_states_h : list arb_ion_state.t;
  ib_multiplicity : option pointer;
  ib_issued : list device_op
}.

(** "Allocate and initialize index vectors, viz. node_index_ and any ion
    indices."  [old_multiplicity] is [ppack_.multiplicity] on entry. *)
Definition pack_indices (mech : arb_mechanism_type.t)
    (overrides : mechanism_overrides.t) (shared : shared_state.t)
    (pos_data : mechanism_layout.t) (mult_in_place : bool)
    (width width_padded : nat) (ion_states_h : list arb_ion_state.t)
    (old_multiplicity : option pointer)
    : index_block * option error :=
  let count :=
    (if mult_in_place then 1 else 0) + arb_mechanism_type.n_ions mech + 1 in
  let a := Arena indices_block (replicate (count * width_padded) None) 0
                 [dev_alloc indices_block (count * width_padded)] in
  let '(node_index, a) := append_chunk width (mechanism_layout.cv pos_data) a in
  match append_ion_indices mech overrides shared pos_data width
                           ion_states_h a with
  | ((ion_states_h, a), Some e) =>
      (IndexBlock (cells a) (Some node_index) ion_states_h old_multiplicity
                  (issued a),
       Some e)
  | ((ion_states_h, a), None) =>
      if mult_in_place then
        let '(multiplicity, a) :=
          append_chunk width (mechanism_layout.multiplicity pos_data) a in
        (IndexBlock (cells a) (Some node_index) ion_states_h
                    (Some multiplicity) (issued a),
         None)
      else
        (IndexBlock (cells a) (Some node_index) ion_states_h old_multiplicity
                    (issued a),
         None)
  end.

(** "Shift data to GPU, set up pointers": a device vector of the size of the
    host table and a copy of the whole table into it. *)
Definition upload {T} (b : block) (table_h : list T)
    : list T * option pointer * list device_op :=
  (table_h, Some (Ptr b 0),
   [dev_alloc b (length table_h); dev_copy b 0 (length table_h)]).

(** ** [mechanism::instantiate]

    The call ends in an [outcome]; the device operations issued up to that
    point come with it.  The diagnostic lines written to [std::cerr] at the
    end are left out. *)
Definition instantiate (this : mechanism.t) (id : nat)
    (shared : shared_state.t) (overrides : mechanism_overrides.t)
    (pos_data : mechanism_layout.t) : outcome * list device_op :=
  let mech := mechanism.mech_ this in
  (* Set internal variables *)
  let mult_in_place :=
    negb (bool_decide (mechanism_layout.multiplicity pos_data = [])) in
  let width := length (mechanism_layout.cv pos_data) in
  let num_ions := arb_mechanism_type.n_ions mech in
  let vec_t_ptr := Some member_time in
  let event_stream_ptr := Some member_deliverable_events in
  let alignment := array_alignment `max` iarray_alignment in
  let width_padded := round_up width alignment in
  (* Assign non-owning views onto shared state *)
  let old := mechanism.ppack_ this in
  let views (weight globals node_index multiplicity parameters state_vars
             ion_states : option pointer) : ppack.t :=
    ppack.mk width id
      (Some (shared_state.cv_to_cell shared))
      (Some (shared_state.cv_to_intdom shared))
      (Some (shared_state.dt_cv shared))
      (Some (shared_state.voltage shared))
      (Some (shared_state.current_density shared))
      (Some (shared_state.conductivity shared))
      (Some (shared_state.temperature_degC shared))
      (Some (shared_state.diam_um shared))
      (Some (shared_state.time_since_spike shared))
      (shared_state.n_detector shared)
      (ppack.vec_t old)
      weight globals node_index multiplicity parameters state_vars
      ion_states in
  (* Allocate view pointers *)
  let state_vars_h :=
    replicate (arb_mechanism_type.n_state_vars mech) (None : option pointer) in
  let parameters_h :=
    replicate (arb_mechanism_type.n_parameters mech) (None : option pointer) in
  let ion_states_h :=
    replicate (arb_mechanism_type.n_ions mech) arb_ion_state.unset in
  let globals_h :=
    replicate (arb_mechanism_type.n_globals mech)
              (None : option arb_value_type) in
  (* Set ion views *)
  match set_ion_views mech overrides shared ion_states_h with
  | (_, Some e) => (thrown e, [])
  | (ion_states_h, None) =>
  (* If there are no sites there is nothing more to do. *)
  if width =? 0 then
    (returned
       (mechanism.mk _ mech (mechanism.iface_ this) mult_in_place width
          num_ions width_padded vec_t_ptr event_stream_ptr
          (views (ppack.weight old) (ppack.globals old) (ppack.node_index old)
                 (ppack.multiplicity old) (ppack.parameters old)
                 (ppack.state_vars old) (ppack.ion_states old))
          state_vars_h parameters_h ion_states_h globals_h
          (mechanism.data_ this) (mechanism.indices_ this)
          (mechanism.parameters_d_ this) (mechanism.state_vars_d_ this)
          (mechanism.ion_states_d_ this)),
     [])
  else
  match pack_values mech overrides pos_data width width_padded
                    parameters_h state_vars_h globals_h (ppack.globals old) with
  | (vb, Some e) => (thrown e, vb_issued vb)
  | (vb, None) =>
  match pack_indices mech overrides shared pos_data mult_in_place
                     width width_padded ion_states_h
                     (ppack.multiplicity old) with
  | (ib, Some e) => (thrown e, vb_issued vb ++ ib_issued ib)
  | (ib, None) =>
  let '(parameters_d, ppack_parameters, up1) :=
    upload parameters_d_block (vb_parameters_h vb) in
  let '(state_vars_d, ppack_state_vars, up2) :=
    upload state_vars_d_block (vb_state_vars_h vb) in
  let '(ion_states_d, ppack_ion_states, up3) :=
    upload ion_states_d_block (ib_ion_states_h ib) in
  (returned
     (mechanism.mk _ mech (mechanism.iface_ this) mult_in_place width
        num_ions width_padded vec_t_ptr event_stream_ptr
        (views (vb_weight vb) (vb_globals vb) (ib_node_index ib)
               (ib_multiplicity ib) ppack_parameters ppack_state_vars
               ppack_ion_states)
        (vb_state_vars_h vb) (vb_parameters_h vb) (ib_ion_states_h ib)
        (vb_globals_h vb) (vb_data vb) (ib_indices ib)
        parameters_d state_vars_d ion_states_d),
   vb_issued vb ++ ib_issued ib ++ up1 ++ up2 ++ up3)
  end end end.

(** ** Introspection accessors *)

(** [mechanism::global_table]: name and resolved value per schema global. *)
Definition global_table (this : mechanism.t)
    : list (string * option arb_value_type) :=
  let mech := mechanism.mech_ this in
  (fun '(idx, g) =>
     (arb_field_info.name g, mjoin (mechanism.globals_h_ this !! idx)))
  <$> span (arb_mechanism_type.n_globals mech)
           (arb_mechanism_type.globals mech).

(** [mechanism::ion_table]. *)
Definition ion_table (this : mechanism.t)
    : list (string * (ion_state_view.t * option pointer)) :=
  let mech := mechanism.mech_ this in
  (fun '(idx, info) =>
     let h := default arb_ion_state.unset (mechanism.ion_states_h_ this !! idx) in
     let v :=
       ion_state_view.mk
         (* v.current_density        = *) (arb_ion_state.current_density h)
         (* v.external_concentration = *) (arb_ion_state.internal_concentration h)
         (* v.internal_concentration = *) (arb_ion_state.external_concentration h)
         (* v.ionic_charge           = *) (arb_ion_state.ionic_charge h) in
     (arb_ion_info.name info, (v, arb_ion_state.index h)))
  <$> span (arb_mechanism_type.n_ions mech) (arb_mechanism_type.ions mech).

(** ** [mechanism::initialize] *)

(** Modelled from the spec: [set_time_ptr] is defined in the class header.
    It refreshes the stored pointer to the shared simulation clock, which may
    have been relocated since construction. *)
Definition set_time_ptr (this : mechanism.t) (shared : shared_state.t)
    : mechanism.t :=
  match mechanism.vec_t_ptr_ this with
  | Some member_time =>
      mechanism.with_ppack
        (ppack.with_vec_t (Some (shared_state.time shared))
                          (mechanism.ppack_ this))
        this
  | _ => this
  end.

(** Modelled from the spec: [multiply_in_place(s, p, n)] is only declared in
    the translation unit; its kernel lives in a device source file.  It
    scales the field at [s] elementwise, per site, by the site's multiplicity
    read at [p], over [n] sites.  Only fields of the value buffer and
    multiplicities of the index buffer have contents in this model. *)
Definition multiply_in_place (s p : option pointer) (n : nat)
    (indices : list (option arb_index_type))
    (data : list (option arb_value_type)) : list (option arb_value_type) :=
  match s, p with
  | Some (Ptr data_block s0), Some (Ptr indices_block p0) =>
      foldl (fun data i =>
               match data !! (s0 + i), indices !! (p0 + i) with
               | Some (Some x), Some (Some m) =>
                   <[s0 + i := Some (scale x m)]> data
               | _, _ => data
               end)
            data (seq 0 n)
  | _, _ => data
  end.

(** The loop of [initialize] over the state variables: one launch of
    [multiply_in_place] per field. *)
Definition scale_state_vars (this : mechanism.t)
    (data : list (option arb_value_type))
    : list (option arb_value_type) * list kernel_launch :=
  foldl (fun '(data, launched) idx =>
           let s := mjoin (mechanism.state_vars_h_ this !! idx) in
           let p := ppack.multiplicity (mechanism.ppack_ this) in
           let n := ppack.width (mechanism.ppack_ this) in
           (multiply_in_place s p n (mechanism.indices_ this) data,
            launched ++ [launch_multiply_in_place s p n]))
        (data, [])
        (seq 0 (arb_mechanism_type.n_state_vars (mechanism.mech_ this))).

(** [shared] is the shared state as it stands when [initialize] runs.  The
    kernels launched are returned next to the instance. *)
Definition initialize (this : mechanism.t) (shared : shared_state.t)
    : mechanism.t * list kernel_launch :=
  let this := set_time_ptr this shared in
  let data :=
    arb_mechanism_interface.init_mechanism (mechanism.iface_ this)
      (mechanism.ppack_ this) (mechanism.data_ this) in
  if negb (mechanism.mult_in_place_ this)
  then (mechanism.with_data data this, [launch_init_mechanism])
  else
    let '(data, launched) := scale_state_vars this data in
    (mechanism.with_data data this, launch_init_mechanism :: launched).

End Model.

(** ** Field access: [field_data], [set_parameter] and the field tables *)

(** The value of a pointer expression: null, the address of a cell, or the
    indeterminate value read from a table slot that was never assigned. *)
Inductive pointer_value : Type :=
| null_pointer
| valid_pointer (p : pointer)
| indeterminate_pointer.

(** The two messages [set_parameter] throws [arbor_internal_error] with. *)
Inductive parameter_error : Type :=
| parameter_size_mismatch
| no_such_parameter.

(** How a call of [set_parameter] ends: it returns, leaving the instance [m]
    after the device operations [ops]; it throws; or it has tested a pointer
    that was never assigned, about which the source says nothing. *)
Inductive mutation `{Backend} : Type :=
| mutated (m : mechanism.t) (ops : list device_op)
| rejected (e : parameter_error)
| unspecified.

Section FieldAccess.
Context `{B : Backend}.

(** What reading [table_h[idx]] yields. *)
Definition slot_value (slot : option (option pointer)) : pointer_value :=
  match slot with
  | Some (Some p) => valid_pointer p
  | _ => indeterminate_pointer
  end.

(** One of the two loops of [field_data]: the slot of the first field named
    [var], or nothing when the loop runs to its end. *)
Fixpoint find_field (var : string) (fields : list (nat * arb_field_info.t))
    (table_h : list (option pointer)) : option pointer_value :=
  match fields with
  | [] => None
  | (idx, f) :: rest =>
      if String.eqb var (arb_field_info.name f)
      then Some (slot_value (table_h !! idx))
      else find_field var rest table_h
  end.

(** [mechanism::field_data]: parameters first, then state variables, then
    [nullptr]. *)
Definition field_data (this : mechanism.t) (var : string) : pointer_value :=
  let mech := mechanism.mech_ this in
  match find_field var
          (span (arb_mechanism_type.n_parameters mech)
                (arb_mechanism_type.parameters mech))
          (mechanism.parameters_h_ this) with
  | Some v => v
  | None =>
      match find_field var
              (span (arb_mechanism_type.n_state_vars mech)
                    (arb_mechanism_type.state_vars mech))
              (mechanism.state_vars_h_ this) with
      | Some v => v
      | None => null_pointer
      end
  end.

(** [mechanism::set_parameter].  Only the value buffer has contents in this
    model; a copy to any other block leaves the record as it is. *)
Definition set_parameter (this : mechanism.t) (key : string)
    (values : list arb_value_type) : mutation :=
  if negb (length values =? mechanism.width_ this)
  then rejected parameter_size_mismatch
  else
    match field_data this key with
    | null_pointer => rejected no_such_parameter
    | indeterminate_pointer => unspecified
    | valid_pointer field_ptr =>
        if mechanism.width_ this =? 0 then mutated this []
        else
          let n := mechanism.width_ this in
          let this' :=
            match ptr_block field_ptr with
            | data_block =>
                mechanism.with_data
                  (memory_copy (Some <$> values) (ptr_offset field_ptr) n
                               (mechanism.data_ this))
                  this
            | _ => this
            end in
          mutated this'
                  [dev_copy (ptr_block field_ptr) (ptr_offset field_ptr) n]
    end.

(** The entries [state_table] builds, which are also the second half of
    [field_table]. *)
Definition state_table (this : mechanism.t)
    : list (string * (option pointer * arb_value_type)) :=
  let mech := mechanism.mech_ this in
  (fun '(idx, f) =>
     (arb_field_info.name f,
      (mjoin (mechanism.state_vars_h_ this !! idx),
       arb_field_info.default_value f)))
  <$> span (arb_mechanism_type.n_state_vars mech)
           (arb_mechanism_type.state_vars mech).

(** [mechanism::field_table]: one entry per parameter, then one per state
    variable. *)
Definition field_table (this : mechanism.t)
    : list (string * (option pointer * arb_value_type)) :=
  let mech := mechanism.mech_ this in
  ((fun '(idx, f) =>
      (arb_field_info.name f,
       (mjoin (mechanism.parameters_h_ this !! idx),
        arb_field_info.default_value f)))
   <$> span (arb_mechanism_type.n_parameters mech)
            (arb_mechanism_type.parameters mech))
  ++
  ((fun '(idx, f) =>
      (arb_field_info.name f,
       (mjoin (mechanism.state_vars_h_ this !! idx),
        arb_field_info.default_value f)))
   <$> span (arb_mechanism_type.n_state_vars mech)
            (arb_mechanism_type.state_vars mech)).

End FieldAccess.

(** ** Vocabulary of the statements *)
Section Vocabulary.
Context `{B : Backend}.

(** The concrete name a declared ion resolves to: the rebind table's mapped
    name when the declared name is present there, the declared name
    otherwise. *)
Definition resolved_name (overrides : mechanism_overrides.t)
    (declared : string) : string :=
  match mechanism_overrides.ion_rebind overrides !! declared with
  | Some mapped => mapped
  | None => declared
  end.

(** The shared state's ion a declared ion is bound to, if there is one. *)
Definition bound_ion (overrides : mechanism_overrides.t)
    (shared : shared_state.t) (declared : string) : option ion_state.t :=
  shared_state.ion_data shared !! resolved_name overrides declared.

Definition all_ions_bound (mech : arb_mechanism_type.t)
    (overrides : mechanism_overrides.t) (shared : shared_state.t) : Prop :=
  forall info, info ∈ arb_mechanism_type.ions mech ->
    is_Some (bound_ion overrides shared (arb_ion_info.name info)).

(** The host-side record of an ion right after "Set ion views". *)
Definition ion_views (oion : ion_state.t) : arb_ion_state.t :=
  arb_ion_state.mk (Some (ion_state.iX_ oion)) (Some (ion_state.eX_ oion))
    (Some (ion_state.Xi_ oion)) (Some (ion_state.Xo_ oion))
    (Some (ion_state.charge oion)) None.

(** The sizes [instantiate] allocates the two bulk buffers with. *)
Definition data_count (mech : arb_mechanism_type.t) (width_padded : nat)
    : nat :=
  (arb_mechanism_type.n_state_vars mech
   + arb_mechanism_type.n_parameters mech + 1) * width_padded
  + arb_mechanism_type.n_globals mech.

Definition indices_count (mech : arb_mechanism_type.t) (mult_in_place : bool)
    (width_padded : nat) : nat :=
  ((if mult_in_place then 1 else 0) + arb_mechanism_type.n_ions mech + 1)
  * width_padded.

(** The arena [a'] is [a] after [k] chunks of [n] cells each: same block
    and size, the cursor [k * n] further, everything below the old cursor
    untouched, and one copy or fill per chunk issued. *)
Record advanced {T} (n k : nat) (a a' : arena T) : Prop := {
  adv_block : arena_block a' = arena_block a;
  adv_base : base_ptr a' = base_ptr a + k * n;
  adv_length : length (cells a') = length (cells a);
  adv_cells : forall j, j < base_ptr a -> cells a' !! j = cells a !! j;
  adv_issued : forall op, op ∈ issued a' ->
    op ∈ issued a \/
    exists i, i < k /\
      (op = dev_copy (arena_block a) (base_ptr a + i * n) n \/
       op = dev_fill (arena_block a) (base_ptr a + i * n) n)
}.

Definition alignment : nat := array_alignment `max` iarray_alignment.

(** The global values [instantiate] resolves: schema defaults, then the
    override loop. *)
Definition resolved_globals (mech : arb_mechanism_type.t)
    (overrides : mechanism_overrides.t)
    : list (option arb_value_type) * option error :=
  apply_global_overrides mech overrides
    (assign_global_defaults mech
       (replicate (arb_mechanism_type.n_globals mech) None)).

(** What a call of [instantiate] on a non-empty placement leaves behind when
    it returns: the pointers recorded in the host tables and in the parameter
    pack, and the sizes of the two buffers.  [w] is the width. *)
Record laid_out (this : mechanism.t) (shared : shared_state.t)
    (overrides : mechanism_overrides.t) (pos_data : mechanism_layout.t)
    (m : mechanism.t) : Prop := {
  lo_mech : mechanism.mech_ m = mechanism.mech_ this;
  lo_iface : mechanism.iface_ m = mechanism.iface_ this;
  lo_width : mechanism.width_ m = length (mechanism_layout.cv pos_data);
  lo_width_padded :
    mechanism.width_padded_ m
    = round_up (length (mechanism_layout.cv pos_data)) alignment;
  lo_ppack_width :
    ppack.width (mechanism.ppack_ m) = length (mechanism_layout.cv pos_data);
  lo_mult :
    mechanism.mult_in_place_ m
    = negb (bool_decide (mechanism_layout.multiplicity pos_data = []));
  lo_bound : all_ions_bound (mechanism.mech_ this) overrides shared;
  lo_globals_h :
    resolved_globals (mechanism.mech_ this) overrides
    = (mechanism.globals_h_ m, None);
  lo_weight : ppack.weight (mechanism.ppack_ m) = Some (Ptr data_block 0);
  lo_parameters_length :
    length (mechanism.parameters_h_ m)
    = arb_mechanism_type.n_parameters (mechanism.mech_ this);
  lo_parameters : forall j,
    j < arb_mechanism_type.n_parameters (mechanism.mech_ this) ->
    mechanism.parameters_h_ m !! j
    = Some (Some (Ptr data_block
                    ((1 + j) * length (mechanism_layout.cv pos_data))));
  lo_state_vars_length :
    length (mechanism.state_vars_h_ m)
    = arb_mechanism_type.n_state_vars (mechanism.mech_ this);
  lo_state_vars : forall j,
    j < arb_mechanism_type.n_state_vars (mechanism.mech_ this) ->
    mechanism.state_vars_h_ m !! j
    = Some (Some (Ptr data_block
                    ((1 + arb_mechanism_type.n_parameters (mechanism.mech_ this)
                      + j) * length (mechanism_layout.cv pos_data))));
  lo_globals :
    ppack.globals (mechanism.ppack_ m)
    = Some (Ptr data_block
              ((1 + arb_mechanism_type.n_parameters (mechanism.mech_ this)
                + arb_mechanism_type.n_state_vars (mechanism.mech_ this))
               * length (mechanism_layout.cv pos_data)));
  lo_data_length :
    length (mechanism.data_ m)
    = data_count (mechanism.mech_ this) (mechanism.width_padded_ m);
  lo_node_index :
    ppack.node_index (mechanism.ppack_ m) = Some (Ptr indices_block 0);
  lo_ion_states_length :
    length (mechanism.ion_states_h_ m)
    = arb_mechanism_type.n_ions (mechanism.mech_ this);
  lo_ion_states : forall j info,
    arb_mechanism_type.ions (mechanism.mech_ this) !! j = Some info ->
    exists oion,
      bound_ion overrides shared (arb_ion_info.name info) = Some oion /\
      mechanism.ion_states_h_ m !! j
      = Some (arb_ion_state.with_index
                (Some (Ptr indices_block
                         ((1 + j) * length (mechanism_layout.cv pos_data))))
                (ion_views oion));
  lo_multiplicity :
    mechanism.mult_in_place_ m = true ->
    ppack.multiplicity (mechanism.ppack_ m)
    = Some (Ptr indices_block
              ((1 + arb_mechanism_type.n_ions (mechanism.mech_ this))
               * length (mechanism_layout.cv pos_data)));
  lo_indices_length :
    length (mechanism.indices_ m)
    = indices_count (mechanism.mech_ this) (mechanism.mult_in_place_ m)
                    (mechanism.width_padded_ m);
  lo_node_cells : forall i x,
    mechanism_layout.cv pos_data !! i = Some x ->
    i < length (mechanism.indices_ m) ->
    mechanism.indices_ m !! i = Some (Some x);
  lo_ion_cells : forall j info oion i x,
    arb_mechanism_type.ions (mechanism.mech_ this) !! j = Some info ->
    bound_ion overrides shared (arb_ion_info.name info) = Some oion ->
    mechanism_layout.cv pos_data !! i = Some x ->
    (1 + j) * length (mechanism_layout.cv pos_data) + i
      < length (mechanism.indices_ m) ->
    mechanism.indices_ m
      !! ((1 + j) * length (mechanism_layout.cv pos_data) + i)
    = Some (Some (Z.of_nat (position x (ion_state.node_index_ oion))));
  lo_mult_cells : forall i k,
    mechanism.mult_in_place_ m = true ->
    i < length (mechanism_layout.cv pos_data) ->
    mechanism_layout.multiplicity pos_data !! i = Some k ->
    (1 + arb_mechanism_type.n_ions (mechanism.mech_ this))
      * length (mechanism_layout.cv pos_data) + i
      < length (mechanism.indices_ m) ->
    mechanism.indices_ m
      !! ((1 + arb_mechanism_type.n_ions (mechanism.mech_ this))
          * length (mechanism_layout.cv pos_data) + i)
    = Some (Some k);
  lo_parameters_d : mechanism.parameters_d_ m = mechanism.parameters_h_ m;
  lo_state_vars_d : mechanism.state_vars_d_ m = mechanism.state_vars_h_ m;
  lo_ion_states_d : mechanism.ion_states_d_ m = mechanism.ion_states_h_ m
}.

(** The instance [instantiate] returns on an empty placement: what the
    code assigns before its early return, everything else as in [this]. *)
Definition no_sites_instance (this : mechanism.t) (id : nat)
    (shared : shared_state.t) (overrides : mechanism_overrides.t)
    (pos_data : mechanism_layout.t) : mechanism.t :=
  let mech := mechanism.mech_ this in
  let old := mechanism.ppack_ this in
  mechanism.mk _ mech (mechanism.iface_ this)
    (negb (bool_decide (mechanism_layout.multiplicity pos_data = [])))
    0 (arb_mechanism_type.n_ions mech) 0
    (Some member_time) (Some member_deliverable_events)
    (ppack.mk 0 id
       (Some (shared_state.cv_to_cell shared))
       (Some (shared_state.cv_to_intdom shared))
       (Some (shared_state.dt_cv shared))
       (Some (shared_state.voltage shared))
       (Some (shared_state.current_density shared))
       (Some (shared_state.conductivity shared))
       (Some (shared_state.temperature_degC shared))
       (Some (shared_state.diam_um shared))
       (Some (shared_state.time_since_spike shared))
       (shared_state.n_detector shared)
       (ppack.vec_t old) (ppack.weight old) (ppack.globals old)
       (ppack.node_index old) (ppack.multiplicity old) (ppack.parameters old)
       (ppack.state_vars old) (ppack.ion_states old))
    (replicate (arb_mechanism_type.n_state_vars mech) None)
    (replicate (arb_mechanism_type.n_parameters mech) None)
    ((fun info =>
        default arb_ion_state.unset
          (ion_views <$> bound_ion overrides shared (arb_ion_info.name info)))
     <$> arb_mechanism_type.ions mech)
    (replicate (arb_mechanism_type.n_globals mech) None)
    (mechanism.data_ this) (mechanism.indices_ this)
    (mechanism.parameters_d_ this) (mechanism.state_vars_d_ this)
    (mechanism.ion_states_d_ this).

(** A device operation that stays inside the two bulk allocations of the
    given sizes. *)
Definition within (data_size indices_size : nat) (op : device_op) : Prop :=
  match op with
  | dev_alloc b size =>
      (b = data_block -> size = data_size) /\
      (b = indices_block -> size = indices_size)
  | dev_copy b off n | dev_fill b off n =>
      (b = data_block -> off + n <= data_size) /\
      (b = indices_block -> off + n <= indices_size)
  end.

(** The value a cell holds after being scaled by the multiplicity found in
    [indices] at [at_]; a cell or a multiplicity without contents leaves the
    cell as it is. *)
Definition scaled_cell (indices : list (option arb_index_type)) (at_ : nat)
    (cell : option arb_value_type) : option arb_value_type :=
  match cell, indices !! at_ with
  | Some x, Some (Some m) => Some (scale x m)
  | _, _ => cell
  end.

(** The two components of [scale_state_vars], separately. *)
Definition scaled_data (this : mechanism.t)
    (data : list (option arb_value_type)) (k : nat)
    : list (option arb_value_type) :=
  foldl (fun data idx =>
           multiply_in_place (mjoin (mechanism.state_vars_h_ this !! idx))
             (ppack.multiplicity (mechanism.ppack_ this))
             (ppack.width (mechanism.ppack_ this))
             (mechanism.indices_ this) data)
        data (seq 0 k).

Definition scaling_launches (this : mechanism.t) : list kernel_launch :=
  (fun idx =>
     launch_multiply_in_place
       (mjoin (mechanism.state_vars_h_ this !! idx))
       (ppack.multiplicity (mechanism.ppack_ this))
       (ppack.width (mechanism.ppack_ this)))
  <$> seq 0 (arb_mechanism_type.n_state_vars (mechanism.mech_ this)).

(** The value buffer as the initialisation kernel leaves it, before the
    scaling step of [initialize]. *)
Definition post_init (m : mechanism.t) (shared : shared_state.t)
    : list (option arb_value_type) :=
  let m1 := set_time_ptr m shared in
  arb_mechanism_interface.init_mechanism (mechanism.iface_ m1)
    (mechanism.ppack_ m1) (mechanism.data_ m1).

(** Every pointer of a host-side ion-state record that the accessors and
    kernels read is valid. *)
Definition ion_state_populated (s : arb_ion_state.t) : Prop :=
  is_Some (arb_ion_state.current_density s) /\
  is_Some (arb_ion_state.internal_concentration s) /\
  is_Some (arb_ion_state.external_concentration s) /\
  is_Some (arb_ion_state.ionic_charge s) /\
  is_Some (arb_ion_state.index s).

(** All pointer tables populated: the host-side tables, their device-side
    mirrors, and the pointers of the parameter pack. *)
Definition tables_populated (m : mechanism.t) : Prop :=
  Forall is_Some (mechanism.parameters_h_ m) /\
  Forall is_Some (mechanism.state_vars_h_ m) /\
  Forall ion_state_populated (mechanism.ion_states_h_ m) /\
  Forall is_Some (mechanism.globals_h_ m) /\
  mechanism.parameters_d_ m = mechanism.parameters_h_ m /\
  mechanism.state_vars_d_ m = mechanism.state_vars_h_ m /\
  mechanism.ion_states_d_ m = mechanism.ion_states_h_ m /\
  is_Some (ppack.parameters (mechanism.ppack_ m)) /\
  is_Some (ppack.state_vars (mechanism.ppack_ m)) /\
  is_Some (ppack.ion_states (mechanism.ppack_ m)) /\
  is_Some (ppack.globals (mechanism.ppack_ m)) /\
  is_Some (ppack.weight (mechanism.ppack_ m)) /\
  is_Some (ppack.node_index (mechanism.ppack_ m)).

(** ** Vocabulary of the accessors *)

(** The names [field_data] searches, in the order it searches them. *)
Definition field_names (mech : arb_mechanism_type.t) : list string :=
  (arb_field_info.name <$> arb_mechanism_type.parameters mech)
  ++ (arb_field_info.name <$> arb_mechanism_type.state_vars mech).

(** The pointer value a table entry stands for. *)
Definition entry_value (ptr : option pointer) : pointer_value :=
  match ptr with
  | Some p => valid_pointer p
  | None => indeterminate_pointer
  end.

(** The first entry of a table under the name [var]. *)
Fixpoint first_entry {A} (var : string) (table : list (string * A))
    : option A :=
  match table with
  | [] => None
  | (name, a) :: rest =>
      if String.eqb var name then Some a else first_entry var rest
  end.

(** The override sets the loop of [instantiate] lets through: any set when
    the schema has no global, and otherwise only keys equal to the name of
    the first global. *)
Definition overrides_accepted (mech : arb_mechanism_type.t)
    (overrides : mechanism_overrides.t) : Prop :=
  match arb_mechanism_type.globals mech with
  | [] => True
  | g0 :: _ =>
      forall k, is_Some (mechanism_overrides.globals overrides !! k) ->
                k = arb_field_info.name g0
  end.

(** The block a device operation acts on. *)
Definition op_block (op : device_op) : block :=
  match op with
  | dev_alloc b _ => b
  | dev_copy b _ _ => b
  | dev_fill b _ _ => b
  end.

End Vocabulary.

(** ** A concrete backend and placement

    Values are binary64 floats; the value array is aligned to four elements
    and the index array to two, so a width of three is padded to four. *)
Module demo.

Definition backend : Backend :=
  {| arb_value_type := float;
     NAN := PrimFloat.nan;
     array_alignment := 4;
     iarray_alignment := 2;
     scale := fun x m => PrimFloat.mul x (PrimFloat.of_uint63 (Uint63.of_Z m)) |}.
#[export] Existing Instance backend.

Definition field (name : string) (v : float) : arb_field_info.t :=
  arb_field_info.mk _ name v.

Definition array_at (id : N) : pointer := Ptr (shared_block id) 0.

(** The shared state's calcium ion, present on sites 1 to 7. *)
Definition ca : ion_state.t :=
  ion_state.mk (array_at 20) (array_at 21) (array_at 22) (array_at 23)
               (array_at 24) [1; 2; 3; 4; 5; 6; 7]%Z.

Definition shared : shared_state.t :=
  shared_state.mk (array_at 1) (array_at 2) (array_at 3) (array_at 4)
    (array_at 5) (array_at 6) (array_at 7) (array_at 8) (array_at 9)
    (array_at 10) (array_at 11) 0 {[ "ca" := ca ]}.

(** The same cell group without any ion. *)
Definition shared_without_ca : shared_state.t :=
  shared_state.mk (array_at 1) (array_at 2) (array_at 3) (array_at 4)
    (array_at 5) (array_at 6) (array_at 7) (array_at 8) (array_at 9)
    (array_at 10) (array_at 11) 0 ∅.

(** Globals [a = 1.0] and [b = 2.0], one state variable, one parameter, and
    an ion declared under the name [x]. *)
Definition mech : arb_mechanism_type.t :=
  arb_mechanism_type.mk _
    [field "a" 1; field "b" 2] [field "s" 0.5] [field "p" 3]
    [arb_ion_info.mk "x"].

(** The same schema without globals. *)
Definition mech_no_globals : arb_mechanism_type.t :=
  arb_mechanism_type.mk _ [] [field "s" 0.5] [field "p" 3]
    [arb_ion_info.mk "x"].

(** An initialisation kernel that leaves the value buffer as it finds it. *)
Definition iface : arb_mechanism_interface.t :=
  arb_mechanism_interface.mk _ (fun _ data => data).

Definition rebind_x_ca : gmap string string := {[ "x" := "ca" ]}.

Definition no_override : mechanism_overrides.t :=
  mechanism_overrides.mk _ ∅ rebind_x_ca.
Definition override_a : mechanism_overrides.t :=
  mechanism_overrides.mk _ {[ "a" := 5%float ]} rebind_x_ca.
Definition override_b : mechanism_overrides.t :=
  mechanism_overrides.mk _ {[ "b" := 5%float ]} rebind_x_ca.
Definition override_c : mechanism_overrides.t :=
  mechanism_overrides.mk _ {[ "c" := 9%float ]} rebind_x_ca.

(** Three sites, the middle one standing for two placements. *)
Definition sites : mechanism_layout.t :=
  mechanism_layout.mk _ [3; 7; 2]%Z [0.25; 0.5; 0.75]%float [1; 2; 1]%Z.

(** Three sites, none of them coalesced, multiplicities recorded. *)
Definition sites_single : mechanism_layout.t :=
  mechanism_layout.mk _ [3; 7; 2]%Z [0.25; 0.5; 0.75]%float [1; 1; 1]%Z.

(** Three sites without a multiplicity sequence. *)
Definition sites_plain : mechanism_layout.t :=
  mechanism_layout.mk _ [3; 7; 2]%Z [0.25; 0.5; 0.75]%float [].

(** No site at all. *)
Definition no_sites : mechanism_layout.t := mechanism_layout.mk _ [] [] [].

Definition this : mechanism.t := mechanism.fresh mech iface.
Definition this_no_globals : mechanism.t :=
  mechanism.fresh mech_no_globals iface.

(** The instance a call left behind, or [fallback] if it threw. *)
Definition instance_of (o : outcome * list device_op) (fallback : mechanism.t)
    : mechanism.t :=
  match o.1 with
  | returned m => m
  | thrown _ => fallback
  end.

(** The instance on three sites, one of multiplicity two. *)
Definition placed : mechanism.t :=
  instance_of (instantiate this 7 shared no_override sites) this.
Definition placed_trace : list device_op :=
  (instantiate this 7 shared no_override sites).2.

(** The instance on three sites whose multiplicities are all one. *)
Definition placed_single : mechanism.t :=
  instance_of (instantiate this 7 shared no_override sites_single) this.
Definition placed_single_trace : list device_op :=
  (instantiate this 7 shared no_override sites_single).2.

(** The instance on no site. *)
Definition unplaced : mechanism.t :=
  instance_of (instantiate this 7 shared no_override no_sites) this.

(** The instance on three sites with the first global overridden. *)
Definition placed_a : mechanism.t :=
  instance_of (instantiate this 7 shared override_a sites) this.
Definition placed_a_trace : list device_op :=
  (instantiate this 7 shared override_a sites).2.

(** What the call with an override of an unknown global has issued when it
    throws. *)
Definition rejected_trace : list device_op :=
  (instantiate this 7 shared override_c sites).2.

(** The instance a call of [set_parameter] left behind, or [fallback] if it
    did not go through. *)
Definition written (o : mutation) (fallback : mechanism.t) : mechanism.t :=
  match o with
  | mutated m _ => m
  | _ => fallback
  end.

(** [placed] after the parameter [p] has been set to 1, 2 and 3 on its three
    sites. *)
Definition placed_p : mechanism.t :=
  written (set_parameter placed "p" [1; 2; 3]%float) placed.

End demo.

(** * Properties *)

(** ** Padding *)
Section Arithmetic.

Lemma round_up_ge v b : 0 < b -> v <= round_up v b.
Proof.
  intros Hb. unfold round_up.
  pose proof (Nat.mod_upper_bound v b ltac:(lia)) as Hm.
  pose proof (Nat.Div0.mod_le v b) as Hle.
  destruct (Nat.eqb_spec (v mod b) 0); lia.
Qed.

Lemma round_up_multiple v b : 0 < b -> round_up v b mod b = 0.
Proof.
  intros Hb. unfold round_up.
  destruct (Nat.eqb_spec (v mod b) 0) as [E|E]; [exact E|].
  pose proof (Nat.div_mod_eq v b) as Hd.
  replace (v - v mod b + b) with ((v / b + 1) * b) by lia.
  apply Nat.Div0.mod_mul.
Qed.

Lemma round_up_least v b k : 0 < b -> v <= k * b -> round_up v b <= k * b.
Proof.
  intros Hb Hk. unfold round_up.
  pose proof (Nat.div_mod_eq v b) as Hd.
  pose proof (Nat.mod_upper_bound v b ltac:(lia)) as Hm.
  destruct (Nat.eqb_spec (v mod b) 0) as [E|E]; [lia|].
  replace (v - v mod b + b) with ((v / b + 1) * b) by lia.
  apply Nat.mul_le_mono_r.
  destruct (Nat.le_gt_cases (v / b + 1) k) as [?|Hlt]; [lia|].
  assert (k <= v / b) as Hkv by lia.
  apply (Nat.mul_le_mono_r _ _ b) in Hkv. lia.
Qed.

End Arithmetic.

Section Loops.
Context {X S : Type}.
Implicit Types (body : X -> S -> S * option error).

Lemma for_each_cons body x xs s :
  for_each body (x :: xs) s =
  match body x s with
  | (s', None) => for_each body xs s'
  | (s', Some e) => (s', Some e)
  end.
Proof. done. Qed.

Lemma for_each_thrown body xs s s' e :
  for_each body xs s = (s', Some e) ->
  exists x s0, x ∈ xs /\ (body x s0).2 = Some e.
Proof.
  revert s. induction xs as [|x xs IH]; intros s; simpl; [done|].
  destruct (body x s) as [s1 [e1|]] eqn:Hb.
  - intros [= <- <-]. exists x, s. split; [left|by rewrite Hb].
  - intros (y & s0 & Hy & Hr)%IH. exists y, s0. split; [by right|done].
Qed.

Lemma for_each_no_throw body xs s :
  (forall x s0, x ∈ xs -> (body x s0).2 = None) ->
  (for_each body xs s).2 = None.
Proof.
  revert s. induction xs as [|x xs IH]; intros s Hall; simpl; [done|].
  pose proof (Hall x s ltac:(left)) as Hx.
  destruct (body x s) as [s1 [e1|]]; [done|].
  apply IH. intros y s0 Hy. apply Hall. by right.
Qed.

Lemma for_each_throws body xs s x :
  x ∈ xs -> (forall s0, is_Some (body x s0).2) ->
  is_Some (for_each body xs s).2.
Proof.
  intros Hin Hx. revert s.
  induction xs as [|y xs IH]; intros s; [by apply elem_of_nil in Hin|].
  simpl. destruct (body y s) as [s1 [e1|]] eqn:Hb; [by eexists|].
  apply elem_of_cons in Hin as [->|Hin]; [|by apply IH].
  destruct (Hx s) as [e He]. by rewrite Hb in He.
Qed.

End Loops.

Section IndexJoin.

Lemma position_lookup (x : arb_index_type) (B : list arb_index_type) :
  x ∈ B -> B !! position x B = Some x.
Proof.
  induction B as [|y B IH]; intros Hin; [by apply elem_of_nil in Hin|].
  simpl. destruct (decide (y = x)) as [->|Hne]; [done|].
  apply elem_of_cons in Hin as [->|Hin]; [done|]. simpl. by apply IH.
Qed.

Lemma position_first (x : arb_index_type) (B : list arb_index_type) j :
  j < position x B -> B !! j ≠ Some x.
Proof.
  revert j. induction B as [|y B IH]; intros j; simpl; [lia|].
  destruct (decide (y = x)) as [->|Hne]; [lia|].
  destruct j as [|j]; simpl; [congruence|]. intros Hj. apply IH. lia.
Qed.

Lemma length_index_into A B : length (index_into A B) = length A.
Proof. unfold index_into. by rewrite length_fmap. Qed.

Lemma index_into_lookup A B k a :
  A !! k = Some a -> index_into A B !! k = Some (position a B).
Proof. intros Ha. unfold index_into. by rewrite list_lookup_fmap, Ha. Qed.

End IndexJoin.

Section Packer.
Context `{B : Backend}.

Lemma length_memory_copy {T} (src : list T) off n dst :
  length (memory_copy src off n dst) = length dst.
Proof. apply length_inserts. Qed.

Lemma length_memory_fill {T} (v : T) off n dst :
  length (memory_fill v off n dst) = length dst.
Proof. apply length_inserts. Qed.

Lemma advanced_refl {T} n (a : arena T) : advanced n 0 a a.
Proof. split; auto with lia. Qed.

Lemma advanced_trans {T} n j k (a a' a'' : arena T) :
  advanced n j a a' -> advanced n k a' a'' -> advanced n (j + k) a a''.
Proof.
  intros [Hb1 Hp1 Hl1 Hc1 Hi1] [Hb2 Hp2 Hl2 Hc2 Hi2]. split.
  - congruence.
  - rewrite Hp2, Hp1. lia.
  - congruence.
  - intros i Hi. rewrite Hc2 by lia. by apply Hc1.
  - intros op [Hop|(i & Hi & Hop)]%Hi2.
    + apply Hi1 in Hop as [?|(i & Hi & Hop)]; [by left|].
      right. exists i. split; [lia|done].
    + right. exists (j + i). split; [lia|].
      rewrite Hb1, Hp1 in Hop.
      replace (base_ptr a + (j + i) * n) with (base_ptr a + j * n + i * n) by lia.
      done.
Qed.

Lemma append_chunk_advanced {T} n (src : list T) a :
  advanced n 1 a (append_chunk n src a).2.
Proof.
  split; simpl.
  - done.
  - lia.
  - apply length_memory_copy.
  - intros j Hj. unfold memory_copy. by apply list_lookup_inserts_lt.
  - intros op [Hop|Hop%list_elem_of_singleton]%elem_of_app; [by left|].
    right. exists 0. split; [lia|]. left. rewrite Hop. f_equal. lia.
Qed.

Lemma append_const_advanced {T} n (v : T) a :
  advanced n 1 a (append_const n v a).2.
Proof.
  split; simpl.
  - done.
  - lia.
  - apply length_memory_fill.
  - intros j Hj. unfold memory_fill. by apply list_lookup_inserts_lt.
  - intros op [Hop|Hop%list_elem_of_singleton]%elem_of_app; [by left|].
    right. exists 0. split; [lia|]. right. rewrite Hop. f_equal. lia.
Qed.

Lemma append_chunk_cells {T} n (src : list T) a i x :
  i < n -> src !! i = Some x -> base_ptr a + i < length (cells a) ->
  cells (append_chunk n src a).2 !! (base_ptr a + i) = Some (Some x).
Proof.
  intros Hi Hx Hlen. simpl. unfold memory_copy.
  assert (take n (Some <$> src) !! i = Some (Some x)) as Ht.
  { rewrite lookup_take_lt by done. by rewrite list_lookup_fmap, Hx. }
  rewrite list_lookup_inserts.
  - by replace (base_ptr a + i - base_ptr a) with i by lia.
  - apply lookup_lt_Some in Ht. lia.
  - done.
Qed.

(** The views stored by [append_fields] when it runs over the slots
    [s, s+1, ...] of a table. *)
Lemma append_fields_spec n (arr : list arb_field_info.t) :
  forall s table a,
    let r := append_fields n (zip (seq s (length arr)) arr) table a in
    advanced n (length arr) a r.2 /\
    length r.1 = length table /\
    forall j,
      r.1 !! j =
      if decide (s <= j < s + length arr /\ j < length table)
      then Some (Some (Ptr (arena_block a) (base_ptr a + (j - s) * n)))
      else table !! j.
Proof.
  induction arr as [|f arr IH]; intros s table a; simpl.
  - split; [apply advanced_refl|]. split; [done|].
    intros j. case_decide; [lia|done].
  - unfold append_fields in *. simpl.
    specialize (IH (S s) (<[s := Some (Ptr (arena_block a) (base_ptr a))]> table)
                   (append_const n (arb_field_info.default_value f) a).2).
    simpl in IH. destruct IH as (Hadv & Hlen & Hlook).
    split; [|split].
    + apply (advanced_trans n 1 (length arr) _ _ _ (append_const_advanced n _ a) Hadv).
    + by rewrite Hlen, length_insert.
    + intros j. rewrite Hlook, length_insert.
      destruct (decide (j = s)) as [->|Hne].
      * rewrite decide_False by lia.
        case_decide as Hd.
        -- rewrite list_lookup_insert_eq by lia.
           do 3 f_equal. lia.
        -- assert (length table <= s) by lia.
           rewrite list_insert_ge by lia. done.
      * rewrite list_lookup_insert_ne by done.
        case_decide as H1; case_decide as H2; try lia; [|done].
        do 3 f_equal. simpl.
        replace (j - s) with (S (j - S s)) by lia. simpl. lia.
Qed.

End Packer.

Section Values.
Context `{B : Backend}.

Lemma pack_values_spec mech ov pos w wp ph sh gh og :
  length ph = arb_mechanism_type.n_parameters mech ->
  length sh = arb_mechanism_type.n_state_vars mech ->
  let np := arb_mechanism_type.n_parameters mech in
  let ns := arb_mechanism_type.n_state_vars mech in
  let ng := arb_mechanism_type.n_globals mech in
  let r := pack_values mech ov pos w wp ph sh gh og in
  let g := apply_global_overrides mech ov (assign_global_defaults mech gh) in
  r.2 = g.2 /\
  vb_globals_h r.1 = g.1 /\
  vb_weight r.1 = Some (Ptr data_block 0) /\
  length (vb_parameters_h r.1) = np /\
  (forall j, j < np ->
     vb_parameters_h r.1 !! j = Some (Some (Ptr data_block ((1 + j) * w)))) /\
  length (vb_state_vars_h r.1) = ns /\
  (forall j, j < ns ->
     vb_state_vars_h r.1 !! j = Some (Some (Ptr data_block ((1 + np + j) * w)))) /\
  length (vb_data r.1) = data_count mech wp /\
  vb_globals r.1 =
    (if g.2 is Some _ then og else Some (Ptr data_block ((1 + np + ns) * w))) /\
  (forall op, op ∈ vb_issued r.1 ->
     op = dev_alloc data_block (data_count mech wp) \/
     (exists i, i < 1 + np + ns /\
        (op = dev_copy data_block (i * w) w \/ op = dev_fill data_block (i * w) w)) \/
     op = dev_copy data_block ((1 + np + ns) * w) ng).
Proof.
  intros Hph Hsh np ns ng r g. subst r. unfold pack_values.
  set (a0 := Arena data_block _ 0 _).
  pose proof (append_chunk_advanced w (mechanism_layout.weight pos) a0) as Ha1.
  rewrite (surjective_pairing (append_chunk w (mechanism_layout.weight pos) a0)).
  set (a1 := (append_chunk w (mechanism_layout.weight pos) a0).2) in *.
  unfold span, arb_mechanism_type.n_parameters, arb_mechanism_type.n_state_vars
    in *.
  pose proof (append_fields_spec w (arb_mechanism_type.parameters mech) 0 ph a1)
    as (Ha2 & Hl2 & Hv2).
  destruct (append_fields w _ ph a1) as [ph' a2]. simpl in Ha2, Hl2, Hv2.
  pose proof (append_fields_spec w (arb_mechanism_type.state_vars mech) 0 sh a2)
    as (Ha3 & Hl3 & Hv3).
  destruct (append_fields w _ sh a2) as [sh' a3]. simpl in Ha3, Hl3, Hv3.
  pose proof (advanced_trans _ _ _ _ _ _ (advanced_trans _ _ _ _ _ _ Ha1 Ha2) Ha3)
    as [Hb Hp Hl _ Hi].
  destruct Ha1 as [Hb1 Hp1 _ _ _]. destruct Ha2 as [Hb2 Hp2 _ _ _].
  assert (Hcells : length (cells a0) = data_count mech wp).
  { subst a0. simpl. by rewrite length_replicate. }
  assert (Hbase : base_ptr a3 = (1 + np + ns) * w).
  { rewrite Hp. subst a0 np ns. simpl. lia. }
  assert (Hissued : forall op, op ∈ issued a3 ->
     op = dev_alloc data_block (data_count mech wp) \/
     (exists i, i < 1 + np + ns /\
        (op = dev_copy data_block (i * w) w \/ op = dev_fill data_block (i * w) w))).
  { intros op [Hop|(i & Hi' & Hop)]%Hi.
    - left. subst a0. simpl in Hop. by apply list_elem_of_singleton in Hop.
    - right. exists i. split; [subst np ns; lia|]. subst a0. simpl in Hop. done. }
  assert (Hpar : forall j, j < np ->
     ph' !! j = Some (Some (Ptr data_block ((1 + j) * w)))).
  { intros j Hj. rewrite Hv2. rewrite decide_True by (subst np; lia).
    rewrite Nat.sub_0_r. do 3 f_equal. }
  assert (Hsta : forall j, j < ns ->
     sh' !! j = Some (Some (Ptr data_block ((1 + np + j) * w)))).
  { intros j Hj. rewrite Hv3. rewrite decide_True by (subst ns; lia).
    rewrite Hb2, Hp2, Nat.sub_0_r. subst a1 a0 np. simpl. do 3 f_equal. lia. }
  assert (Hw : Ptr (arena_block a0) (base_ptr a0) = Ptr data_block 0) by done.
  assert (Hlp : length ph' = np) by (subst np; congruence).
  assert (Hls : length sh' = ns) by (subst ns; congruence).
  clearbody a0 a1. subst g.
  destruct (apply_global_overrides mech ov (assign_global_defaults mech gh))
    as [gh' [e|]]; simpl.
  - repeat split; try done; try congruence.
    intros op Hop. apply Hissued in Hop. tauto.
  - repeat split; try done; try congruence.
    + by rewrite length_memory_copy, Hl.
    + rewrite Hbase. do 2 f_equal.
    + intros op [Hop|Hop%list_elem_of_singleton]%elem_of_app.
      * apply Hissued in Hop. tauto.
      * right. right. by rewrite Hop, Hbase.
Qed.

End Values.

Section IonBinding.
Context `{B : Backend}.

Lemma resolved_name_default (ov : mechanism_overrides.t) ion :
  default ion (value_by_key (mechanism_overrides.ion_rebind ov) ion)
  = resolved_name ov ion.
Proof. unfold resolved_name, value_by_key. by destruct (_ !! _). Qed.

Lemma set_ion_view_eq (ov : mechanism_overrides.t) shared idx info tbl :
  set_ion_view ov shared (idx, info) tbl =
  match bound_ion ov shared (arb_ion_info.name info) with
  | None => (tbl, Some missing_ion_state)
  | Some oion => (<[idx := ion_views oion]> tbl, None)
  end.
Proof.
  unfold set_ion_view. rewrite resolved_name_default. done.
Qed.

Lemma set_ion_views_spec (ov : mechanism_overrides.t) (shared : shared_state.t) :
  forall (arr : list arb_ion_info.t) s tbl,
    let r := for_each (set_ion_view ov shared) (zip (seq s (length arr)) arr) tbl in
    length r.1 = length tbl /\
    (forall e, r.2 = Some e ->
       e = missing_ion_state /\
       exists info, info ∈ arr /\
         bound_ion ov shared (arb_ion_info.name info) = None) /\
    (r.2 = None ->
       (forall info, info ∈ arr ->
          is_Some (bound_ion ov shared (arb_ion_info.name info))) /\
       forall j,
         r.1 !! j =
         if decide (s <= j < s + length arr /\ j < length tbl)
         then ion_views <$>
                (arr !! (j - s) ≫= fun info =>
                   bound_ion ov shared (arb_ion_info.name info))
         else tbl !! j).
Proof.
  induction arr as [|info arr IH]; intros s tbl r; subst r.
  - simpl. split; [done|]. split; [done|]. intros _. split.
    + intros info Hin. by apply elem_of_nil in Hin.
    + intros j. case_decide; [lia|done].
  - cbn [length seq zip_with]. rewrite for_each_cons, set_ion_view_eq.
    destruct (bound_ion ov shared (arb_ion_info.name info)) as [oion|] eqn:Hb.
    + specialize (IH (S s) (<[s := ion_views oion]> tbl)).
      cbv zeta in IH. destruct IH as (Hlen & Herr & Hok).
      split; [by rewrite Hlen, length_insert|]. split.
      * intros e He. destruct (Herr e He) as (-> & i2 & Hin & Hn).
        split; [done|]. exists i2. split; [by right|done].
      * intros Hnone. destruct (Hok Hnone) as (Hall & Hlook). split.
        -- intros i2 [->|Hin]%elem_of_cons; [by rewrite Hb|by apply Hall].
        -- intros j. rewrite Hlook, length_insert.
           destruct (decide (j = s)) as [->|Hne].
           ++ rewrite decide_False by lia. case_decide as Hd.
              ** rewrite list_lookup_insert_eq by lia.
                 rewrite Nat.sub_diag. simpl. by rewrite Hb.
              ** rewrite list_insert_ge by lia. done.
           ++ rewrite list_lookup_insert_ne by done.
              case_decide as H1; case_decide as H2; try lia; [|done].
              replace (j - s) with (S (j - S s)) by lia. done.
    + simpl. split; [done|]. split.
      * intros e [= <-]. split; [done|]. exists info. split; [left|done].
      * done.
Qed.

End IonBinding.

Section IonIndices.
Context `{B : Backend}.

Lemma append_ion_index_eq (ov : mechanism_overrides.t) shared pos w idx info
    tbl a :
  append_ion_index ov shared pos w (idx, info) (tbl, a) =
  match bound_ion ov shared (arb_ion_info.name info) with
  | None => ((tbl, a), Some missing_ion_state)
  | Some oion =>
      ((alter (arb_ion_state.with_index
                 (Some (Ptr (arena_block a) (base_ptr a)))) idx tbl,
        (append_chunk w
           (Z.of_nat <$> index_into (mechanism_layout.cv pos)
                                    (ion_state.node_index_ oion)) a).2),
       None)
  end.
Proof.
  unfold append_ion_index. rewrite resolved_name_default.
  unfold bound_ion, ptr_by_key. by destruct (_ !! _).
Qed.

Lemma append_ion_indices_spec (ov : mechanism_overrides.t) shared pos w :
  forall (arr : list arb_ion_info.t) s tbl a,
    let r := for_each (append_ion_index ov shared pos w)
                      (zip (seq s (length arr)) arr) (tbl, a) in
    (exists k, k <= length arr /\ advanced w k a r.1.2 /\
               (r.2 = None -> k = length arr)) /\
    length r.1.1 = length tbl /\
    (forall e, r.2 = Some e ->
       e = missing_ion_state /\
       exists info, info ∈ arr /\
         bound_ion ov shared (arb_ion_info.name info) = None) /\
    (r.2 = None ->
       (forall j,
          r.1.1 !! j =
          if decide (s <= j < s + length arr /\ j < length tbl)
          then arb_ion_state.with_index
                 (Some (Ptr (arena_block a) (base_ptr a + (j - s) * w)))
               <$> tbl !! j
          else tbl !! j) /\
       (forall j info oion i x,
          arr !! j = Some info ->
          bound_ion ov shared (arb_ion_info.name info) = Some oion ->
          i < w -> mechanism_layout.cv pos !! i = Some x ->
          base_ptr a + j * w + i < length (cells a) ->
          cells r.1.2 !! (base_ptr a + j * w + i)
          = Some (Some (Z.of_nat (position x (ion_state.node_index_ oion)))))).
Proof.
  induction arr as [|info arr IH]; intros s tbl a r; subst r.
  - simpl. split; [|split; [done|split; [done|]]].
    + exists 0. split; [done|]. split; [apply advanced_refl|done].
    + intros _. split; [|done]. intros j. case_decide; [lia|done].
  - cbn [length seq zip_with]. rewrite for_each_cons, append_ion_index_eq.
    destruct (bound_ion ov shared (arb_ion_info.name info)) as [oion|] eqn:Hb.
    + cbv beta iota zeta. set (src := Z.of_nat <$> index_into _ _).
      set (a1 := (append_chunk _ _ _).2).
      assert (Ha1 : advanced w 1 a a1) by apply append_chunk_advanced.
      set (tbl1 := alter _ s tbl).
      specialize (IH (S s) tbl1 a1). cbv zeta in IH.
      destruct IH as ((k & Hk & Hadv & Hknone) & Hlen & Herr & Hok).
      split; [|split; [|split]].
      * exists (1 + k). split; [simpl; lia|].
        split; [by apply (advanced_trans w 1 k _ _ _ Ha1)|].
        intros Hn. rewrite (Hknone Hn). done.
      * rewrite Hlen. subst tbl1. by rewrite length_alter.
      * intros e He. destruct (Herr e He) as (-> & i2 & Hin & Hn).
        split; [done|]. exists i2. split; [by right|done].
      * intros Hnone. destruct (Hok Hnone) as (Hlook & Hcells).
        destruct Ha1 as [Hb1 Hp1 Hl1 Hc1 _]. split.
        -- intros j. rewrite Hlook. subst tbl1. rewrite length_alter.
           destruct (decide (j = s)) as [->|Hne].
           ++ rewrite decide_False by lia.
              rewrite list_lookup_alter_eq, Nat.sub_diag, Nat.add_0_r.
              case_decide as Hd; [done|].
              rewrite (lookup_ge_None_2 tbl s) by lia. done.
           ++ rewrite list_lookup_alter_ne by done.
              case_decide as H1; case_decide as H2; try lia; [|done].
              rewrite Hb1, Hp1.
              replace (j - s) with (S (j - S s)) by lia.
              do 4 f_equal. lia.
        -- intros [|j] info' oion' i x Harr Hbo Hi Hx Hlt.
           ++ simpl in Harr. injection Harr as <-. rewrite Hb in Hbo.
              injection Hbo as <-.
              rewrite (adv_cells _ _ _ _ Hadv) by lia.
              rewrite Nat.add_0_r in *. subst a1.
              apply append_chunk_cells; [done| |done].
              subst src. rewrite list_lookup_fmap.
              by rewrite (index_into_lookup _ _ _ _ Hx).
           ++ simpl in Harr.
              specialize (Hcells j info' oion' i x Harr Hbo Hi Hx).
              rewrite Hp1, Hl1 in Hcells.
              replace (base_ptr a + S j * w + i)
                with (base_ptr a + 1 * w + j * w + i) by lia.
              apply Hcells. lia.
    + simpl. split; [|split; [done|split; [|done]]].
      * exists 0. split; [lia|]. split; [apply advanced_refl|done].
      * intros e [= <-]. split; [done|]. exists info. split; [left|done].
Qed.

End IonIndices.

Section Indices.
Context `{B : Backend}.

Lemma pack_indices_spec mech (ov : mechanism_overrides.t) shared pos
    (mult : bool) w wp tbl om :
  let ni := arb_mechanism_type.n_ions mech in
  let count := indices_count mech mult wp in
  let r := pack_indices mech ov shared pos mult w wp tbl om in
  (forall op, op ∈ ib_issued r.1 ->
     op = dev_alloc indices_block count \/
     exists i, i < 1 + ni + (if mult then 1 else 0) /\
       (op = dev_copy indices_block (i * w) w \/
        op = dev_fill indices_block (i * w) w)) /\
  (forall e, r.2 = Some e ->
     e = missing_ion_state /\
     exists info, info ∈ arb_mechanism_type.ions mech /\
       bound_ion ov shared (arb_ion_info.name info) = None) /\
  (r.2 = None ->
     ib_node_index r.1 = Some (Ptr indices_block 0) /\
     ib_multiplicity r.1 =
       (if mult then Some (Ptr indices_block ((1 + ni) * w)) else om) /\
     length (ib_indices r.1) = count /\
     length (ib_ion_states_h r.1) = length tbl /\
     (forall j, j < ni -> j < length tbl ->
        ib_ion_states_h r.1 !! j =
        arb_ion_state.with_index (Some (Ptr indices_block ((1 + j) * w)))
        <$> tbl !! j) /\
     (forall i x, i < w -> mechanism_layout.cv pos !! i = Some x ->
        i < count -> ib_indices r.1 !! i = Some (Some x)) /\
     (forall j info oion i x,
        arb_mechanism_type.ions mech !! j = Some info ->
        bound_ion ov shared (arb_ion_info.name info) = Some oion ->
        i < w -> mechanism_layout.cv pos !! i = Some x ->
        (1 + j) * w + i < count ->
        ib_indices r.1 !! ((1 + j) * w + i)
        = Some (Some (Z.of_nat (position x (ion_state.node_index_ oion))))) /\
     (mult = true -> forall i k,
        i < w -> mechanism_layout.multiplicity pos !! i = Some k ->
        (1 + ni) * w + i < count ->
        ib_indices r.1 !! ((1 + ni) * w + i) = Some (Some k))).
Proof.
  intros ni count r. subst r. unfold pack_indices.
  fold (indices_count mech mult wp). fold count.
  set (a0 := Arena indices_block _ 0 _).
  rewrite (surjective_pairing (append_chunk w (mechanism_layout.cv pos) a0)).
  set (a1 := (append_chunk _ _ _).2).
  assert (Ha1 : advanced w 1 a0 a1) by apply append_chunk_advanced.
  assert (Hnode : forall i x, i < w -> mechanism_layout.cv pos !! i = Some x ->
            i < count -> cells a1 !! i = Some (Some x)).
  { intros i x Hi Hx Hc. subst a1.
    apply (append_chunk_cells w (mechanism_layout.cv pos) a0 i x Hi Hx).
    subst a0. simpl. by rewrite length_replicate. }
  assert (Hlen0 : length (cells a0) = count).
  { subst a0. simpl. by rewrite length_replicate. }
  assert (Hiss0 : forall op, op ∈ issued a0 -> op = dev_alloc indices_block count).
  { intros op Hop. subst a0. simpl in Hop. by apply list_elem_of_singleton in Hop. }
  assert (Hout : (append_chunk w (mechanism_layout.cv pos) a0).1
                 = Ptr indices_block 0) by done.
  rewrite Hout.
  assert (Hblk0 : arena_block a0 = indices_block) by done.
  assert (Hbase0 : base_ptr a0 = 0) by done.
  clearbody a0. clearbody a1. clear Hout.
  unfold append_ion_indices, span, arb_mechanism_type.n_ions in *.
  pose proof (append_ion_indices_spec ov shared pos w
                (arb_mechanism_type.ions mech) 0 tbl a1)
    as ((k & Hk & Hadv & Hknone) & Hlent & Herr & Hok).
  cbv zeta in Hk, Hadv, Hknone, Hlent, Herr, Hok.
  destruct (for_each _ _ (tbl, a1)) as [[tbl' a2] oe].
  simpl in Hadv, Hknone, Hlent, Herr, Hok.
  pose proof (advanced_trans w 1 k _ _ _ Ha1 Hadv) as Ha2.
  destruct Ha1 as [Hb1 Hp1 Hl1 Hc1 Hi1].
  assert (Hiss2 : forall op, op ∈ issued a2 ->
     op = dev_alloc indices_block count \/
     exists i, i < 1 + k /\
       (op = dev_copy indices_block (i * w) w \/
        op = dev_fill indices_block (i * w) w)).
  { intros op [Hop|(i & Hi & Hop)]%(adv_issued _ _ _ _ Ha2).
    - left. by apply Hiss0.
    - right. exists i. split; [done|]. by rewrite Hblk0, Hbase0 in Hop. }
  destruct oe as [e|].
  - simpl. split; [|split; [by apply Herr|done]].
    intros op [Hop|(i & Hi & Hop)]%Hiss2; [by left|].
    right. exists i. split; [subst ni; lia|done].
  - specialize (Hknone eq_refl). subst k.
    destruct (Hok eq_refl) as (Hlook & Hcells). clear Hok.
    assert (Hbase2 : base_ptr a2 = (1 + ni) * w).
    { rewrite (adv_base _ _ _ _ Ha2), Hbase0. subst ni. lia. }
    assert (Hblk2 : arena_block a2 = indices_block).
    { by rewrite (adv_block _ _ _ _ Ha2). }
    assert (Hlen2 : length (cells a2) = count).
    { by rewrite (adv_length _ _ _ _ Ha2). }
    assert (Htbl : forall j, j < ni -> j < length tbl ->
       tbl' !! j = arb_ion_state.with_index
                     (Some (Ptr indices_block ((1 + j) * w))) <$> tbl !! j).
    { intros j Hj Hjt. rewrite Hlook. rewrite decide_True by (subst ni; lia).
      rewrite Hb1, Hp1, Hblk0, Hbase0, Nat.sub_0_r. do 4 f_equal. lia. }
    assert (Hnode2 : forall i x, i < w ->
       mechanism_layout.cv pos !! i = Some x -> i < count ->
       cells a2 !! i = Some (Some x)).
    { intros i x Hi Hx Hc. rewrite (adv_cells _ _ _ _ Hadv) by lia. by apply Hnode. }
    assert (Hion2 : forall j info oion i x,
        arb_mechanism_type.ions mech !! j = Some info ->
        bound_ion ov shared (arb_ion_info.name info) = Some oion ->
        i < w -> mechanism_layout.cv pos !! i = Some x ->
        (1 + j) * w + i < count ->
        cells a2 !! ((1 + j) * w + i)
        = Some (Some (Z.of_nat (position x (ion_state.node_index_ oion))))).
    { intros j info oion i x Hj Hbo Hi Hx Hc.
      specialize (Hcells j info oion i x Hj Hbo Hi Hx).
      rewrite Hp1, Hbase0, Hl1, Hlen0 in Hcells.
      replace ((1 + j) * w + i) with (0 + 1 * w + j * w + i) by lia.
      apply Hcells. lia. }
    destruct mult.
    + rewrite (surjective_pairing (append_chunk w _ a2)).
      set (a3 := (append_chunk _ _ _).2).
      assert (Ha3 : advanced w 1 a2 a3) by apply append_chunk_advanced.
      assert (Hmul : forall i k, i < w ->
                mechanism_layout.multiplicity pos !! i = Some k ->
                (1 + ni) * w + i < count ->
                cells a3 !! ((1 + ni) * w + i) = Some (Some k)).
      { intros i k Hi Hk' Hc. subst a3. rewrite <- Hbase2.
        apply append_chunk_cells; [done|done|]. rewrite Hbase2, Hlen2. done. }
      clearbody a3. simpl. split; [|split; [done|]].
      * intros op [Hop|(i & Hi & Hop)]%(adv_issued _ _ _ _ Ha3).
        -- apply Hiss2 in Hop as [?|(i & Hi & Hop)]; [by left|].
           right. exists i. split; [subst ni; lia|done].
        -- right. exists (1 + ni). split; [lia|].
           rewrite Hblk2, Hbase2 in Hop.
           assert (i = 0) as -> by lia. by rewrite Nat.add_0_r in Hop.
      * intros _. repeat split; try done.
        -- by rewrite Hblk2, Hbase2.
        -- by rewrite (adv_length _ _ _ _ Ha3).
        -- intros i x Hi Hx Hc.
           rewrite (adv_cells _ _ _ _ Ha3) by (rewrite Hbase2; lia).
           by apply Hnode2.
        -- intros j info oion i x Hj Hbo Hi Hx Hc.
           rewrite (adv_cells _ _ _ _ Ha3).
           ++ by apply (Hion2 j info oion).
           ++ rewrite Hbase2. apply lookup_lt_Some in Hj.
              subst ni. nia.
    + simpl. split; [|split; [done|]].
      * intros op [Hop|(i & Hi & Hop)]%Hiss2; [by left|].
        right. exists i. split; [lia|done].
      * intros _. repeat split; try done.
Qed.

End Indices.

Section IonViews.
Context `{B : Backend}.

Lemma set_ion_views_outcome mech (ov : mechanism_overrides.t) shared :
  let r := set_ion_views mech ov shared
             (replicate (arb_mechanism_type.n_ions mech) arb_ion_state.unset) in
  length r.1 = arb_mechanism_type.n_ions mech /\
  (forall e, r.2 = Some e ->
     e = missing_ion_state /\
     exists info, info ∈ arb_mechanism_type.ions mech /\
       bound_ion ov shared (arb_ion_info.name info) = None) /\
  (r.2 = None ->
     all_ions_bound mech ov shared /\
     forall j info, arb_mechanism_type.ions mech !! j = Some info ->
       exists oion,
         bound_ion ov shared (arb_ion_info.name info) = Some oion /\
         r.1 !! j = Some (ion_views oion)).
Proof.
  intros r. subst r. unfold set_ion_views, span, arb_mechanism_type.n_ions.
  pose proof (set_ion_views_spec ov shared (arb_mechanism_type.ions mech) 0
                (replicate (length (arb_mechanism_type.ions mech))
                           arb_ion_state.unset))
    as (Hlen & Herr & Hok).
  cbv zeta in Hlen, Herr, Hok.
  split; [by rewrite Hlen, length_replicate|]. split; [done|].
  intros Hnone. destruct (Hok Hnone) as (Hall & Hlook). split; [done|].
  intros j info Hj. rewrite Hlook.
  pose proof (lookup_lt_Some _ _ _ Hj) as Hlt.
  rewrite decide_True by (rewrite length_replicate; lia).
  rewrite Nat.sub_0_r, Hj. simpl.
  destruct (Hall info) as [oion Ho]; [by eapply list_elem_of_lookup_2|].
  exists oion. by rewrite Ho.
Qed.

Lemma set_ion_views_bound mech (ov : mechanism_overrides.t) shared tbl :
  all_ions_bound mech ov shared ->
  (set_ion_views mech ov shared tbl).2 = None.
Proof.
  intros Hall. unfold set_ion_views.
  apply for_each_no_throw. intros [idx info] s0 Hin.
  rewrite set_ion_view_eq.
  destruct (Hall info) as [oion ->]; [|done].
  unfold span in Hin. apply list_elem_of_lookup_1 in Hin as [i Hi].
  apply lookup_zip_with_Some in Hi as (a & b & [= <- <-] & _ & Hb).
  by eapply list_elem_of_lookup_2.
Qed.

End IonViews.

Section Layout.
Context `{B : Backend}.

Lemma instantiate_returned this id shared ov pos m tr :
  instantiate this id shared ov pos = (returned m, tr) ->
  mechanism_layout.cv pos ≠ [] ->
  laid_out this shared ov pos m.
Proof.
  unfold instantiate. cbv zeta beta.
  set (mech := mechanism.mech_ this).
  set (w := length (mechanism_layout.cv pos)).
  fold alignment. set (wp := round_up w alignment).
  set (mult := negb (bool_decide (mechanism_layout.multiplicity pos = []))).
  intros Hinst Hcv.
  pose proof (set_ion_views_outcome mech ov shared) as (Hlt & _ & Hok).
  cbv zeta in Hlt, Hok.
  destruct (set_ion_views mech ov shared _) as [tbl [e|]]; [done|].
  cbn [fst snd] in Hlt, Hok. destruct (Hok eq_refl) as (Hall & Htbl). clear Hok.
  destruct (Nat.eqb_spec w 0) as [Hw0|Hw0].
  { subst w. by destruct (mechanism_layout.cv pos). }
  match type of Hinst with
  | context [pack_values ?a ?b ?c ?d ?e ?f ?g ?h ?i] =>
      pose proof (pack_values_spec a b c d e f g h i) as Hv
  end.
  rewrite !length_replicate in Hv. specialize (Hv eq_refl eq_refl).
  cbv zeta in Hv.
  fold (resolved_globals mech ov) in Hv.
  destruct (pack_values _ _ _ _ _ _ _ _ _) as [vb [e|]]; [done|].
  cbn [fst snd] in Hv.
  destruct Hv as (Hg2 & Hgh & Hwt & Hpl & Hpar & Hsl & Hsta & Hdl & Hgp & _).
  match type of Hinst with
  | context [pack_indices ?a ?b ?c ?d ?e ?f ?g ?h ?i] =>
      pose proof (pack_indices_spec a b c d e f g h i) as Hi
  end.
  cbv zeta in Hi.
  destruct (pack_indices _ _ _ _ _ _ _ _ _) as [ib [e|]]; [done|].
  cbn [fst snd] in Hi. destruct Hi as (_ & _ & Hi). specialize (Hi eq_refl).
  destruct Hi as (Hni & Hmp & Hil & Htl & Hions & Hnc & Hic & Hmc).
  injection Hinst as <- <-.
  subst mech. cbn [fst snd] in *.
  split; cbn [mechanism.mech_ mechanism.iface_ mechanism.width_
              mechanism.width_padded_ mechanism.ppack_ ppack.width
              mechanism.mult_in_place_ mechanism.globals_h_ ppack.weight
              mechanism.parameters_h_ mechanism.state_vars_h_ ppack.globals
              mechanism.data_ ppack.node_index mechanism.ion_states_h_
              ppack.multiplicity mechanism.indices_ mechanism.parameters_d_
              mechanism.state_vars_d_ mechanism.ion_states_d_ upload fst snd];
    try done.
  - rewrite (surjective_pairing (resolved_globals _ _)). by rewrite <- Hgh, <- Hg2.
  - by rewrite Hgp, <- Hg2.
  - by rewrite Htl.
  - intros j info Hj. destruct (Htbl j info Hj) as (oion & Hbo & Hlook).
    exists oion. split; [done|].
    pose proof (lookup_lt_Some _ _ _ Hj) as Hlt'.
    unfold arb_mechanism_type.n_ions in Hions, Hlt.
    rewrite Hions by lia.
    by rewrite Hlook.
  - intros Hm. rewrite Hmp. fold mult. by rewrite Hm.
  - intros i x Hx Hlen. apply Hnc; [by apply lookup_lt_Some in Hx|done|by rewrite <- Hil].
  - intros j info oion i x Hj Hbo Hx Hlen.
    apply (Hic j info oion); try done; [by apply lookup_lt_Some in Hx|].
    by rewrite Hil in Hlen.
  - intros i k Hm Hi Hk Hlen. apply Hmc; try done. by rewrite Hil in Hlen.
Qed.

End Layout.

(** Bring the specification of the value block, or of the index block, of
    the call of [instantiate] under analysis into the context. *)
Ltac value_block_spec H :=
  match goal with
  | |- context [pack_values ?a ?b ?c ?d ?e ?f ?g ?h ?i] =>
      pose proof (pack_values_spec a b c d e f g h i) as H;
      rewrite !length_replicate in H; specialize (H eq_refl eq_refl);
      cbv zeta in H
  end.

Ltac index_block_spec H :=
  match goal with
  | |- context [pack_indices ?a ?b ?c ?d ?e ?f ?g ?h ?i] =>
      pose proof (pack_indices_spec a b c d e f g h i) as H; cbv zeta in H
  end.

Section Overrides.
Context `{B : Backend}.

Lemma scan_globals_thrown k v globals found gh gh' e :
  scan_globals k v globals found gh = (gh', Some e) -> e = no_such_global k.
Proof.
  revert gh. induction globals as [|[idx g] rest IH]; intros gh; simpl; [done|].
  destruct (String.eqb _ _); [done|].
  destruct found; simpl; [apply IH|]. by intros [= _ <-].
Qed.

Lemma apply_global_overrides_thrown mech (ov : mechanism_overrides.t) gh e :
  (apply_global_overrides mech ov gh).2 = Some e -> exists k, e = no_such_global k.
Proof.
  unfold apply_global_overrides. intros He.
  destruct (for_each _ _ gh) as [gh' oe] eqn:Hf. simpl in He. subst oe.
  apply for_each_thrown in Hf as ([k v] & s0 & _ & Hb).
  exists k. destruct (scan_globals _ _ _ _ _) as [g1 o1] eqn:Hs. simpl in Hb.
  subst o1. by eapply scan_globals_thrown.
Qed.

Lemma apply_global_overrides_no_globals mech (ov : mechanism_overrides.t) gh :
  arb_mechanism_type.globals mech = [] ->
  apply_global_overrides mech ov gh = (gh, None).
Proof.
  intros Hg. unfold apply_global_overrides, span, arb_mechanism_type.n_globals.
  rewrite Hg. simpl.
  induction (map_to_list _) as [|[k v] l IH]; simpl; done.
Qed.

End Overrides.

Section Outcome.
Context `{B : Backend}.

Lemma instantiate_unbound this id shared (ov : mechanism_overrides.t) pos info :
  info ∈ arb_mechanism_type.ions (mechanism.mech_ this) ->
  bound_ion ov shared (arb_ion_info.name info) = None ->
  instantiate this id shared ov pos = (thrown missing_ion_state, []).
Proof.
  intros Hin Hnone. unfold instantiate. cbv zeta beta.
  pose proof (set_ion_views_outcome (mechanism.mech_ this) ov shared)
    as (_ & Herr & Hok).
  cbv zeta in Herr, Hok.
  destruct (set_ion_views _ ov shared _) as [tbl [e|]].
  - by destruct (Herr e eq_refl) as (-> & _).
  - destruct (Hok eq_refl) as (Hall & _).
    destruct (Hall info Hin) as [oion Ho]. congruence.
Qed.

(** With every ion bound, the only way [instantiate] can end on a non-empty
    placement is decided by the override loop. *)
Lemma instantiate_bound this id shared (ov : mechanism_overrides.t) pos :
  all_ions_bound (mechanism.mech_ this) ov shared ->
  mechanism_layout.cv pos ≠ [] ->
  match (resolved_globals (mechanism.mech_ this) ov).2 with
  | Some e => (instantiate this id shared ov pos).1 = thrown e
  | None => exists m, (instantiate this id shared ov pos).1 = returned m
  end.
Proof.
  intros Hall Hcv. unfold instantiate. cbv zeta beta.
  pose proof (set_ion_views_bound (mechanism.mech_ this) ov shared
     (replicate (arb_mechanism_type.n_ions (mechanism.mech_ this))
                arb_ion_state.unset) Hall) as Hs.
  destruct (set_ion_views _ ov shared _) as [tbl oe]. simpl in Hs. subst oe.
  destruct (Nat.eqb_spec (length (mechanism_layout.cv pos)) 0) as [Hw0|Hw0].
  { by destruct (mechanism_layout.cv pos). }
  value_block_spec Hv. destruct Hv as (Hv & _).
  fold (resolved_globals (mechanism.mech_ this) ov) in Hv.
  destruct (pack_values _ _ _ _ _ _ _ _ _) as [vb oe]. cbn [snd] in Hv.
  rewrite <- Hv. destruct oe as [e|]; [done|].
  index_block_spec Hi. destruct Hi as (_ & Herr & _).
  destruct (pack_indices _ _ _ _ _ _ _ _ _) as [ib [e|]]; [|by eexists].
  destruct (Herr e eq_refl) as (_ & info & Hin & Hnone).
  destruct (Hall info Hin) as [oion Ho]. congruence.
Qed.

Lemma instantiate_thrown_missing this id shared (ov : mechanism_overrides.t)
    pos :
  (instantiate this id shared ov pos).1 = thrown missing_ion_state ->
  exists info, info ∈ arb_mechanism_type.ions (mechanism.mech_ this) /\
    bound_ion ov shared (arb_ion_info.name info) = None.
Proof.
  unfold instantiate. cbv zeta beta.
  pose proof (set_ion_views_outcome (mechanism.mech_ this) ov shared)
    as (_ & Herr & _).
  cbv zeta in Herr.
  destruct (set_ion_views _ ov shared _) as [tbl [e|]].
  { intros _. by destruct (Herr e eq_refl) as (_ & ?). }
  destruct (length (mechanism_layout.cv pos) =? 0); [done|].
  value_block_spec Hv. destruct Hv as (Hv & _).
  destruct (pack_values _ _ _ _ _ _ _ _ _) as [vb [e|]].
  { cbn [fst snd] in *. intros [= ->]. symmetry in Hv.
    apply apply_global_overrides_thrown in Hv as [k Hk]. done. }
  index_block_spec Hi. destruct Hi as (_ & Herr2 & _).
  destruct (pack_indices _ _ _ _ _ _ _ _ _) as [ib [e|]]; [|done].
  intros _. by destruct (Herr2 e eq_refl) as (_ & ?).
Qed.

End Outcome.

Section NoSites.
Context `{B : Backend}.

Lemma round_up_0 b : round_up 0 b = 0.
Proof. unfold round_up. by rewrite Nat.Div0.mod_0_l. Qed.

Lemma instantiate_no_sites_eq this id shared (ov : mechanism_overrides.t) pos :
  mechanism_layout.cv pos = [] ->
  all_ions_bound (mechanism.mech_ this) ov shared ->
  instantiate this id shared ov pos
  = (returned (no_sites_instance this id shared ov pos), []).
Proof.
  intros Hcv Hall. unfold instantiate, no_sites_instance. cbv zeta beta.
  rewrite Hcv. cbn [length Nat.eqb]. rewrite round_up_0.
  pose proof (set_ion_views_outcome (mechanism.mech_ this) ov shared)
    as (Hlen & Herr & Hok).
  cbv zeta in Hlen, Herr, Hok.
  pose proof (set_ion_views_bound (mechanism.mech_ this) ov shared
     (replicate (arb_mechanism_type.n_ions (mechanism.mech_ this))
                arb_ion_state.unset) Hall) as Hs.
  destruct (set_ion_views _ ov shared _) as [tbl oe]. cbn [fst snd] in *.
  subst oe. destruct (Hok eq_refl) as (_ & Hlook).
  do 3 f_equal.
  apply list_eq. intros j. rewrite list_lookup_fmap.
  destruct (arb_mechanism_type.ions (mechanism.mech_ this) !! j) as [info|] eqn:Hj.
  - destruct (Hlook j info Hj) as (oion & Ho & ->). simpl. by rewrite Ho.
  - simpl. apply lookup_ge_None. apply lookup_ge_None in Hj.
    unfold arb_mechanism_type.n_ions in Hlen. lia.
Qed.

End NoSites.

Section Trace.
Context `{B : Backend}.

Lemma within_upload {T} b (tbl : list T) ds is_ op :
  b ≠ data_block -> b ≠ indices_block ->
  op ∈ (upload b tbl).2 -> within ds is_ op.
Proof.
  intros H1 H2. unfold upload. cbn [snd].
  intros [->|[->|[]%elem_of_nil]%elem_of_cons]%elem_of_cons; simpl; done.
Qed.

Lemma pack_values_within mech ov pos w wp ph sh gh og is_ op :
  length ph = arb_mechanism_type.n_parameters mech ->
  length sh = arb_mechanism_type.n_state_vars mech ->
  w <= wp ->
  op ∈ vb_issued (pack_values mech ov pos w wp ph sh gh og).1 ->
  within (data_count mech wp) is_ op.
Proof.
  intros Hph Hsh Hw Hop.
  pose proof (pack_values_spec mech ov pos w wp ph sh gh og Hph Hsh) as Hv.
  cbv zeta in Hv. destruct Hv as (_ & _ & _ & _ & _ & _ & _ & _ & _ & Hops).
  apply Hops in Hop as [->|[(i & Hi & [->| ->])| ->]]; simpl;
    (split; [intros _|done]); try done; unfold data_count; nia.
Qed.

Lemma pack_indices_within mech (ov : mechanism_overrides.t) shared pos mult
    w wp tbl om ds op :
  w <= wp ->
  op ∈ ib_issued (pack_indices mech ov shared pos mult w wp tbl om).1 ->
  within ds (indices_count mech mult wp) op.
Proof.
  intros Hw Hop.
  pose proof (pack_indices_spec mech ov shared pos mult w wp tbl om) as Hi.
  cbv zeta in Hi. destruct Hi as (Hops & _).
  apply Hops in Hop as [->|(i & Hi & [->| ->])]; simpl;
    (split; [done|intros _]); try done; unfold indices_count;
    destruct mult; nia.
Qed.

End Trace.

Section Scaling.
Context `{B : Backend}.

Lemma multiply_in_place_length s p n indices data :
  length (multiply_in_place s p n indices data) = length data.
Proof.
  unfold multiply_in_place.
  destruct s as [[[] s0]|]; try done. destruct p as [[[] p0]|]; try done.
  induction n as [|n IH]; [done|].
  rewrite seq_S, foldl_app. simpl.
  destruct (_ !! (s0 + n)) as [[x|]|]; try done.
  destruct (indices !! (p0 + n)) as [[m|]|]; try done.
  by rewrite length_insert.
Qed.

Lemma multiply_in_place_lookup s0 p0 n indices data j :
  multiply_in_place (Some (Ptr data_block s0)) (Some (Ptr indices_block p0))
                    n indices data !! j
  = if decide (s0 <= j < s0 + n)
    then scaled_cell indices (p0 + (j - s0)) <$> data !! j
    else data !! j.
Proof.
  unfold multiply_in_place. revert j.
  induction n as [|n IH]; intros j.
  - simpl. case_decide; [lia|done].
  - rewrite seq_S, foldl_app. cbn [foldl Nat.add].
    set (d := foldl _ data (seq 0 n)) in *.
    assert (Hd : d !! (s0 + n) = data !! (s0 + n)).
    { rewrite IH. case_decide; [lia|done]. }
    destruct (decide (j = s0 + n)) as [->|Hne].
    + rewrite decide_True by lia.
      replace (s0 + n - s0) with n by lia.
      rewrite Hd. unfold scaled_cell.
      destruct (data !! (s0 + n)) as [[x|]|] eqn:Hx; simpl.
      * destruct (indices !! (p0 + n)) as [[m|]|]; simpl.
        -- rewrite list_lookup_insert_eq; [done|].
           apply lookup_lt_Some in Hd. done.
        -- by rewrite Hd.
        -- by rewrite Hd.
      * by rewrite Hd.
      * by rewrite Hd.
    + assert (Hj : (match d !! (s0 + n) with
                    | Some (Some x) =>
                        match indices !! (p0 + n) with
                        | Some (Some m) => <[s0 + n := Some (scale x m)]> d
                        | _ => d
                        end
                    | _ => d
                    end) !! j = d !! j).
      { destruct (d !! (s0 + n)) as [[x|]|]; try done.
        destruct (indices !! (p0 + n)) as [[m|]|]; try done.
        by rewrite list_lookup_insert_ne. }
      rewrite Hj, IH.
      case_decide; case_decide; try lia; done.
Qed.

Lemma multiply_in_place_no_sites s p indices data :
  multiply_in_place s p 0 indices data = data.
Proof.
  unfold multiply_in_place.
  destruct s as [[[] s0]|]; try done. by destruct p as [[[] p0]|].
Qed.

Lemma scale_state_vars_eq this data :
  scale_state_vars this data
  = (scaled_data this data
       (arb_mechanism_type.n_state_vars (mechanism.mech_ this)),
     scaling_launches this).
Proof.
  unfold scale_state_vars, scaled_data, scaling_launches.
  induction (arb_mechanism_type.n_state_vars (mechanism.mech_ this))
    as [|k IH]; [done|].
  rewrite seq_S, !foldl_app, fmap_app, IH. done.
Qed.

Lemma scaled_data_length this data k :
  length (scaled_data this data k) = length data.
Proof.
  unfold scaled_data. induction k as [|k IH]; [done|].
  rewrite seq_S, foldl_app. simpl. by rewrite multiply_in_place_length.
Qed.

Lemma scaled_data_no_sites this data k :
  ppack.width (mechanism.ppack_ this) = 0 -> scaled_data this data k = data.
Proof.
  intros Hw. unfold scaled_data. induction k as [|k IH]; [done|].
  rewrite seq_S, foldl_app. simpl. rewrite IH, Hw.
  apply multiply_in_place_no_sites.
Qed.

(** On a laid-out instance with multiplicities, the first [k] state-variable
    chunks are scaled cell by cell and every other cell is left alone. *)
Lemma scaled_data_lookup this shared ov pos m data :
  laid_out this shared ov pos m ->
  mechanism.mult_in_place_ m = true ->
  let w := length (mechanism_layout.cv pos) in
  let np := arb_mechanism_type.n_parameters (mechanism.mech_ this) in
  let ni := arb_mechanism_type.n_ions (mechanism.mech_ this) in
  forall k, k <= arb_mechanism_type.n_state_vars (mechanism.mech_ this) ->
    (forall j, j < (1 + np) * w \/ (1 + np + k) * w <= j ->
       scaled_data m data k !! j = data !! j) /\
    (forall idx i, idx < k -> i < w ->
       scaled_data m data k !! ((1 + np + idx) * w + i)
       = scaled_cell (mechanism.indices_ m) ((1 + ni) * w + i)
         <$> data !! ((1 + np + idx) * w + i)).
Proof.
  intros Hlo Hmult w np ni k. unfold scaled_data.
  rewrite (lo_multiplicity _ _ _ _ _ Hlo Hmult), (lo_ppack_width _ _ _ _ _ Hlo).
  fold w ni.
  induction k as [|k IH]; intros Hk.
  - split; [done|]. intros idx i Hidx. lia.
  - destruct IH as (IHout & IHin); [lia|].
    rewrite seq_S, foldl_app. cbn [foldl]. change (0 + k) with k.
    rewrite (lo_state_vars _ _ _ _ _ Hlo k) by lia.
    cbn [mjoin option_join mbind option_bind]. fold w np. split.
    + intros j Hj. rewrite multiply_in_place_lookup.
      rewrite decide_False by lia. apply IHout. lia.
    + intros idx i Hidx Hi. rewrite multiply_in_place_lookup.
      destruct (decide (idx = k)) as [->|Hne].
      * rewrite decide_True by lia.
        replace ((1 + np + k) * w + i - (1 + np + k) * w) with i by lia.
        rewrite IHout; [done|]. right. lia.
      * rewrite decide_False by nia. apply IHin; [lia|done].
Qed.

End Scaling.

Section InstantiateProperties.
Context `{BE : Backend}.

Lemma instantiate_returned_bound this id shared (ov : mechanism_overrides.t)
    pos m tr :
  instantiate this id shared ov pos = (returned m, tr) ->
  all_ions_bound (mechanism.mech_ this) ov shared.
Proof.
  unfold instantiate. cbv zeta beta.
  pose proof (set_ion_views_outcome (mechanism.mech_ this) ov shared)
    as (_ & _ & Hok).
  cbv zeta in Hok.
  destruct (set_ion_views _ ov shared _) as [tbl [e|]]; [done|].
  intros _. by destruct (Hok eq_refl).
Qed.

Lemma instantiate_thrown_global this id shared (ov : mechanism_overrides.t)
    pos k :
  (instantiate this id shared ov pos).1 = thrown (no_such_global k) ->
  (resolved_globals (mechanism.mech_ this) ov).2 = Some (no_such_global k).
Proof.
  unfold instantiate. cbv zeta beta.
  pose proof (set_ion_views_outcome (mechanism.mech_ this) ov shared)
    as (_ & Herr & _).
  cbv zeta in Herr.
  destruct (set_ion_views _ ov shared _) as [tbl [e|]].
  { intros [= ->]. by destruct (Herr _ eq_refl). }
  destruct (length (mechanism_layout.cv pos) =? 0); [done|].
  value_block_spec Hv. destruct Hv as (Hv & _).
  fold (resolved_globals (mechanism.mech_ this) ov) in Hv.
  destruct (pack_values _ _ _ _ _ _ _ _ _) as [vb [e|]].
  { cbn [fst snd] in *. intros [= ->]. done. }
  index_block_spec Hi. destruct Hi as (_ & Herr2 & _).
  destruct (pack_indices _ _ _ _ _ _ _ _ _) as [ib [e|]]; [|done].
  cbn [fst snd]. intros [= ->]. by destruct (Herr2 _ eq_refl).
Qed.

(** C6. For every declared ion, [instantiate] resolves the concrete name by
    the rebind table (mapped name when the declared name is present, the
    declared name otherwise) and ends in the missing-ion internal error if
    and only if some declared ion's resolved name is absent from the shared
    state's ion map. *)
Theorem instantiate_missing_ion_iff this id shared
    (overrides : mechanism_overrides.t) pos_data :
  (instantiate this id shared overrides pos_data).1 = thrown missing_ion_state
  <->
  exists info,
    info ∈ arb_mechanism_type.ions (mechanism.mech_ this) /\
    shared_state.ion_data shared
      !! resolved_name overrides (arb_ion_info.name info) = None.
Proof.
  split.
  - apply instantiate_thrown_missing.
  - intros (info & Hin & Hnone).
    by rewrite (instantiate_unbound this id shared overrides pos_data info).
Qed.

(** C10. With a schema that declares no global, [instantiate] never raises
    the unknown-override error, whatever the override set holds; when every
    ion is bound it returns, and the instance reports no global. *)
Theorem no_globals_overrides_ignored this id shared
    (overrides : mechanism_overrides.t) pos_data :
  arb_mechanism_type.n_globals (mechanism.mech_ this) = 0 ->
  (forall k,
     (instantiate this id shared overrides pos_data).1
     ≠ thrown (no_such_global k)) /\
  (all_ions_bound (mechanism.mech_ this) overrides shared ->
   exists m,
     (instantiate this id shared overrides pos_data).1 = returned m /\
     global_table m = []).
Proof.
  intros Hg%nil_length_inv.
  assert (Hres : (resolved_globals (mechanism.mech_ this) overrides).2 = None).
  { unfold resolved_globals. by rewrite apply_global_overrides_no_globals. }
  split.
  - intros k Hk%instantiate_thrown_global. congruence.
  - intros Hall.
    destruct (decide (mechanism_layout.cv pos_data = [])) as [Hcv|Hcv].
    + rewrite (instantiate_no_sites_eq _ _ _ _ _ Hcv Hall).
      eexists. split; [done|].
      unfold global_table, no_sites_instance.
      cbn [mechanism.mech_]. unfold span, arb_mechanism_type.n_globals.
      by rewrite Hg.
    + pose proof (instantiate_bound this id shared overrides pos_data Hall Hcv)
        as Hb.
      rewrite Hres in Hb. destruct Hb as [m Hm]. exists m. split; [done|].
      assert (Hlo : laid_out this shared overrides pos_data m).
      { eapply instantiate_returned; [|done].
        rewrite (surjective_pairing (instantiate _ _ _ _ _)), Hm. done. }
      unfold global_table, span, arb_mechanism_type.n_globals.
      by rewrite (lo_mech _ _ _ _ _ Hlo), Hg.
Qed.

(** C3. For needles [A] that all occur in the haystack [B], the index join
    yields a sequence of the length of [A] whose [k]-th entry is a position
    of [B] holding [A[k]]; nothing is asked of the order of [A] or of
    repetitions in it. *)
Theorem index_into_joins (A B : list arb_index_type) :
  (forall a, a ∈ A -> a ∈ B) ->
  length (index_into A B) = length A /\
  forall k a, A !! k = Some a ->
    exists c, index_into A B !! k = Some c /\ B !! c = Some a.
Proof.
  intros Hsub. split; [apply length_index_into|].
  intros k a Hk. exists (position a B). split.
  - by apply index_into_lookup.
  - apply position_lookup, Hsub. by eapply list_elem_of_lookup_2.
Qed.

(** C8. Every device write that [instantiate] issues on the value buffer
    ends within [(n_state_vars + n_parameters + 1) * width_padded + n_globals]
    elements, the size it allocates that buffer with, and every write on the
    index buffer within
    [((multiplicity present ? 1 : 0) + n_ions + 1) * width_padded], whether
    the call returns or throws. *)
Theorem instantiate_writes_in_bounds this id shared
    (overrides : mechanism_overrides.t) pos_data :
  0 < alignment ->
  forall op, op ∈ (instantiate this id shared overrides pos_data).2 ->
    within
      (data_count (mechanism.mech_ this)
         (round_up (length (mechanism_layout.cv pos_data)) alignment))
      (indices_count (mechanism.mech_ this)
         (negb (bool_decide (mechanism_layout.multiplicity pos_data = [])))
         (round_up (length (mechanism_layout.cv pos_data)) alignment))
      op.
Proof.
  intros Hal op.
  pose proof (round_up_ge (length (mechanism_layout.cv pos_data)) _ Hal) as Hw.
  unfold instantiate. cbv zeta beta. fold alignment.
  destruct (set_ion_views _ overrides shared _) as [tbl [e|]];
    [by intros []%elem_of_nil|].
  destruct (length (mechanism_layout.cv pos_data) =? 0);
    [by intros []%elem_of_nil|].
  match goal with
  | |- context [pack_values ?a ?b ?c ?d ?e ?f ?g ?h ?i] =>
      pose proof (fun is_ op => pack_values_within a b c d e f g h i is_ op) as Hv
  end.
  rewrite !length_replicate in Hv.
  specialize (fun is_ op => Hv is_ op eq_refl eq_refl Hw).
  destruct (pack_values _ _ _ _ _ _ _ _ _) as [vb [e|]]; cbn [fst snd] in *.
  { apply Hv. }
  match goal with
  | |- context [pack_indices ?a ?b ?c ?d ?e ?f ?g ?h ?i] =>
      pose proof (fun ds op => pack_indices_within a b c d e f g h i ds op Hw) as Hi
  end.
  destruct (pack_indices _ _ _ _ _ _ _ _ _) as [ib [e|]]; cbn [fst snd] in *.
  { intros [Hop|Hop]%elem_of_app; [by apply Hv|by apply Hi]. }
  intros [Hop|[Hop|[Hop|[Hop|Hop]%elem_of_app]%elem_of_app]%elem_of_app]%elem_of_app.
  - by apply Hv.
  - by apply Hi.
  - by eapply within_upload; [| |exact Hop].
  - by eapply within_upload; [| |exact Hop].
  - by eapply within_upload; [| |exact Hop].
Qed.

End InstantiateProperties.

Section InitializeEquation.
Context `{BE : Backend}.

(** [set_time_ptr] touches nothing but [ppack_.vec_t]. *)
Lemma set_time_ptr_frame (m : mechanism.t) shared :
  let m1 := set_time_ptr m shared in
  mechanism.mech_ m1 = mechanism.mech_ m /\
  mechanism.iface_ m1 = mechanism.iface_ m /\
  mechanism.mult_in_place_ m1 = mechanism.mult_in_place_ m /\
  mechanism.state_vars_h_ m1 = mechanism.state_vars_h_ m /\
  mechanism.indices_ m1 = mechanism.indices_ m /\
  mechanism.data_ m1 = mechanism.data_ m /\
  ppack.multiplicity (mechanism.ppack_ m1)
  = ppack.multiplicity (mechanism.ppack_ m) /\
  ppack.width (mechanism.ppack_ m1) = ppack.width (mechanism.ppack_ m).
Proof.
  unfold set_time_ptr. by destruct (mechanism.vec_t_ptr_ m) as [[]|].
Qed.

Lemma scaled_data_set_time_ptr (m : mechanism.t) shared data k :
  scaled_data (set_time_ptr m shared) data k = scaled_data m data k.
Proof.
  unfold scaled_data.
  destruct (set_time_ptr_frame m shared) as (_ & _ & _ & -> & -> & _ & -> & ->).
  done.
Qed.

Lemma scaling_launches_set_time_ptr (m : mechanism.t) shared :
  scaling_launches (set_time_ptr m shared) = scaling_launches m.
Proof.
  unfold scaling_launches.
  destruct (set_time_ptr_frame m shared) as (-> & _ & _ & -> & _ & _ & -> & ->).
  done.
Qed.

(** [initialize] in one equation: the clock refresh, the kernel, and the
    scaling loop under the flag [mult_in_place_]. *)
Lemma initialize_eq (m : mechanism.t) shared :
  initialize m shared =
  if mechanism.mult_in_place_ m
  then (mechanism.with_data
          (scaled_data m (post_init m shared)
             (arb_mechanism_type.n_state_vars (mechanism.mech_ m)))
          (set_time_ptr m shared),
        launch_init_mechanism :: scaling_launches m)
  else (mechanism.with_data (post_init m shared) (set_time_ptr m shared),
        [launch_init_mechanism]).
Proof.
  unfold initialize. cbv zeta. rewrite scale_state_vars_eq.
  rewrite scaled_data_set_time_ptr, scaling_launches_set_time_ptr.
  destruct (set_time_ptr_frame m shared) as (-> & _ & -> & _).
  fold (post_init m shared).
  by destruct (mechanism.mult_in_place_ m).
Qed.

End InitializeEquation.

Section InitializeProperties.
Context `{BE : Backend}.

Lemma with_data_data (m : mechanism.t) d :
  mechanism.data_ (mechanism.with_data d m) = d.
Proof. done. Qed.

Lemma mult_in_place_of_layout (pos : mechanism_layout.t) :
  negb (bool_decide (mechanism_layout.multiplicity pos = []))
  = if decide (mechanism_layout.multiplicity pos = []) then false else true.
Proof. by case_bool_decide; case_decide. Qed.

(** Either way [instantiate] returns, it leaves the flag and the widths
    behind as follows. *)
Lemma instantiate_returned_flag this id shared (ov : mechanism_overrides.t)
    pos m tr :
  instantiate this id shared ov pos = (returned m, tr) ->
  mechanism.mult_in_place_ m
  = negb (bool_decide (mechanism_layout.multiplicity pos = [])) /\
  mechanism.width_ m = length (mechanism_layout.cv pos) /\
  ppack.width (mechanism.ppack_ m) = length (mechanism_layout.cv pos) /\
  mechanism.mech_ m = mechanism.mech_ this.
Proof.
  intros Hinst.
  destruct (decide (mechanism_layout.cv pos = [])) as [Hcv|Hcv].
  - pose proof (instantiate_returned_bound _ _ _ _ _ _ _ Hinst) as Hall.
    rewrite (instantiate_no_sites_eq _ _ _ _ _ Hcv Hall) in Hinst.
    injection Hinst as <- <-. by rewrite Hcv.
  - destruct (instantiate_returned _ _ _ _ _ _ _ Hinst Hcv). done.
Qed.

(** C7 (amended). [initialize] launches the scaling of every state-variable
    field exactly when the placement carries a multiplicity sequence; it
    then multiplies the post-init value at each site by the multiplicity
    recorded for that site. *)
Theorem initialize_scales_when_multiplicity_present this id shared
    (overrides : mechanism_overrides.t) pos_data m tr shared' :
  0 < alignment ->
  instantiate this id shared overrides pos_data = (returned m, tr) ->
  let post := post_init m shared' in
  let r := initialize m shared' in
  (mechanism_layout.multiplicity pos_data = [] ->
     r.2 = [launch_init_mechanism] /\ mechanism.data_ r.1 = post) /\
  (mechanism_layout.multiplicity pos_data ≠ [] ->
     r.2 = launch_init_mechanism :: scaling_launches m /\
     length (scaling_launches m)
     = arb_mechanism_type.n_state_vars (mechanism.mech_ this) /\
     forall idx p i x k,
       mechanism.state_vars_h_ m !! idx = Some (Some p) ->
       i < mechanism.width_ m ->
       post !! (ptr_offset p + i) = Some (Some x) ->
       mechanism_layout.multiplicity pos_data !! i = Some k ->
       mechanism.data_ r.1 !! (ptr_offset p + i) = Some (Some (scale x k))).
Proof.
  intros Hal Hinst post r. subst r. rewrite initialize_eq.
  destruct (instantiate_returned_flag _ _ _ _ _ _ _ Hinst)
    as (Hgate & Hwidth & Hpw & Hmech).
  rewrite Hgate, mult_in_place_of_layout.
  destruct (decide (mechanism_layout.multiplicity pos_data = [])) as [Hm|Hm];
    cbn [negb fst snd]; (split; [intros Hm'|intros Hm']); try done.
  split; [done|]. split.
  { unfold scaling_launches. by rewrite length_fmap, length_seq, Hmech. }
  intros idx p i x k Hp Hi Hx Hk. rewrite with_data_data.
  destruct (decide (mechanism_layout.cv pos_data = [])) as [Hcv|Hcv].
  { rewrite Hwidth, Hcv in Hi. simpl in Hi. lia. }
  pose proof (instantiate_returned _ _ _ _ _ _ _ Hinst Hcv) as Hlo.
  assert (Hgate' : mechanism.mult_in_place_ m = true).
  { rewrite Hgate, mult_in_place_of_layout. by rewrite decide_False. }
  pose proof (lookup_lt_Some _ _ _ Hp) as Hidx.
  rewrite (lo_state_vars_length _ _ _ _ _ Hlo) in Hidx.
  rewrite (lo_state_vars _ _ _ _ _ Hlo idx Hidx) in Hp.
  assert (p = Ptr data_block
                ((1 + arb_mechanism_type.n_parameters (mechanism.mech_ this)
                  + idx) * length (mechanism_layout.cv pos_data))) as ->
    by congruence.
  clear Hp. rewrite Hwidth in Hi.
  destruct (scaled_data_lookup this shared overrides pos_data m post Hlo Hgate'
              (arb_mechanism_type.n_state_vars (mechanism.mech_ this))
              ltac:(done)) as (_ & Hin).
  rewrite Hmech. etrans; [exact (Hin idx i Hidx Hi)|].
  assert (Hx' : post !! ((1 + arb_mechanism_type.n_parameters
                                (mechanism.mech_ this) + idx)
                         * length (mechanism_layout.cv pos_data) + i)
                = Some (Some x)) by exact Hx.
  rewrite Hx'.
  unfold scaled_cell.
  rewrite (lo_mult_cells _ _ _ _ _ Hlo i k Hgate' Hi Hk); [done|].
  rewrite (lo_indices_length _ _ _ _ _ Hlo), Hgate',
    (lo_width_padded _ _ _ _ _ Hlo).
  pose proof (round_up_ge (length (mechanism_layout.cv pos_data)) _ Hal).
  unfold indices_count. nia.
Qed.

(** C9. The scaling step of [initialize] leaves the weight chunk, every
    parameter chunk and the globals region of the value buffer as the
    initialisation kernel left them, keeps the size of the value buffer, and
    changes neither the index buffer nor any host-side or device-side
    pointer table. *)
Theorem scaling_step_frame this id shared (overrides : mechanism_overrides.t)
    pos_data m tr shared' :
  instantiate this id shared overrides pos_data = (returned m, tr) ->
  let post := post_init m shared' in
  let m' := (initialize m shared').1 in
  let w := mechanism.width_ m in
  length (mechanism.data_ m') = length post /\
  (forall i, i < w ->
     mechanism.data_ m' !! i = post !! i) /\
  (forall idx p i,
     mechanism.parameters_h_ m !! idx = Some (Some p) -> i < w ->
     mechanism.data_ m' !! (ptr_offset p + i) = post !! (ptr_offset p + i)) /\
  (forall p i,
     ppack.globals (mechanism.ppack_ m) = Some p ->
     mechanism.data_ m' !! (ptr_offset p + i) = post !! (ptr_offset p + i)) /\
  mechanism.indices_ m' = mechanism.indices_ m /\
  mechanism.parameters_h_ m' = mechanism.parameters_h_ m /\
  mechanism.state_vars_h_ m' = mechanism.state_vars_h_ m /\
  mechanism.ion_states_h_ m' = mechanism.ion_states_h_ m /\
  mechanism.globals_h_ m' = mechanism.globals_h_ m /\
  mechanism.parameters_d_ m' = mechanism.parameters_d_ m /\
  mechanism.state_vars_d_ m' = mechanism.state_vars_d_ m /\
  mechanism.ion_states_d_ m' = mechanism.ion_states_d_ m /\
  mechanism.ppack_ m' = mechanism.ppack_ (set_time_ptr m shared').
Proof.
  intros Hinst post m' w. subst m'. rewrite initialize_eq.
  assert (Htables : forall d,
    let m' := mechanism.with_data d (set_time_ptr m shared') in
    mechanism.indices_ m' = mechanism.indices_ m /\
    mechanism.parameters_h_ m' = mechanism.parameters_h_ m /\
    mechanism.state_vars_h_ m' = mechanism.state_vars_h_ m /\
    mechanism.ion_states_h_ m' = mechanism.ion_states_h_ m /\
    mechanism.globals_h_ m' = mechanism.globals_h_ m /\
    mechanism.parameters_d_ m' = mechanism.parameters_d_ m /\
    mechanism.state_vars_d_ m' = mechanism.state_vars_d_ m /\
    mechanism.ion_states_d_ m' = mechanism.ion_states_d_ m /\
    mechanism.ppack_ m' = mechanism.ppack_ (set_time_ptr m shared')).
  { intros d. unfold set_time_ptr.
    by destruct (mechanism.vec_t_ptr_ m) as [[]|]. }
  destruct (mechanism.mult_in_place_ m) eqn:Hgate; cbn [fst];
    rewrite with_data_data; [|by repeat split; try apply Htables].
  destruct (instantiate_returned_flag _ _ _ _ _ _ _ Hinst)
    as (_ & Hwidth & Hpw & Hmech).
  split; [apply scaled_data_length|].
  assert (Hdata :
    (forall i, i < w ->
       scaled_data m post
         (arb_mechanism_type.n_state_vars (mechanism.mech_ m)) !! i
       = post !! i) /\
    (forall idx p i,
       mechanism.parameters_h_ m !! idx = Some (Some p) -> i < w ->
       scaled_data m post
         (arb_mechanism_type.n_state_vars (mechanism.mech_ m))
         !! (ptr_offset p + i) = post !! (ptr_offset p + i)) /\
    (forall p i,
       ppack.globals (mechanism.ppack_ m) = Some p ->
       scaled_data m post
         (arb_mechanism_type.n_state_vars (mechanism.mech_ m))
         !! (ptr_offset p + i) = post !! (ptr_offset p + i))).
  { destruct (decide (mechanism_layout.cv pos_data = [])) as [Hcv|Hcv].
    { rewrite scaled_data_no_sites; [done|]. by rewrite Hpw, Hcv. }
    pose proof (instantiate_returned _ _ _ _ _ _ _ Hinst Hcv) as Hlo.
    destruct (scaled_data_lookup this shared overrides pos_data m post Hlo Hgate
                (arb_mechanism_type.n_state_vars (mechanism.mech_ this))
                ltac:(done)) as (Hout & _).
    rewrite Hmech. subst w. rewrite Hwidth. repeat split.
    - intros i Hi. apply Hout. left. lia.
    - intros idx p i Hp Hi.
      pose proof (lookup_lt_Some _ _ _ Hp) as Hidx.
      rewrite (lo_parameters_length _ _ _ _ _ Hlo) in Hidx.
      rewrite (lo_parameters _ _ _ _ _ Hlo idx Hidx) in Hp.
      assert (p = Ptr data_block
                    ((1 + idx) * length (mechanism_layout.cv pos_data))) as ->
        by congruence.
      apply Hout. left. unfold ptr_offset. nia.
    - intros p i Hp. rewrite (lo_globals _ _ _ _ _ Hlo) in Hp.
      assert (p = Ptr data_block
                ((1 + arb_mechanism_type.n_parameters (mechanism.mech_ this)
                  + arb_mechanism_type.n_state_vars (mechanism.mech_ this))
                 * length (mechanism_layout.cv pos_data))) as ->
        by congruence.
      apply Hout. right. unfold ptr_offset. lia. }
  destruct Hdata as (H1 & H2 & H3).
  repeat split; try done; apply Htables.
Qed.

(** C4 (amended). On an empty placement with every declared ion bound,
    [instantiate] returns without issuing any device operation.  The host
    tables have the sizes of the schema; each ion-state entry holds the five
    value-array pointers of the bound ion and no index pointer; parameter
    slots, state-variable slots and global values are never assigned; the two
    buffers, the device-side mirrors and the parameter-pack pointers
    [weight], [globals], [node_index], [multiplicity], [parameters],
    [state_vars], [ion_states] are what they were before the call.
    [initialize] on that instance refreshes the clock pointer and runs the
    initialisation kernel; its scaling loop changes no cell. *)
Theorem instantiate_without_sites this id shared
    (overrides : mechanism_overrides.t) pos_data :
  mechanism_layout.cv pos_data = [] ->
  all_ions_bound (mechanism.mech_ this) overrides shared ->
  exists m,
    instantiate this id shared overrides pos_data = (returned m, []) /\
    mechanism.width_ m = 0 /\
    mechanism.parameters_h_ m
    = replicate (arb_mechanism_type.n_parameters (mechanism.mech_ this)) None /\
    mechanism.state_vars_h_ m
    = replicate (arb_mechanism_type.n_state_vars (mechanism.mech_ this)) None /\
    mechanism.globals_h_ m
    = replicate (arb_mechanism_type.n_globals (mechanism.mech_ this)) None /\
    length (mechanism.ion_states_h_ m)
    = arb_mechanism_type.n_ions (mechanism.mech_ this) /\
    (forall j info,
       arb_mechanism_type.ions (mechanism.mech_ this) !! j = Some info ->
       exists oion,
         bound_ion overrides shared (arb_ion_info.name info) = Some oion /\
         mechanism.ion_states_h_ m !! j = Some (ion_views oion)) /\
    mechanism.data_ m = mechanism.data_ this /\
    mechanism.indices_ m = mechanism.indices_ this /\
    mechanism.parameters_d_ m = mechanism.parameters_d_ this /\
    mechanism.state_vars_d_ m = mechanism.state_vars_d_ this /\
    mechanism.ion_states_d_ m = mechanism.ion_states_d_ this /\
    (let k := mechanism.ppack_ m in
     let old := mechanism.ppack_ this in
     ppack.weight k = ppack.weight old /\
     ppack.globals k = ppack.globals old /\
     ppack.node_index k = ppack.node_index old /\
     ppack.multiplicity k = ppack.multiplicity old /\
     ppack.parameters k = ppack.parameters old /\
     ppack.state_vars k = ppack.state_vars old /\
     ppack.ion_states k = ppack.ion_states old) /\
    forall shared',
      (initialize m shared').1
      = mechanism.with_data (post_init m shared') (set_time_ptr m shared').
Proof.
  intros Hcv Hall. exists (no_sites_instance this id shared overrides pos_data).
  split; [by apply instantiate_no_sites_eq|].
  repeat split; try done.
  - cbn [no_sites_instance mechanism.ion_states_h_].
    by rewrite length_fmap.
  - intros j info Hj. destruct (Hall info) as [oion Ho].
    { by eapply list_elem_of_lookup_2. }
    exists oion. split; [done|].
    cbn [no_sites_instance mechanism.ion_states_h_].
    rewrite list_lookup_fmap, Hj. simpl. by rewrite Ho.
  - intros shared'. rewrite initialize_eq.
    destruct (mechanism.mult_in_place_ _); [|done].
    cbn [fst]. by rewrite scaled_data_no_sites.
Qed.

End InitializeProperties.

Section Accessors.
Context `{BE : Backend}.

(** What [ion_table] reports on a laid-out instance: the external slot holds
    the bound ion's [Xi_] and the internal slot its [Xo_]. *)
Lemma ion_table_lookup this shared (ov : mechanism_overrides.t) pos m j info :
  laid_out this shared ov pos m ->
  arb_mechanism_type.ions (mechanism.mech_ this) !! j = Some info ->
  exists oion,
    bound_ion ov shared (arb_ion_info.name info) = Some oion /\
    ion_table m !! j
    = Some (arb_ion_info.name info,
            ({| ion_state_view.current_density := Some (ion_state.iX_ oion);
                ion_state_view.external_concentration :=
                  Some (ion_state.Xi_ oion);
                ion_state_view.internal_concentration :=
                  Some (ion_state.Xo_ oion);
                ion_state_view.ionic_charge := Some (ion_state.charge oion) |},
             Some (Ptr indices_block
                     ((1 + j) * length (mechanism_layout.cv pos))))).
Proof.
  intros Hlo Hj. destruct (lo_ion_states _ _ _ _ _ Hlo j info Hj)
    as (oion & Ho & Hs).
  exists oion. split; [done|].
  unfold ion_table, span. rewrite (lo_mech _ _ _ _ _ Hlo).
  rewrite list_lookup_fmap.
  pose proof (lookup_lt_Some _ _ _ Hj) as Hlt.
  assert (Hz : zip (seq 0 (arb_mechanism_type.n_ions (mechanism.mech_ this)))
                   (arb_mechanism_type.ions (mechanism.mech_ this)) !! j
               = Some (j, info)).
  { apply lookup_zip_with_Some. exists j, info. split; [done|]. split; [|done].
    by apply lookup_seq. }
  rewrite Hz. simpl. by rewrite Hs.
Qed.

(** The index chunk of a declared ion holds the index join of the
    placement's sites against the bound ion's node index. *)
Lemma instantiate_stores_index_join this id shared
    (ov : mechanism_overrides.t) pos m tr j info oion k a :
  0 < alignment ->
  instantiate this id shared ov pos = (returned m, tr) ->
  arb_mechanism_type.ions (mechanism.mech_ this) !! j = Some info ->
  bound_ion ov shared (arb_ion_info.name info) = Some oion ->
  mechanism_layout.cv pos !! k = Some a ->
  exists p c,
    arb_ion_state.index <$> mechanism.ion_states_h_ m !! j = Some (Some p) /\
    index_into (mechanism_layout.cv pos) (ion_state.node_index_ oion) !! k
    = Some c /\
    mechanism.indices_ m !! (ptr_offset p + k) = Some (Some (Z.of_nat c)).
Proof.
  intros Hal Hinst Hj Ho Hk.
  assert (Hcv : mechanism_layout.cv pos ≠ []).
  { intros Hcv. by rewrite Hcv in Hk. }
  pose proof (instantiate_returned _ _ _ _ _ _ _ Hinst Hcv) as Hlo.
  destruct (lo_ion_states _ _ _ _ _ Hlo j info Hj) as (oion' & Ho' & Hs).
  assert (oion' = oion) as -> by congruence.
  eexists _, (position a (ion_state.node_index_ oion)).
  split; [by rewrite Hs|]. split; [by apply index_into_lookup|].
  cbn [ptr_offset].
  apply (lo_ion_cells _ _ _ _ _ Hlo j info oion k a Hj Ho Hk).
  pose proof (lookup_lt_Some _ _ _ Hj) as Hlt.
  pose proof (lookup_lt_Some _ _ _ Hk) as Hlk.
  rewrite (lo_indices_length _ _ _ _ _ Hlo), (lo_width_padded _ _ _ _ _ Hlo).
  pose proof (round_up_ge (length (mechanism_layout.cv pos)) _ Hal).
  unfold indices_count, arb_mechanism_type.n_ions.
  destruct (mechanism.mult_in_place_ m); nia.
Qed.

(** An override of any global other than the first one of the schema makes
    [instantiate] throw on a non-empty placement. *)
Lemma override_of_later_global_throws this id shared
    (ov : mechanism_overrides.t) pos g0 rest k v :
  arb_mechanism_type.globals (mechanism.mech_ this) = g0 :: rest ->
  mechanism_overrides.globals ov !! k = Some v ->
  arb_field_info.name g0 ≠ k ->
  all_ions_bound (mechanism.mech_ this) ov shared ->
  mechanism_layout.cv pos ≠ [] ->
  exists k', (instantiate this id shared ov pos).1 = thrown (no_such_global k').
Proof.
  intros Hg Hk Hne Hall Hcv.
  pose proof (instantiate_bound this id shared ov pos Hall Hcv) as Hb.
  assert (Hthrow : is_Some (resolved_globals (mechanism.mech_ this) ov).2).
  { unfold resolved_globals, apply_global_overrides.
    apply (for_each_throws _ _ _ (k, v)).
    - by apply elem_of_map_to_list.
    - intros s0. unfold span, arb_mechanism_type.n_globals. rewrite Hg.
      simpl. apply String.eqb_neq in Hne. rewrite Hne. simpl. by eexists. }
  destruct Hthrow as [e He]. rewrite He in Hb.
  apply apply_global_overrides_thrown in He as [k' ->]. by exists k'.
Qed.

End Accessors.

Section OnTheDemo.

Lemma demo_alignment : 0 < alignment (B := demo.backend).
Proof. vm_compute. lia. Defined.

Lemma demo_all_ions_bound :
  all_ions_bound demo.mech demo.no_override demo.shared.
Proof.
  intros info Hin. apply list_elem_of_singleton in Hin as ->.
  vm_compute. by eexists.
Defined.

Lemma demo_placed :
  instantiate demo.this 7 demo.shared demo.no_override demo.sites
  = (returned demo.placed, demo.placed_trace).
Proof. vm_compute. reflexivity. Defined.

Lemma demo_placed_single :
  instantiate demo.this 7 demo.shared demo.no_override demo.sites_single
  = (returned demo.placed_single, demo.placed_single_trace).
Proof. vm_compute. reflexivity. Defined.

(** C1. On three sites with a padded width of four, the cursor advances by
    three per chunk: the parameter chunk starts at 3, the state-variable
    chunk at 6 and the globals region at 9 in the value buffer, the ion index
    chunk at 3 and the multiplicity chunk at 6 in the index buffer, where a
    stride of [width_padded] would give 4, 8, 12, 4 and 8. *)
Theorem chunks_advance_by_width_on_three_sites :
  instantiate demo.this 7 demo.shared demo.no_override demo.sites
  = (returned demo.placed, demo.placed_trace) /\
  mechanism.width_ demo.placed = 3 /\
  mechanism.width_padded_ demo.placed = 4 /\
  ppack.weight (mechanism.ppack_ demo.placed) = Some (Ptr data_block 0) /\
  mechanism.parameters_h_ demo.placed = [Some (Ptr data_block 3)] /\
  mechanism.state_vars_h_ demo.placed = [Some (Ptr data_block 6)] /\
  ppack.globals (mechanism.ppack_ demo.placed) = Some (Ptr data_block 9) /\
  length (mechanism.data_ demo.placed) = 14 /\
  ppack.node_index (mechanism.ppack_ demo.placed) = Some (Ptr indices_block 0) /\
  arb_ion_state.index <$> mechanism.ion_states_h_ demo.placed
  = [Some (Ptr indices_block 3)] /\
  ppack.multiplicity (mechanism.ppack_ demo.placed) = Some (Ptr indices_block 6).
Proof. vm_compute. repeat split; reflexivity. Qed.

(** C2. With schema globals [a = 1.0], [b = 2.0] and the override
    [b := 5.0], [instantiate] throws the unknown-global error for [b]; the
    override is never applied. *)
Theorem override_of_second_global_throws :
  (instantiate demo.this 7 demo.shared demo.override_b demo.sites).1
  = thrown (no_such_global "b").
Proof. vm_compute. reflexivity. Qed.

(** An override of the first global is applied, and one that names no
    global at all is rejected. *)
Example override_of_first_global_applies :
  global_table
    (demo.instance_of
       (instantiate demo.this 7 demo.shared demo.override_a demo.sites)
       demo.this)
  = [("a", Some 5%float); ("b", Some 2%float)].
Proof. vm_compute. reflexivity. Qed.

Example override_of_unknown_global_throws :
  (instantiate demo.this 7 demo.shared demo.override_c demo.sites).1
  = thrown (no_such_global "c").
Proof. vm_compute. reflexivity. Qed.

(** Without [ca] in the shared state the ion declared [x] has no binding,
    on an empty placement as on any other. *)
Example missing_ca_throws :
  instantiate demo.this 7 demo.shared_without_ca demo.no_override demo.sites
  = (thrown missing_ion_state, []) /\
  instantiate demo.this 7 demo.shared_without_ca demo.no_override demo.no_sites
  = (thrown missing_ion_state, []).
Proof. split; vm_compute; reflexivity. Qed.

(** C5. For the ion declared [x] and rebound to [ca], [ion_table] puts the
    internal concentration array [Xi_] of [ca] into the external slot of the
    view and the external concentration array [Xo_] into the internal slot;
    the two arrays are different. *)
Theorem ion_table_swaps_concentrations :
  ion_table demo.placed
  = [("x",
      ({| ion_state_view.current_density := Some (ion_state.iX_ demo.ca);
          ion_state_view.external_concentration :=
            Some (ion_state.Xi_ demo.ca);
          ion_state_view.internal_concentration :=
            Some (ion_state.Xo_ demo.ca);
          ion_state_view.ionic_charge := Some (ion_state.charge demo.ca) |},
       Some (Ptr indices_block 3)))] /\
  ion_state.Xi_ demo.ca ≠ ion_state.Xo_ demo.ca.
Proof. split; [vm_compute; reflexivity|discriminate]. Qed.

(** C4, as stated, fails on the empty placement: the instance is returned
    with its parameter slot unassigned, no device-side mirror, and no weight
    pointer in the parameter pack. *)
Lemma empty_placement_leaves_tables_unset :
  instantiate demo.this 7 demo.shared demo.no_override demo.no_sites
  = (returned demo.unplaced, []) /\
  mechanism.parameters_h_ demo.unplaced = [None] /\
  mechanism.parameters_d_ demo.unplaced = [] /\
  ppack.weight (mechanism.ppack_ demo.unplaced) = None /\
  ~ tables_populated demo.unplaced.
Proof.
  split; [vm_compute; reflexivity|].
  split; [vm_compute; reflexivity|].
  split; [vm_compute; reflexivity|].
  split; [vm_compute; reflexivity|].
  intros (Hp & _). change (Forall is_Some [@None pointer]) in Hp.
  apply Forall_cons in Hp as [[p Hp] _]. discriminate.
Qed.

(** C7, as stated, fails when multiplicities are recorded but none exceeds
    one: the scaling kernel is launched on the state variable all the same. *)
Lemma scaling_launched_without_multiplicity_above_one :
  instantiate demo.this 7 demo.shared demo.no_override demo.sites_single
  = (returned demo.placed_single, demo.placed_single_trace) /\
  (forall k, k ∈ mechanism_layout.multiplicity demo.sites_single ->
             ~ (1 < k)%Z) /\
  (initialize demo.placed_single demo.shared).2
  = [launch_init_mechanism;
     launch_multiply_in_place (Some (Ptr data_block 6))
                              (Some (Ptr indices_block 6)) 3].
Proof.
  split; [vm_compute; reflexivity|]. split; [|vm_compute; reflexivity].
  intros k Hk. simpl in Hk.
  repeat (apply elem_of_cons in Hk as [->|Hk]; [lia|]).
  by apply elem_of_nil in Hk.
Qed.

Lemma index_into_joins_witness :
  index_into [3; 7; 2]%Z [1; 2; 3; 4; 5; 6; 7]%Z = [2; 6; 1] /\
  length (index_into [3; 7; 2]%Z [1; 2; 3; 4; 5; 6; 7]%Z) = 3 /\
  forall k a, [3; 7; 2]%Z !! k = Some a ->
    exists c, index_into [3; 7; 2]%Z [1; 2; 3; 4; 5; 6; 7]%Z !! k = Some c /\
              [1; 2; 3; 4; 5; 6; 7]%Z !! c = Some a.
Proof.
  split; [reflexivity|].
  apply (index_into_joins [3; 7; 2]%Z [1; 2; 3; 4; 5; 6; 7]%Z).
  intros a Ha.
  repeat (apply elem_of_cons in Ha as [->|Ha]; [by repeat constructor|]).
  by apply elem_of_nil in Ha.
Defined.

Lemma instantiate_without_sites_witness :
  mechanism_layout.cv demo.no_sites = [] /\
  all_ions_bound demo.mech demo.no_override demo.shared /\
  exists m,
    instantiate demo.this 7 demo.shared demo.no_override demo.no_sites
    = (returned m, []) /\
    mechanism.width_ m = 0 /\
    mechanism.parameters_h_ m = [None] /\
    mechanism.state_vars_h_ m = [None] /\
    mechanism.globals_h_ m = [None; None].
Proof.
  split; [reflexivity|]. split; [exact demo_all_ions_bound|].
  destruct (instantiate_without_sites demo.this 7 demo.shared demo.no_override
              demo.no_sites eq_refl demo_all_ions_bound)
    as (m & H1 & H2 & H3 & H4 & H5 & _).
  exists m. repeat split; assumption.
Defined.

Lemma initialize_scales_when_multiplicity_present_witness :
  0 < alignment (B := demo.backend) /\
  instantiate demo.this 7 demo.shared demo.no_override demo.sites
  = (returned demo.placed, demo.placed_trace) /\
  post_init demo.placed demo.shared !! 7 = Some (Some 0.5%float) /\
  mechanism.data_ (initialize demo.placed demo.shared).1 !! 7 = Some (Some 1%float).
Proof.
  split; [exact demo_alignment|]. split; [exact demo_placed|].
  split; [vm_compute; reflexivity|].
  destruct (initialize_scales_when_multiplicity_present demo.this 7 demo.shared
              demo.no_override demo.sites demo.placed demo.placed_trace demo.shared
              demo_alignment demo_placed) as (_ & Hscaled).
  destruct Hscaled as (_ & _ & Hcell); [discriminate|].
  apply (Hcell 0 (Ptr data_block 6) 1 0.5%float 2%Z);
    vm_compute; solve [reflexivity | lia].
Defined.

Lemma instantiate_writes_in_bounds_witness :
  0 < alignment (B := demo.backend) /\
  forall op,
    op ∈ (instantiate demo.this 7 demo.shared demo.no_override demo.sites).2 ->
    within 14 12 op.
Proof.
  split; [exact demo_alignment|].
  exact (instantiate_writes_in_bounds demo.this 7 demo.shared demo.no_override
           demo.sites demo_alignment).
Defined.

Lemma scaling_step_frame_witness :
  instantiate demo.this 7 demo.shared demo.no_override demo.sites
  = (returned demo.placed, demo.placed_trace) /\
  length (mechanism.data_ (initialize demo.placed demo.shared).1) = 14 /\
  mechanism.indices_ (initialize demo.placed demo.shared).1
  = mechanism.indices_ demo.placed.
Proof.
  split; [exact demo_placed|].
  destruct (scaling_step_frame demo.this 7 demo.shared demo.no_override
              demo.sites demo.placed demo.placed_trace demo.shared demo_placed)
    as (Hlen & _ & _ & _ & Hidx & _).
  split; [exact Hlen|exact Hidx].
Defined.

Lemma no_globals_overrides_ignored_witness :
  arb_mechanism_type.n_globals (mechanism.mech_ demo.this_no_globals) = 0 /\
  mechanism_overrides.globals demo.override_c !! "c" = Some 9%float /\
  exists m,
    (instantiate demo.this_no_globals 7 demo.shared demo.override_c
                 demo.sites).1 = returned m /\
    global_table m = [].
Proof.
  split; [reflexivity|]. split; [vm_compute; reflexivity|].
  destruct (no_globals_overrides_ignored demo.this_no_globals 7 demo.shared
              demo.override_c demo.sites eq_refl) as (_ & Hret).
  apply Hret. intros info Hin. apply list_elem_of_singleton in Hin as ->.
  vm_compute. by eexists.
Defined.

End OnTheDemo.

(** ** Field lookup *)

Section FieldLookup.
Context `{BE : Backend}.

Lemma slot_value_mjoin (slot : option (option pointer)) :
  slot_value slot = entry_value (mjoin slot).
Proof. by destruct slot as [[p|]|]. Qed.

Lemma first_entry_app {A} var (t1 t2 : list (string * A)) :
  first_entry var (t1 ++ t2)
  = match first_entry var t1 with
    | Some a => Some a
    | None => first_entry var t2
    end.
Proof.
  induction t1 as [|[name a] t1 IH]; [done|]. simpl.
  by destruct (String.eqb var name).
Qed.

Lemma find_field_first_entry var (fields : list (nat * arb_field_info.t))
    table_h :
  find_field var fields table_h
  = (fun e : option pointer * arb_value_type => entry_value e.1)
    <$> first_entry var
          ((fun '(idx, f) =>
              (arb_field_info.name f,
               (mjoin (table_h !! idx), arb_field_info.default_value f)))
           <$> fields).
Proof.
  induction fields as [|[idx f] rest IH]; [done|]. simpl.
  destruct (String.eqb var (arb_field_info.name f)); [|exact IH].
  simpl. by rewrite slot_value_mjoin.
Qed.



End FieldLookup.

(** ** Cells of the value buffer *)

Section Cells.
Context `{BE : Backend}.

Lemma memory_copy_lookup_lt {T} (src : list T) off n dst j :
  j < off -> memory_copy src off n dst !! j = dst !! j.
Proof. intros Hj. unfold memory_copy. by apply list_lookup_inserts_lt. Qed.

Lemma memory_copy_lookup_ge {T} (src : list T) off n dst j :
  off + n <= j -> memory_copy src off n dst !! j = dst !! j.
Proof.
  intros Hj. unfold memory_copy. apply list_lookup_inserts_ge.
  rewrite length_take. lia.
Qed.

Lemma memory_copy_lookup {T} (src : list T) off n dst i :
  i < n -> i < length src -> off + i < length dst ->
  memory_copy src off n dst !! (off + i) = src !! i.
Proof.
  intros Hi Hs Hd. unfold memory_copy.
  rewrite list_lookup_inserts; [|rewrite length_take; lia|done].
  replace (off + i - off) with i by lia. by apply lookup_take_lt.
Qed.

Lemma memory_fill_lookup_ge {T} (v : T) off n dst j :
  off + n <= j -> memory_fill v off n dst !! j = dst !! j.
Proof.
  intros Hj. unfold memory_fill. apply list_lookup_inserts_ge.
  rewrite length_replicate. lia.
Qed.

Lemma memory_fill_lookup {T} (v : T) off n dst i :
  i < n -> off + i < length dst ->
  memory_fill v off n dst !! (off + i) = Some v.
Proof.
  intros Hi Hd. unfold memory_fill.
  rewrite list_lookup_inserts; [|rewrite length_replicate; lia|done].
  by apply lookup_replicate_2; lia.
Qed.

Lemma append_chunk_above {T} n (src : list T) a j :
  base_ptr a + n <= j ->
  cells (append_chunk n src a).2 !! j = cells a !! j.
Proof. intros Hj. simpl. by apply memory_copy_lookup_ge. Qed.

(** The cells written by the loop over a group of fields hold the fields'
    defaults, and the cells from the new cursor on are untouched. *)
Lemma append_fields_cells n (arr : list arb_field_info.t) :
  forall s table a,
    let r := append_fields n (zip (seq s (length arr)) arr) table a in
    (forall j f i,
       arr !! j = Some f -> i < n ->
       base_ptr a + j * n + i < length (cells a) ->
       cells r.2 !! (base_ptr a + j * n + i)
       = Some (Some (arb_field_info.default_value f))) /\
    (forall j, base_ptr a + length arr * n <= j ->
       cells r.2 !! j = cells a !! j).
Proof.
  induction arr as [|f arr IH]; intros s table a r; subst r.
  - split; [by intros j f i Hj|done].
  - pose proof (append_fields_spec n arr (S s)
                  (<[s := Some (Ptr (arena_block a) (base_ptr a))]> table)
                  (append_const n (arb_field_info.default_value f) a).2)
      as (Hadv & _).
    cbv zeta in Hadv. destruct Hadv as [_ _ _ Hc _].
    specialize (IH (S s)
                  (<[s := Some (Ptr (arena_block a) (base_ptr a))]> table)
                  (append_const n (arb_field_info.default_value f) a).2).
    unfold append_fields in *. simpl. simpl in IH, Hc.
    destruct IH as (IHin & IHab).
    split.
    + intros [|j] g i Hj Hi Hlt.
      * simpl in Hj. injection Hj as <-.
        rewrite Hc by lia.
        simpl. rewrite Nat.add_0_r in *.
        by apply memory_fill_lookup.
      * simpl in Hj.
        replace (base_ptr a + S j * n + i)
          with (base_ptr a + n + j * n + i) by lia.
        apply (IHin j g i Hj Hi). rewrite length_memory_fill. lia.
    + intros j Hj. rewrite IHab by lia.
      apply memory_fill_lookup_ge. lia.
Qed.

(** [assign_global_defaults] writes every default into its slot. *)
Lemma assign_global_defaults_loop (arr : list arb_field_info.t) :
  forall s (gh : list (option arb_value_type)),
    let r := foldl (fun globals_h '(idx, g) =>
                      <[idx := Some (arb_field_info.default_value g)]>
                        globals_h)
                   gh (zip (seq s (length arr)) arr) in
    length r = length gh /\
    forall j,
      r !! j =
      if decide (s <= j < s + length arr /\ j < length gh)
      then Some (arb_field_info.default_value <$> arr !! (j - s))
      else gh !! j.
Proof.
  induction arr as [|f arr IH]; intros s gh r; subst r.
  - simpl. split; [done|]. intros j. case_decide; [lia|done].
  - cbn [length seq zip_with foldl].
    specialize (IH (S s) (<[s := Some (arb_field_info.default_value f)]> gh)).
    cbv zeta in IH. destruct IH as (Hlen & Hlook).
    split; [by rewrite Hlen, length_insert|].
    intros j. rewrite Hlook, length_insert.
    destruct (decide (j = s)) as [->|Hne].
    + rewrite decide_False by lia. case_decide.
      * rewrite list_lookup_insert_eq by lia. by rewrite Nat.sub_diag.
      * by rewrite list_insert_ge by lia.
    + rewrite list_lookup_insert_ne by done.
      case_decide; case_decide; try lia; [|done].
      by replace (j - s) with (S (j - S s)) by lia.
Qed.

Lemma assign_global_defaults_eq mech :
  assign_global_defaults mech
    (replicate (arb_mechanism_type.n_globals mech) None)
  = (fun g => Some (arb_field_info.default_value g))
    <$> arb_mechanism_type.globals mech.
Proof.
  unfold assign_global_defaults, span, arb_mechanism_type.n_globals.
  pose proof (assign_global_defaults_loop (arb_mechanism_type.globals mech) 0
                (replicate (length (arb_mechanism_type.globals mech)) None))
    as (Hlen & Hlook).
  cbv zeta in Hlen, Hlook.
  apply list_eq. intros j. rewrite Hlook, length_replicate, list_lookup_fmap.
  case_decide as Hd.
  - rewrite Nat.sub_0_r.
    destruct (_ !! j) eqn:Hj; [done|]. apply lookup_ge_None in Hj. lia.
  - rewrite (lookup_ge_None_2 (arb_mechanism_type.globals mech) j) by lia.
    simpl. apply lookup_ge_None. rewrite length_replicate. lia.
Qed.

End Cells.

(** ** The override loop *)

Section OverrideLoop.
Context `{BE : Backend}.

Lemma span_cons {A} (x : A) (xs : list A) :
  span (length (x :: xs)) (x :: xs) = (0, x) :: zip (seq 1 (length xs)) xs.
Proof. done. Qed.

Lemma only_key_cases {A} (m : gmap string A) k0 :
  (forall k, is_Some (m !! k) -> k = k0) ->
  match m !! k0 with
  | Some v => m = {[k0 := v]}
  | None => m = ∅
  end.
Proof.
  intros Hk. destruct (m !! k0) as [v|] eqn:H0.
  - apply map_eq. intros k. destruct (decide (k = k0)) as [->|Hne].
    + by rewrite lookup_singleton_eq.
    + rewrite lookup_singleton_ne by done.
      destruct (m !! k) eqn:Hm; [|done]. destruct Hne. apply Hk. by rewrite Hm.
  - apply map_eq. intros k. rewrite lookup_empty.
    destruct (m !! k) eqn:Hm; [|done].
    assert (k = k0) as -> by (apply Hk; by rewrite Hm). congruence.
Qed.

Lemma apply_global_overrides_accepted mech (ov : mechanism_overrides.t) gh :
  (apply_global_overrides mech ov gh).2 = None <-> overrides_accepted mech ov.
Proof.
  unfold overrides_accepted.
  destruct (arb_mechanism_type.globals mech) as [|g0 rest] eqn:Hg.
  { by rewrite apply_global_overrides_no_globals. }
  unfold apply_global_overrides, arb_mechanism_type.n_globals. rewrite Hg.
  rewrite span_cons. split.
  - intros Hnone k [v Hk].
    destruct (decide (k = arb_field_info.name g0)) as [|Hne]; [done|].
    assert (Hthrow : is_Some
      (for_each (fun '(k, v) globals_h =>
                   scan_globals k v ((0, g0) :: zip (seq 1 (length rest)) rest)
                                false globals_h)
                (map_to_list (mechanism_overrides.globals ov)) gh).2).
    { apply (for_each_throws _ _ _ (k, v)).
      - by apply elem_of_map_to_list.
      - intros s0. simpl.
        assert (String.eqb (arb_field_info.name g0) k = false) as ->
          by (apply String.eqb_neq; congruence).
        by eexists. }
    rewrite Hnone in Hthrow. by destruct Hthrow.
  - intros Hall. apply for_each_no_throw. intros [k v] s0 Hin.
    apply elem_of_map_to_list in Hin.
    rewrite (Hall k) by (by eexists). simpl. by rewrite String.eqb_refl.
Qed.

Lemma apply_global_overrides_value mech (ov : mechanism_overrides.t) gh g0
    rest :
  arb_mechanism_type.globals mech = g0 :: rest ->
  overrides_accepted mech ov ->
  (apply_global_overrides mech ov gh).1
  = match mechanism_overrides.globals ov !! arb_field_info.name g0 with
    | Some v => <[0 := Some v]> gh
    | None => gh
    end.
Proof.
  intros Hg Hacc. unfold overrides_accepted in Hacc. rewrite Hg in Hacc.
  pose proof (only_key_cases _ _ Hacc) as Hcases.
  unfold apply_global_overrides, arb_mechanism_type.n_globals. rewrite Hg.
  rewrite span_cons.
  destruct (mechanism_overrides.globals ov !! arb_field_info.name g0) as [v|].
  - rewrite Hcases, map_to_list_singleton. simpl.
    by rewrite String.eqb_refl.
  - by rewrite Hcases, map_to_list_empty.
Qed.

Lemma global_table_lookup (m : mechanism.t) j :
  global_table m !! j
  = (fun g => (arb_field_info.name g, mjoin (mechanism.globals_h_ m !! j)))
    <$> arb_mechanism_type.globals (mechanism.mech_ m) !! j.
Proof.
  unfold global_table, span, arb_mechanism_type.n_globals.
  rewrite list_lookup_fmap.
  destruct (arb_mechanism_type.globals (mechanism.mech_ m) !! j) as [g|] eqn:Hg.
  - assert (Hz : zip (seq 0 (length (arb_mechanism_type.globals
                                       (mechanism.mech_ m))))
                     (arb_mechanism_type.globals (mechanism.mech_ m)) !! j
                 = Some (j, g)).
    { apply lookup_zip_with_Some. exists j, g. split; [done|]. split; [|done].
      apply lookup_seq. split; [done|]. by apply lookup_lt_Some in Hg. }
    by rewrite Hz.
  - assert (Hz : zip (seq 0 (length (arb_mechanism_type.globals
                                       (mechanism.mech_ m))))
                     (arb_mechanism_type.globals (mechanism.mech_ m)) !! j
                 = None).
    { apply lookup_ge_None. rewrite length_zip_with, length_seq.
      apply lookup_ge_None in Hg. lia. }
    by rewrite Hz.
Qed.

End OverrideLoop.

(** ** Contents of the value buffer *)

Section ValueCells.
Context `{BE : Backend}.

(** The contents of the value buffer when the value block completes. *)
Lemma pack_values_cells mech ov pos w wp ph sh gh og vb :
  pack_values mech ov pos w wp ph sh gh og = (vb, None) ->
  w <= wp ->
  let np := arb_mechanism_type.n_parameters mech in
  let ns := arb_mechanism_type.n_state_vars mech in
  let ng := arb_mechanism_type.n_globals mech in
  (forall i x, i < w -> mechanism_layout.weight pos !! i = Some x ->
     vb_data vb !! i = Some (Some x)) /\
  (forall j f i, arb_mechanism_type.parameters mech !! j = Some f -> i < w ->
     vb_data vb !! ((1 + j) * w + i)
     = Some (Some (arb_field_info.default_value f))) /\
  (forall j f i, arb_mechanism_type.state_vars mech !! j = Some f -> i < w ->
     vb_data vb !! ((1 + np + j) * w + i)
     = Some (Some (arb_field_info.default_value f))) /\
  (forall j v, j < ng -> vb_globals_h vb !! j = Some v ->
     vb_data vb !! ((1 + np + ns) * w + j) = Some v) /\
  (forall j, (1 + np + ns) * w + ng <= j -> j < data_count mech wp ->
     vb_data vb !! j = Some (Some NAN)).
Proof.
  intros Hpv Hw np ns ng. subst np ns. revert Hpv. unfold pack_values.
  fold (data_count mech wp).
  set (a0 := Arena data_block _ 0 _).
  assert (Hl0 : length (cells a0) = data_count mech wp).
  { subst a0. simpl. by rewrite length_replicate. }
  assert (Hc0 : forall j, j < data_count mech wp ->
                cells a0 !! j = Some (Some NAN)).
  { intros j Hj. subst a0. simpl. by apply lookup_replicate_2. }
  assert (Hb0 : base_ptr a0 = 0) by done.
  rewrite (surjective_pairing (append_chunk w (mechanism_layout.weight pos) a0)).
  set (a1 := (append_chunk w (mechanism_layout.weight pos) a0).2).
  assert (Ha1 : advanced w 1 a0 a1) by apply append_chunk_advanced.
  assert (Hw1 : forall i x, i < w -> mechanism_layout.weight pos !! i = Some x ->
                cells a1 !! i = Some (Some x)).
  { intros i x Hi Hx. subst a1.
    apply (append_chunk_cells w (mechanism_layout.weight pos) a0 i x Hi Hx).
    rewrite Hb0, Hl0. unfold data_count. nia. }
  assert (Hab1 : forall j, w <= j -> cells a1 !! j = cells a0 !! j).
  { intros j Hj. subst a1. apply append_chunk_above. rewrite Hb0. lia. }
  clearbody a1. clearbody a0.
  unfold span, arb_mechanism_type.n_parameters, arb_mechanism_type.n_state_vars
    in *.
  pose proof (append_fields_spec w (arb_mechanism_type.parameters mech) 0 ph a1)
    as (Ha2 & _).
  pose proof (append_fields_cells w (arb_mechanism_type.parameters mech) 0 ph a1)
    as (Hin2 & Hab2).
  cbv zeta in Ha2, Hin2, Hab2.
  destruct (append_fields w _ ph a1) as [ph' a2]. cbn [fst snd] in *.
  pose proof (append_fields_spec w (arb_mechanism_type.state_vars mech) 0 sh a2)
    as (Ha3 & _).
  pose proof (append_fields_cells w (arb_mechanism_type.state_vars mech) 0 sh a2)
    as (Hin3 & Hab3).
  cbv zeta in Ha3, Hin3, Hab3.
  destruct (append_fields w _ sh a2) as [sh' a3]. cbn [fst snd] in *.
  destruct Ha1 as [_ Hp1 Hl1 _ _]. destruct Ha2 as [_ Hp2 Hl2 Hc2 _].
  destruct Ha3 as [_ Hp3 Hl3 Hc3 _].
  rewrite Hb0 in Hp1. rewrite Hp1 in Hp2, Hin2, Hab2, Hc2.
  rewrite Hp2 in Hp3, Hin3, Hab3, Hc3.
  rewrite Hl1, Hl0 in Hl2, Hin2. rewrite Hl2 in Hl3, Hin3.
  destruct (apply_global_overrides mech ov (assign_global_defaults mech gh))
    as [gh' [e|]]; [done|].
  intros [= <-]. cbn [vb_data vb_globals_h]. rewrite Hp3.
  assert (Hw' : forall j, j < length (arb_mechanism_type.parameters mech)
                  + length (arb_mechanism_type.state_vars mech) + 1 ->
                forall i, i < w -> j * w + i < data_count mech wp).
  { intros j Hj i Hi. unfold data_count, arb_mechanism_type.n_parameters,
      arb_mechanism_type.n_state_vars. nia. }
  repeat split.
  - intros i x Hi Hx. rewrite memory_copy_lookup_lt by lia.
    rewrite Hc3 by lia. rewrite Hc2 by lia. by apply Hw1.
  - intros j f i Hj Hi. pose proof (lookup_lt_Some _ _ _ Hj) as Hlt.
    rewrite memory_copy_lookup_lt by nia.
    rewrite Hc3 by nia.
    replace ((1 + j) * w + i) with (0 + 1 * w + j * w + i) by lia.
    apply (Hin2 j f i Hj Hi).
    specialize (Hw' (1 + j) ltac:(lia) i Hi). lia.
  - intros j f i Hj Hi. pose proof (lookup_lt_Some _ _ _ Hj) as Hlt.
    rewrite memory_copy_lookup_lt by nia.
    replace ((1 + length (arb_mechanism_type.parameters mech) + j) * w + i)
      with (0 + 1 * w + length (arb_mechanism_type.parameters mech) * w
            + j * w + i) by lia.
    apply (Hin3 j f i Hj Hi).
    specialize (Hw' (1 + length (arb_mechanism_type.parameters mech) + j)
                    ltac:(lia) i Hi). lia.
  - intros j v Hj Hv.
    replace ((1 + length (arb_mechanism_type.parameters mech)
              + length (arb_mechanism_type.state_vars mech)) * w + j)
      with (0 + 1 * w + length (arb_mechanism_type.parameters mech) * w
            + length (arb_mechanism_type.state_vars mech) * w + j) by lia.
    rewrite memory_copy_lookup; [done|done|by apply lookup_lt_Some in Hv|].
    rewrite Hl3. unfold data_count, arb_mechanism_type.n_parameters,
      arb_mechanism_type.n_state_vars. fold ng. nia.
  - intros j Hj Hlt.
    rewrite memory_copy_lookup_ge by (subst ng; lia).
    rewrite Hab3 by lia. rewrite Hab2 by lia. rewrite Hab1 by lia.
    by apply Hc0.
Qed.

(** What [instantiate] keeps of the value block, and where it points the
    parameter pack for the three device-side tables. *)
Lemma instantiate_returned_values this id shared (ov : mechanism_overrides.t)
    pos m tr :
  instantiate this id shared ov pos = (returned m, tr) ->
  mechanism_layout.cv pos ≠ [] ->
  let mech := mechanism.mech_ this in
  exists vb,
    pack_values mech ov pos (length (mechanism_layout.cv pos))
      (round_up (length (mechanism_layout.cv pos)) alignment)
      (replicate (arb_mechanism_type.n_parameters mech) None)
      (replicate (arb_mechanism_type.n_state_vars mech) None)
      (replicate (arb_mechanism_type.n_globals mech) None)
      (ppack.globals (mechanism.ppack_ this))
    = (vb, None) /\
    mechanism.data_ m = vb_data vb /\
    mechanism.globals_h_ m = vb_globals_h vb /\
    ppack.parameters (mechanism.ppack_ m) = Some (Ptr parameters_d_block 0) /\
    ppack.state_vars (mechanism.ppack_ m) = Some (Ptr state_vars_d_block 0) /\
    ppack.ion_states (mechanism.ppack_ m) = Some (Ptr ion_states_d_block 0).
Proof.
  unfold instantiate. cbv zeta beta. fold alignment.
  intros Hinst Hcv.
  destruct (set_ion_views _ ov shared _) as [tbl [e|]]; [done|].
  destruct (Nat.eqb_spec (length (mechanism_layout.cv pos)) 0) as [Hw0|Hw0].
  { by destruct (mechanism_layout.cv pos). }
  destruct (pack_values _ _ _ _ _ _ _ _ _) as [vb [e|]]; [done|].
  destruct (pack_indices _ _ _ _ _ _ _ _ _) as [ib [e|]]; [done|].
  injection Hinst as <- <-. by exists vb.
Qed.

End ValueCells.

(** ** [field_data], [field_table], [state_table] and [set_parameter] *)

Section FieldAccessProperties.
Context `{BE : Backend}.


(** X1. [field_data] returns what the first entry of [field_table] under
    that name holds: its pointer, the indeterminate value when the entry's
    slot was never assigned, and null when no entry bears the name. *)
Theorem field_data_reads_field_table (m : mechanism.t) (var : string) :
  field_data m var
  = match first_entry var (field_table m) with
    | Some (ptr, _) => entry_value ptr
    | None => null_pointer
    end.
Proof.
  unfold field_data, field_table. cbv zeta.
  rewrite first_entry_app, !find_field_first_entry.
  destruct (first_entry var _) as [[ptr d]|]; [done|]. simpl.
  by destruct (first_entry var _) as [[ptr d]|].
Qed.




Lemma span_fmap_fst {A C} (g : A -> C) (h : nat -> A -> C) (arr : list A) :
  (forall idx a, h idx a = g a) ->
  (fun '(idx, a) => h idx a) <$> span (length arr) arr = g <$> arr.
Proof.
  intros Hh. unfold span. generalize 0.
  induction arr as [|a arr IH]; intros s; [done|].
  simpl. by rewrite IH, Hh.
Qed.

(** X3. [field_table] lists the parameters and then the state variables
    under their schema names and with their schema defaults, and
    [state_table] is exactly its state-variable part. *)
Theorem field_table_follows_schema (m : mechanism.t) :
  let mech := mechanism.mech_ m in
  fst <$> field_table m = field_names mech /\
  (fun e => e.2.2) <$> field_table m
  = arb_field_info.default_value
    <$> (arb_mechanism_type.parameters mech
         ++ arb_mechanism_type.state_vars mech) /\
  drop (arb_mechanism_type.n_parameters mech) (field_table m) = state_table m /\
  fst <$> state_table m
  = arb_field_info.name <$> arb_mechanism_type.state_vars mech.
Proof.
  unfold field_table, state_table, field_names. cbv zeta.
  unfold arb_mechanism_type.n_parameters, arb_mechanism_type.n_state_vars.
  repeat split.
  - rewrite fmap_app, <- !list_fmap_compose.
    f_equal; rewrite <- (span_fmap_fst arb_field_info.name
                          (fun _ f => arb_field_info.name f)) by done;
      apply list_fmap_ext; by intros ? [idx f].
  - rewrite !fmap_app, <- !list_fmap_compose.
    f_equal; rewrite <- (span_fmap_fst arb_field_info.default_value
                          (fun _ f => arb_field_info.default_value f)) by done;
      apply list_fmap_ext; by intros ? [idx f].
  - rewrite drop_app_length'; [done|].
    unfold span. by rewrite length_fmap, length_zip_with, length_seq, Nat.min_id.
  - rewrite <- list_fmap_compose.
    rewrite <- (span_fmap_fst arb_field_info.name
                  (fun _ f => arb_field_info.name f)) by done.
    apply list_fmap_ext; by intros ? [idx f].
Qed.


(** X18. [initialize] changes no accessor's answer: the field, state,
    global and ion tables and every [field_data] lookup are the same before
    and after, on any instance. *)
Theorem initialize_keeps_tables (m : mechanism.t) (shared : shared_state.t) :
  let m' := (initialize m shared).1 in
  field_table m' = field_table m /\
  state_table m' = state_table m /\
  global_table m' = global_table m /\
  ion_table m' = ion_table m /\
  forall var, field_data m' var = field_data m var.
Proof.
  cbv zeta. rewrite initialize_eq.
  assert (Hframe : forall d,
    let m' := mechanism.with_data d (set_time_ptr m shared) in
    mechanism.mech_ m' = mechanism.mech_ m /\
    mechanism.parameters_h_ m' = mechanism.parameters_h_ m /\
    mechanism.state_vars_h_ m' = mechanism.state_vars_h_ m /\
    mechanism.globals_h_ m' = mechanism.globals_h_ m /\
    mechanism.ion_states_h_ m' = mechanism.ion_states_h_ m).
  { intros d. unfold set_time_ptr. by destruct (mechanism.vec_t_ptr_ m) as [[]|]. }
  assert (Hall : forall d,
    let m' := mechanism.with_data d (set_time_ptr m shared) in
    field_table m' = field_table m /\
    state_table m' = state_table m /\
    global_table m' = global_table m /\
    ion_table m' = ion_table m /\
    forall var, field_data m' var = field_data m var).
  { intros d. destruct (Hframe d) as (H1 & H2 & H3 & H4 & H5). cbv zeta in *.
    unfold field_table, state_table, global_table, ion_table, field_data.
    cbv zeta. rewrite H1, H2, H3, H4, H5. done. }
  destruct (mechanism.mult_in_place_ m); apply Hall.
Qed.

End FieldAccessProperties.

(** ** Instances [instantiate] returns *)

Section InstanceFacts.
Context `{BE : Backend}.

Lemma span_lookup {A} (arr : list A) j :
  span (length arr) arr !! j = (fun a => (j, a)) <$> arr !! j.
Proof.
  unfold span. destruct (arr !! j) as [a|] eqn:Ha; simpl.
  - apply lookup_zip_with_Some. exists j, a. split; [done|]. split; [|done].
    apply lookup_seq. split; [done|]. by apply lookup_lt_Some in Ha.
  - apply lookup_ge_None. rewrite length_zip_with, length_seq.
    apply lookup_ge_None in Ha. lia.
Qed.

(** The [j]-th entry of [field_table], read off the schema and the two host
    tables. *)
Lemma field_table_lookup (m : mechanism.t) j :
  let mech := mechanism.mech_ m in
  let np := arb_mechanism_type.n_parameters mech in
  field_table m !! j
  = if decide (j < np)
    then (fun f => (arb_field_info.name f,
                    (mjoin (mechanism.parameters_h_ m !! j),
                     arb_field_info.default_value f)))
         <$> arb_mechanism_type.parameters mech !! j
    else (fun f => (arb_field_info.name f,
                    (mjoin (mechanism.state_vars_h_ m !! (j - np)),
                     arb_field_info.default_value f)))
         <$> arb_mechanism_type.state_vars mech !! (j - np).
Proof.
  cbv zeta. unfold field_table. cbv zeta.
  unfold arb_mechanism_type.n_parameters, arb_mechanism_type.n_state_vars.
  case_decide as Hj.
  - rewrite lookup_app_l
      by (unfold span; rewrite length_fmap, length_zip_with, length_seq; lia).
    rewrite list_lookup_fmap, span_lookup.
    by destruct (_ !! j).
  - rewrite lookup_app_r
      by (unfold span; rewrite length_fmap, length_zip_with, length_seq; lia).
    unfold span at 1. rewrite length_fmap, length_zip_with, length_seq, Nat.min_id.
    rewrite list_lookup_fmap, span_lookup.
    by destruct (_ !! _).
Qed.

Lemma instantiate_returned_cases this id shared (ov : mechanism_overrides.t)
    pos m tr :
  instantiate this id shared ov pos = (returned m, tr) ->
  (mechanism_layout.cv pos = [] /\
   m = no_sites_instance this id shared ov pos) \/
  (mechanism_layout.cv pos ≠ [] /\ laid_out this shared ov pos m).
Proof.
  intros Hinst.
  destruct (decide (mechanism_layout.cv pos = [])) as [Hcv|Hcv].
  - left. split; [done|].
    pose proof (instantiate_returned_bound _ _ _ _ _ _ _ Hinst) as Hall.
    rewrite (instantiate_no_sites_eq _ _ _ _ _ Hcv Hall) in Hinst.
    by injection Hinst as <- _.
  - right. split; [done|]. by eapply instantiate_returned.
Qed.

(** On a returned instance an entry of [field_table] with a pointer sits on
    a non-empty placement, and its pointer is the [j]-th chunk after the
    weight. *)
Lemma field_table_pointer this id shared (ov : mechanism_overrides.t) pos m
    tr j name p d :
  instantiate this id shared ov pos = (returned m, tr) ->
  field_table m !! j = Some (name, (Some p, d)) ->
  laid_out this shared ov pos m /\
  mechanism_layout.cv pos ≠ [] /\
  j < arb_mechanism_type.n_parameters (mechanism.mech_ this)
      + arb_mechanism_type.n_state_vars (mechanism.mech_ this) /\
  p = Ptr data_block ((1 + j) * length (mechanism_layout.cv pos)) /\
  (arb_field_info.default_value
   <$> (arb_mechanism_type.parameters (mechanism.mech_ this)
        ++ arb_mechanism_type.state_vars (mechanism.mech_ this)) !! j)
  = Some d.
Proof.
  intros Hinst Hj. rewrite field_table_lookup in Hj. cbv zeta in Hj.
  destruct (instantiate_returned_cases _ _ _ _ _ _ _ Hinst)
    as [[Hcv ->]|[Hcv Hlo]].
  { exfalso. cbn [no_sites_instance mechanism.mech_ mechanism.parameters_h_
                  mechanism.state_vars_h_] in Hj.
    case_decide.
    - destruct (arb_mechanism_type.parameters _ !! j) as [f|]; [|done].
      cbn [fmap option_fmap option_map] in Hj.
      destruct (replicate _ _ !! j) as [o|] eqn:Hr; [|done].
      apply lookup_replicate in Hr as [-> _]. done.
    - destruct (arb_mechanism_type.state_vars _ !! _) as [f|]; [|done].
      cbn [fmap option_fmap option_map] in Hj.
      destruct (replicate _ _ !! _) as [o|] eqn:Hr; [|done].
      apply lookup_replicate in Hr as [-> _]. done. }
  split; [done|]. split; [done|].
  rewrite (lo_mech _ _ _ _ _ Hlo) in Hj.
  unfold arb_mechanism_type.n_parameters, arb_mechanism_type.n_state_vars in *.
  case_decide as Hlt.
  - destruct (arb_mechanism_type.parameters _ !! j) as [f|] eqn:Hf; [|done].
    rewrite (lo_parameters _ _ _ _ _ Hlo j Hlt) in Hj.
    injection Hj as <- <- <-.
    split; [lia|]. split; [done|].
    by rewrite lookup_app_l, Hf by done.
  - destruct (arb_mechanism_type.state_vars _ !! _) as [f|] eqn:Hf; [|done].
    pose proof (lookup_lt_Some _ _ _ Hf) as Hlt2.
    rewrite (lo_state_vars _ _ _ _ _ Hlo _ Hlt2) in Hj.
    injection Hj as <- <- <-.
    split; [lia|]. split; [unfold arb_mechanism_type.n_parameters; f_equal; nia|].
    by rewrite lookup_app_r, Hf by lia.
Qed.

(** The resolved global values of a laid-out instance. *)
Lemma returned_globals_h this shared (ov : mechanism_overrides.t) pos m :
  laid_out this shared ov pos m ->
  overrides_accepted (mechanism.mech_ this) ov /\
  mechanism.globals_h_ m
  = match arb_mechanism_type.globals (mechanism.mech_ this) with
    | [] => []
    | g0 :: rest =>
        Some (default (arb_field_info.default_value g0)
                (mechanism_overrides.globals ov !! arb_field_info.name g0))
        :: ((fun g => Some (arb_field_info.default_value g)) <$> rest)
    end.
Proof.
  intros Hlo. pose proof (lo_globals_h _ _ _ _ _ Hlo) as Hres.
  unfold resolved_globals in Hres. rewrite assign_global_defaults_eq in Hres.
  assert (Hacc : overrides_accepted (mechanism.mech_ this) ov).
  { eapply apply_global_overrides_accepted. by rewrite Hres. }
  split; [done|].
  destruct (arb_mechanism_type.globals (mechanism.mech_ this))
    as [|g0 rest] eqn:Hg.
  - rewrite apply_global_overrides_no_globals in Hres by done.
    by injection Hres as <-.
  - pose proof (apply_global_overrides_value (mechanism.mech_ this) ov
                  ((fun g => Some (arb_field_info.default_value g))
                   <$> g0 :: rest) g0 rest Hg Hacc) as Hval.
    rewrite Hres in Hval. cbn [fst] in Hval. rewrite Hval.
    by destruct (mechanism_overrides.globals ov !! arb_field_info.name g0).
Qed.

End InstanceFacts.

(** ** Layout and contents after [instantiate] *)

Section InstanceProperties.
Context `{BE : Backend}.

(** X5. After [instantiate] has returned, every pointer [field_table]
    reports lies in the value buffer; its chunk of [width_] cells starts
    after the weight chunk, ends inside the buffer and before the globals
    region, and the chunks of two different entries follow each other in the
    order of the table without overlapping. *)
Theorem field_chunks_are_disjoint this id shared (ov : mechanism_overrides.t)
    pos m tr :
  0 < alignment ->
  instantiate this id shared ov pos = (returned m, tr) ->
  (forall j name p d,
     field_table m !! j = Some (name, (Some p, d)) ->
     ptr_block p = data_block /\
     mechanism.width_ m <= ptr_offset p /\
     ptr_offset p + mechanism.width_ m <= length (mechanism.data_ m) /\
     exists g, ppack.globals (mechanism.ppack_ m) = Some g /\
               ptr_block g = data_block /\
               ptr_offset p + mechanism.width_ m <= ptr_offset g /\
               ptr_offset g + arb_mechanism_type.n_globals (mechanism.mech_ m)
               <= length (mechanism.data_ m)) /\
  (forall j1 j2 name1 name2 p1 p2 d1 d2,
     j1 < j2 ->
     field_table m !! j1 = Some (name1, (Some p1, d1)) ->
     field_table m !! j2 = Some (name2, (Some p2, d2)) ->
     ptr_offset p1 + mechanism.width_ m <= ptr_offset p2).
Proof.
  intros Hal Hinst. split.
  - intros j name p d Hj.
    destruct (field_table_pointer _ _ _ _ _ _ _ _ _ _ _ Hinst Hj)
      as (Hlo & Hcv & Hlt & -> & _).
    pose proof (round_up_ge (length (mechanism_layout.cv pos)) _ Hal) as Hw.
    rewrite (lo_data_length _ _ _ _ _ Hlo), (lo_width_padded _ _ _ _ _ Hlo),
      (lo_width _ _ _ _ _ Hlo), (lo_mech _ _ _ _ _ Hlo).
    cbn [ptr_block ptr_offset]. unfold data_count.
    split; [done|]. split; [nia|]. split; [nia|].
    eexists. split; [exact (lo_globals _ _ _ _ _ Hlo)|].
    cbn [ptr_block ptr_offset]. split; [done|]. split; nia.
  - intros j1 j2 name1 name2 p1 p2 d1 d2 Hlt H1 H2.
    destruct (field_table_pointer _ _ _ _ _ _ _ _ _ _ _ Hinst H1)
      as (Hlo & _ & _ & -> & _).
    destruct (field_table_pointer _ _ _ _ _ _ _ _ _ _ _ Hinst H2)
      as (_ & _ & _ & -> & _).
    rewrite (lo_width _ _ _ _ _ Hlo). cbn [ptr_offset]. nia.
Qed.

(** X6. After [instantiate] has returned, the chunk behind every pointer of
    [field_table] holds the default value of its entry at each of the
    [width_] sites. *)
Theorem field_chunks_hold_defaults this id shared (ov : mechanism_overrides.t)
    pos m tr j name p d i :
  0 < alignment ->
  instantiate this id shared ov pos = (returned m, tr) ->
  field_table m !! j = Some (name, (Some p, d)) ->
  i < mechanism.width_ m ->
  mechanism.data_ m !! (ptr_offset p + i) = Some (Some d).
Proof.
  intros Hal Hinst Hj Hi.
  destruct (field_table_pointer _ _ _ _ _ _ _ _ _ _ _ Hinst Hj)
    as (Hlo & Hcv & Hlt & -> & Hd).
  rewrite (lo_width _ _ _ _ _ Hlo) in Hi.
  destruct (instantiate_returned_values _ _ _ _ _ _ _ Hinst Hcv)
    as (vb & Hpv & -> & _).
  pose proof (round_up_ge (length (mechanism_layout.cv pos)) _ Hal) as Hw.
  destruct (pack_values_cells _ _ _ _ _ _ _ _ _ _ Hpv Hw)
    as (_ & Hpar & Hst & _).
  cbn [ptr_offset].
  unfold arb_mechanism_type.n_parameters, arb_mechanism_type.n_state_vars in *.
  destruct (decide (j < length (arb_mechanism_type.parameters
                                  (mechanism.mech_ this)))) as [Hjp|Hjp].
  - rewrite lookup_app_l in Hd by done.
    destruct (arb_mechanism_type.parameters _ !! j) as [f|] eqn:Hf; [|done].
    injection Hd as <-. by apply Hpar.
  - rewrite lookup_app_r in Hd by lia.
    destruct (arb_mechanism_type.state_vars _ !! _) as [f|] eqn:Hf; [|done].
    injection Hd as <-.
    replace (1 + j) with
      (1 + length (arb_mechanism_type.parameters (mechanism.mech_ this))
       + (j - length (arb_mechanism_type.parameters (mechanism.mech_ this))))
      by lia.
    by apply Hst.
Qed.

(** X7. After [instantiate] has returned, the three sequences of the
    placement are in the buffers as given: the weights behind the [weight]
    pointer of the parameter pack in the value buffer, the sites behind
    [node_index] and the multiplicities behind [multiplicity] in the index
    buffer. *)
Theorem placement_is_copied this id shared (ov : mechanism_overrides.t)
    pos m tr :
  0 < alignment ->
  instantiate this id shared ov pos = (returned m, tr) ->
  (forall i x, i < mechanism.width_ m ->
     mechanism_layout.weight pos !! i = Some x ->
     exists p, ppack.weight (mechanism.ppack_ m) = Some p /\
               ptr_block p = data_block /\
               mechanism.data_ m !! (ptr_offset p + i) = Some (Some x)) /\
  (forall i x, mechanism_layout.cv pos !! i = Some x ->
     exists p, ppack.node_index (mechanism.ppack_ m) = Some p /\
               ptr_block p = indices_block /\
               mechanism.indices_ m !! (ptr_offset p + i) = Some (Some x)) /\
  (forall i k, i < mechanism.width_ m ->
     mechanism_layout.multiplicity pos !! i = Some k ->
     exists p, ppack.multiplicity (mechanism.ppack_ m) = Some p /\
               ptr_block p = indices_block /\
               mechanism.indices_ m !! (ptr_offset p + i) = Some (Some k)).
Proof.
  intros Hal Hinst.
  pose proof (round_up_ge (length (mechanism_layout.cv pos)) _ Hal) as Hw.
  destruct (instantiate_returned_cases _ _ _ _ _ _ _ Hinst)
    as [[Hcv ->]|[Hcv Hlo]].
  { cbn [no_sites_instance mechanism.width_]. rewrite Hcv.
    split; [intros; lia|]. split; [done|]. intros; lia. }
  pose proof (lo_width _ _ _ _ _ Hlo) as Hwidth.
  pose proof (lo_indices_length _ _ _ _ _ Hlo) as Hil.
  rewrite (lo_width_padded _ _ _ _ _ Hlo) in Hil. unfold indices_count in Hil.
  split; [|split].
  - intros i x Hi Hx. rewrite Hwidth in Hi.
    destruct (instantiate_returned_values _ _ _ _ _ _ _ Hinst Hcv)
      as (vb & Hpv & -> & _).
    destruct (pack_values_cells _ _ _ _ _ _ _ _ _ _ Hpv Hw) as (Hwt & _).
    eexists. split; [exact (lo_weight _ _ _ _ _ Hlo)|]. split; [done|].
    cbn [ptr_offset]. by apply Hwt.
  - intros i x Hx. pose proof (lookup_lt_Some _ _ _ Hx) as Hi.
    eexists. split; [exact (lo_node_index _ _ _ _ _ Hlo)|]. split; [done|].
    cbn [ptr_offset]. apply (lo_node_cells _ _ _ _ _ Hlo i x Hx).
    rewrite Hil. nia.
  - intros i k Hi Hk. rewrite Hwidth in Hi.
    assert (Hm : mechanism.mult_in_place_ m = true).
    { rewrite (lo_mult _ _ _ _ _ Hlo).
      destruct (mechanism_layout.multiplicity pos); [done|].
      by rewrite bool_decide_eq_false_2. }
    eexists. split; [exact (lo_multiplicity _ _ _ _ _ Hlo Hm)|].
    split; [done|]. cbn [ptr_offset].
    apply (lo_mult_cells _ _ _ _ _ Hlo i k Hm Hi Hk).
    rewrite Hil, Hm. nia.
Qed.

(** X8. After [instantiate] has returned on a non-empty placement, the
    [globals] pointer of the parameter pack points into the value buffer, the
    cells behind it hold the values [global_table] reports, in the order of
    the table, and every cell after them still holds the NaN the buffer was
    created with. *)
Theorem globals_region_holds_global_table this id shared
    (ov : mechanism_overrides.t) pos m tr :
  0 < alignment ->
  instantiate this id shared ov pos = (returned m, tr) ->
  mechanism_layout.cv pos ≠ [] ->
  exists g,
    ppack.globals (mechanism.ppack_ m) = Some g /\
    ptr_block g = data_block /\
    (forall j name v, global_table m !! j = Some (name, v) ->
       mechanism.data_ m !! (ptr_offset g + j) = Some v) /\
    (forall j,
       ptr_offset g + arb_mechanism_type.n_globals (mechanism.mech_ m) <= j ->
       j < length (mechanism.data_ m) ->
       mechanism.data_ m !! j = Some (Some NAN)).
Proof.
  intros Hal Hinst Hcv.
  pose proof (instantiate_returned _ _ _ _ _ _ _ Hinst Hcv) as Hlo.
  pose proof (round_up_ge (length (mechanism_layout.cv pos)) _ Hal) as Hw.
  pose proof (lo_data_length _ _ _ _ _ Hlo) as Hdl.
  rewrite (lo_width_padded _ _ _ _ _ Hlo) in Hdl.
  destruct (instantiate_returned_values _ _ _ _ _ _ _ Hinst Hcv)
    as (vb & Hpv & Hdata & Hgh & _).
  destruct (pack_values_cells _ _ _ _ _ _ _ _ _ _ Hpv Hw)
    as (_ & _ & _ & Hgl & Hnan).
  eexists. split; [exact (lo_globals _ _ _ _ _ Hlo)|]. split; [done|].
  cbn [ptr_offset]. rewrite (lo_mech _ _ _ _ _ Hlo). split.
  - intros j name v Hj. rewrite global_table_lookup in Hj.
    rewrite (lo_mech _ _ _ _ _ Hlo) in Hj.
    destruct (arb_mechanism_type.globals _ !! j) as [f|] eqn:Hf; [|done].
    injection Hj as _ <-.
    pose proof (lookup_lt_Some _ _ _ Hf) as Hlt.
    destruct (mechanism.globals_h_ m !! j) as [v|] eqn:Hv.
    + rewrite Hdata. apply Hgl; [exact Hlt|]. by rewrite <- Hgh.
    + exfalso. apply lookup_ge_None in Hv.
      destruct (returned_globals_h _ _ _ _ _ Hlo) as (_ & Heq).
      rewrite Heq in Hv.
      destruct (arb_mechanism_type.globals (mechanism.mech_ this));
        simpl in *; [lia|]. rewrite length_fmap in Hv. lia.
  - intros j Hj1 Hj2. rewrite Hdata. rewrite Hdata in Hdl, Hj2.
    apply Hnan; [exact Hj1|]. by rewrite <- Hdl.
Qed.

(** X9. [instantiate] returns exactly when every declared ion is bound in the
    shared state and, unless the placement is empty, the overrides are
    accepted: the schema has no global, or no override has a key other than
    the name of the schema's first global. *)
Theorem instantiate_returns_iff this id shared (ov : mechanism_overrides.t)
    pos :
  (exists m, (instantiate this id shared ov pos).1 = returned m) <->
  all_ions_bound (mechanism.mech_ this) ov shared /\
  (mechanism_layout.cv pos = [] \/
   overrides_accepted (mechanism.mech_ this) ov).
Proof.
  split.
  - intros [m Hm].
    destruct (instantiate this id shared ov pos) as [o tr] eqn:Hinst.
    cbn [fst] in Hm. subst o.
    split; [by eapply instantiate_returned_bound|].
    destruct (instantiate_returned_cases _ _ _ _ _ _ _ Hinst)
      as [[Hcv _]|[_ Hlo]]; [by left|right].
    by destruct (returned_globals_h _ _ _ _ _ Hlo).
  - intros [Hall Hor].
    destruct (decide (mechanism_layout.cv pos = [])) as [Hcv|Hcv].
    { rewrite (instantiate_no_sites_eq _ _ _ _ _ Hcv Hall). by eexists. }
    destruct Hor as [|Hacc]; [done|].
    pose proof (instantiate_bound this id shared ov pos Hall Hcv) as Hb.
    unfold resolved_globals in Hb.
    apply (apply_global_overrides_accepted _ _
             (assign_global_defaults (mechanism.mech_ this)
                (replicate (arb_mechanism_type.n_globals (mechanism.mech_ this))
                           None))) in Hacc.
    by rewrite Hacc in Hb.
Qed.

(** X10. After [instantiate] has returned on a non-empty placement,
    [global_table] lists the globals of the schema in order, each with a
    value: the first with its override if the overrides have one under its
    name and with its default otherwise, every later one with its default. *)
Theorem global_table_after_instantiate this id shared
    (ov : mechanism_overrides.t) pos m tr :
  instantiate this id shared ov pos = (returned m, tr) ->
  mechanism_layout.cv pos ≠ [] ->
  global_table m
  = match arb_mechanism_type.globals (mechanism.mech_ this) with
    | [] => []
    | g0 :: rest =>
        (arb_field_info.name g0,
         Some (default (arb_field_info.default_value g0)
                 (mechanism_overrides.globals ov !! arb_field_info.name g0)))
        :: ((fun g => (arb_field_info.name g,
                       Some (arb_field_info.default_value g))) <$> rest)
    end.
Proof.
  intros Hinst Hcv.
  pose proof (instantiate_returned _ _ _ _ _ _ _ Hinst Hcv) as Hlo.
  destruct (returned_globals_h _ _ _ _ _ Hlo) as (_ & Hgh).
  apply list_eq. intros j. rewrite global_table_lookup, Hgh.
  rewrite (lo_mech _ _ _ _ _ Hlo).
  destruct (arb_mechanism_type.globals (mechanism.mech_ this)) as [|g0 rest];
    [done|].
  destruct j as [|j]; [done|].
  rewrite !lookup_cons_ne_0 by done. cbn [pred].
  rewrite !list_lookup_fmap. by destruct (rest !! j).
Qed.

(** X15. After [instantiate] has returned on a non-empty placement, every
    slot of the host tables is assigned, the device-side tables are copies
    of the host tables, and the parameter pack has its table, [globals],
    [weight] and [node_index] pointers. *)
Theorem instantiate_populates_tables this id shared
    (ov : mechanism_overrides.t) pos m tr :
  instantiate this id shared ov pos = (returned m, tr) ->
  mechanism_layout.cv pos ≠ [] ->
  tables_populated m.
Proof.
  intros Hinst Hcv.
  pose proof (instantiate_returned _ _ _ _ _ _ _ Hinst Hcv) as Hlo.
  destruct (instantiate_returned_values _ _ _ _ _ _ _ Hinst Hcv)
    as (vb & _ & _ & _ & Hp & Hs & Hi).
  destruct (returned_globals_h _ _ _ _ _ Hlo) as (_ & Hgh).
  unfold tables_populated.
  rewrite Hp, Hs, Hi, (lo_globals _ _ _ _ _ Hlo), (lo_weight _ _ _ _ _ Hlo),
    (lo_node_index _ _ _ _ _ Hlo), (lo_parameters_d _ _ _ _ _ Hlo),
    (lo_state_vars_d _ _ _ _ _ Hlo), (lo_ion_states_d _ _ _ _ _ Hlo).
  repeat split; try done.
  - apply Forall_lookup. intros j o Hj.
    pose proof (lookup_lt_Some _ _ _ Hj) as Hlt.
    rewrite (lo_parameters_length _ _ _ _ _ Hlo) in Hlt.
    rewrite (lo_parameters _ _ _ _ _ Hlo j Hlt) in Hj. by injection Hj as <-.
  - apply Forall_lookup. intros j o Hj.
    pose proof (lookup_lt_Some _ _ _ Hj) as Hlt.
    rewrite (lo_state_vars_length _ _ _ _ _ Hlo) in Hlt.
    rewrite (lo_state_vars _ _ _ _ _ Hlo j Hlt) in Hj. by injection Hj as <-.
  - apply Forall_lookup. intros j s Hj.
    pose proof (lookup_lt_Some _ _ _ Hj) as Hlt.
    rewrite (lo_ion_states_length _ _ _ _ _ Hlo) in Hlt.
    destruct (lookup_lt_is_Some_2
                (arb_mechanism_type.ions (mechanism.mech_ this)) j Hlt)
      as [info Hinfo].
    destruct (lo_ion_states _ _ _ _ _ Hlo j info Hinfo) as (oion & _ & Hs').
    rewrite Hs' in Hj. injection Hj as <-.
    unfold ion_state_populated, ion_views. simpl. repeat split; by eexists.
  - rewrite Hgh.
    destruct (arb_mechanism_type.globals (mechanism.mech_ this)); [done|].
    constructor; [by eexists|]. apply Forall_fmap, Forall_true. intros g.
    by eexists.
Qed.

End InstanceProperties.

(** ** [ion_table] and [set_parameter] on an instance *)

Section IonTable.
Context `{BE : Backend}.

(** The [j]-th entry of [ion_table], read off the schema and the host table
    of ion states. *)
Lemma ion_table_entry (m : mechanism.t) j :
  ion_table m !! j
  = (fun info =>
       let h := default arb_ion_state.unset (mechanism.ion_states_h_ m !! j) in
       (arb_ion_info.name info,
        (ion_state_view.mk (arb_ion_state.current_density h)
           (arb_ion_state.internal_concentration h)
           (arb_ion_state.external_concentration h)
           (arb_ion_state.ionic_charge h),
         arb_ion_state.index h)))
    <$> arb_mechanism_type.ions (mechanism.mech_ m) !! j.
Proof.
  unfold ion_table. cbv zeta. unfold arb_mechanism_type.n_ions.
  rewrite list_lookup_fmap, span_lookup. by destruct (_ !! j).
Qed.

(** X17. After [instantiate] has returned, [ion_table] has one entry per
    declared ion, under the declared name.  The view of the entry holds the
    arrays of the shared state's ion the declared name is bound to: the
    current density and the charge in the slots of their names, [Xi_] in the
    slot [external_concentration] and [Xo_] in the slot
    [internal_concentration].  The index pointer of the [j]-th entry is the
    chunk [1 + j] of the index buffer, and null on an empty placement. *)
Theorem ion_table_after_instantiate this id shared
    (ov : mechanism_overrides.t) pos m tr :
  instantiate this id shared ov pos = (returned m, tr) ->
  length (ion_table m) = arb_mechanism_type.n_ions (mechanism.mech_ this) /\
  forall j info,
    arb_mechanism_type.ions (mechanism.mech_ this) !! j = Some info ->
    exists oion,
      bound_ion ov shared (arb_ion_info.name info) = Some oion /\
      ion_table m !! j
      = Some (arb_ion_info.name info,
              (ion_state_view.mk (Some (ion_state.iX_ oion))
                 (Some (ion_state.Xi_ oion)) (Some (ion_state.Xo_ oion))
                 (Some (ion_state.charge oion)),
               if decide (mechanism_layout.cv pos = []) then None
               else Some (Ptr indices_block ((1 + j) * mechanism.width_ m)))).
Proof.
  intros Hinst.
  assert (Hmech : mechanism.mech_ m = mechanism.mech_ this).
  { destruct (instantiate_returned_cases _ _ _ _ _ _ _ Hinst)
      as [[_ ->]|[_ Hlo]]; [done|exact (lo_mech _ _ _ _ _ Hlo)]. }
  split.
  { unfold ion_table, span. cbv zeta.
    rewrite length_fmap, length_zip_with, length_seq, Hmech.
    unfold arb_mechanism_type.n_ions. lia. }
  intros j info Hj. rewrite ion_table_entry, Hmech, Hj. cbv zeta.
  destruct (instantiate_returned_cases _ _ _ _ _ _ _ Hinst)
    as [[Hcv ->]|[Hcv Hlo]].
  - pose proof (instantiate_returned_bound _ _ _ _ _ _ _ Hinst) as Hall.
    destruct (Hall info) as [oion Ho];
      [by eapply list_elem_of_lookup_2|].
    exists oion. split; [done|].
    cbn [no_sites_instance mechanism.ion_states_h_].
    rewrite list_lookup_fmap, Hj. cbn [fmap option_fmap option_map].
    rewrite Ho. rewrite decide_True by done. done.
  - destruct (lo_ion_states _ _ _ _ _ Hlo j info Hj) as (oion & Ho & Hs).
    exists oion. split; [done|]. rewrite Hs, (lo_width _ _ _ _ _ Hlo).
    rewrite decide_False by done. done.
Qed.

(** On a returned instance an entry of [ion_table] with an index pointer sits
    on a non-empty placement, and the pointer is chunk [1 + j] of the index
    buffer. *)
Lemma ion_table_index_pointer this id shared (ov : mechanism_overrides.t)
    pos m tr j name view p :
  instantiate this id shared ov pos = (returned m, tr) ->
  ion_table m !! j = Some (name, (view, Some p)) ->
  laid_out this shared ov pos m /\
  mechanism_layout.cv pos ≠ [] /\
  j < arb_mechanism_type.n_ions (mechanism.mech_ this) /\
  p = Ptr indices_block ((1 + j) * length (mechanism_layout.cv pos)).
Proof.
  intros Hinst Ht. rewrite ion_table_entry in Ht.
  destruct (instantiate_returned_cases _ _ _ _ _ _ _ Hinst)
    as [[Hcv ->]|[Hcv Hlo]].
  - exfalso. cbn [no_sites_instance mechanism.mech_ mechanism.ion_states_h_]
      in Ht.
    destruct (arb_mechanism_type.ions _ !! j) as [info|] eqn:Hj; [|done].
    rewrite list_lookup_fmap, Hj in Ht. cbn in Ht.
    by destruct (bound_ion ov shared (arb_ion_info.name info)).
  - rewrite (lo_mech _ _ _ _ _ Hlo) in Ht.
    destruct (arb_mechanism_type.ions _ !! j) as [info|] eqn:Hj; [|done].
    destruct (lo_ion_states _ _ _ _ _ Hlo j info Hj) as (oion & _ & Hs).
    rewrite Hs in Ht. cbn in Ht.
    split; [done|]. split; [done|].
    split; [by apply lookup_lt_Some in Hj|].
    injection Ht as _ _ <-. reflexivity.
Qed.

(** X16. After [instantiate] has returned, the index pointer of every entry
    of [ion_table] points into the index buffer; its chunk of [width_] cells
    starts after the chunk of the sites, ends inside the buffer and holds,
    site by site, the index join of the placement's sites against the node
    index of the ion the entry is bound to. *)
Theorem ion_index_chunk_holds_join this id shared
    (ov : mechanism_overrides.t) pos m tr j info oion view p :
  0 < alignment ->
  instantiate this id shared ov pos = (returned m, tr) ->
  arb_mechanism_type.ions (mechanism.mech_ this) !! j = Some info ->
  bound_ion ov shared (arb_ion_info.name info) = Some oion ->
  ion_table m !! j = Some (arb_ion_info.name info, (view, Some p)) ->
  ptr_block p = indices_block /\
  mechanism.width_ m <= ptr_offset p /\
  ptr_offset p + mechanism.width_ m <= length (mechanism.indices_ m) /\
  forall k c,
    index_into (mechanism_layout.cv pos) (ion_state.node_index_ oion) !! k
    = Some c ->
    mechanism.indices_ m !! (ptr_offset p + k) = Some (Some (Z.of_nat c)).
Proof.
  intros Hal Hinst Hj Ho Ht.
  destruct (ion_table_index_pointer _ _ _ _ _ _ _ _ _ _ _ Hinst Ht)
    as (Hlo & Hcv & Hlt & ->).
  pose proof (round_up_ge (length (mechanism_layout.cv pos)) _ Hal) as Hw.
  pose proof (lo_indices_length _ _ _ _ _ Hlo) as Hil.
  rewrite (lo_width_padded _ _ _ _ _ Hlo) in Hil.
  unfold indices_count, arb_mechanism_type.n_ions in *.
  rewrite (lo_width _ _ _ _ _ Hlo). cbn [ptr_block ptr_offset].
  split; [done|]. split; [nia|].
  split; [rewrite Hil; destruct (mechanism.mult_in_place_ m); nia|].
  intros k c Hk. unfold index_into in Hk. rewrite list_lookup_fmap in Hk.
  destruct (mechanism_layout.cv pos !! k) as [a|] eqn:Ha; [|done].
  injection Hk as <-.
  pose proof (lookup_lt_Some _ _ _ Ha) as Hlk.
  apply (lo_ion_cells _ _ _ _ _ Hlo j info oion k a Hj Ho Ha).
  rewrite Hil. destruct (mechanism.mult_in_place_ m); nia.
Qed.

End IonTable.

Section SetParameter.
Context `{BE : Backend}.

Lemma first_entry_lookup {A} var (table : list (string * A)) a :
  first_entry var table = Some a -> exists j, table !! j = Some (var, a).
Proof.
  induction table as [|[name b] rest IH]; [done|]. simpl.
  destruct (String.eqb_spec var name) as [->|Hne].
  - intros [= ->]. by exists 0.
  - intros Hr. destruct (IH Hr) as [j Hj]. by exists (S j).
Qed.

(** A pointer [field_data] returns is the pointer of an entry of
    [field_table] under that name. *)
Lemma field_data_valid_entry (m : mechanism.t) var p :
  field_data m var = valid_pointer p ->
  exists j d, field_table m !! j = Some (var, (Some p, d)).
Proof.
  unfold field_data, field_table. cbv zeta.
  rewrite !find_field_first_entry. intros Hfd.
  match goal with
  | |- exists j d, (?t1 ++ ?t2) !! j = _ =>
      pose proof (first_entry_app var t1 t2) as Happ;
      destruct (first_entry var t1) as [[ptr d]|] eqn:H1
  end.
  - apply first_entry_lookup in Happ as [j Hj].
    exists j, d. rewrite Hj. simpl in Hfd. unfold entry_value in Hfd. destruct ptr; by simplify_eq.
  - simpl in Hfd.
    match type of Happ with
    | _ = first_entry var ?t2 =>
        destruct (first_entry var t2) as [[ptr d]|] eqn:H2; [|done]
    end.
    apply first_entry_lookup in Happ as [j Hj].
    exists j, d. rewrite Hj. simpl in Hfd. unfold entry_value in Hfd. destruct ptr; by simplify_eq.
Qed.

Lemma list_inserts_overwrite {T} i (k1 k2 l : list T) :
  length k1 = length k2 ->
  list_inserts i k2 (list_inserts i k1 l) = list_inserts i k2 l.
Proof.
  intros Hlen. apply list_eq. intros j.
  destruct (decide (j < i)) as [Hlt|Hge].
  { by rewrite !list_lookup_inserts_lt. }
  destruct (decide (i + length k2 <= j)) as [Hout|Hin].
  { rewrite !list_lookup_inserts_ge by lia. done. }
  destruct (decide (j < length l)) as [Hl|Hl].
  - rewrite !list_lookup_inserts by (rewrite ?length_inserts; lia). done.
  - rewrite !(proj2 (lookup_ge_None _ _)) by (rewrite ?length_inserts; lia).
    done.
Qed.

Lemma field_data_with_data d (m : mechanism.t) var :
  field_data (mechanism.with_data d m) var = field_data m var.
Proof. done. Qed.

(** What [set_parameter] does on an instance [instantiate] returned, given
    values of the right size and a key [field_data] finds. *)
Lemma set_parameter_on_instance this id shared (ov : mechanism_overrides.t)
    pos m tr key values p :
  0 < alignment ->
  instantiate this id shared ov pos = (returned m, tr) ->
  length values = mechanism.width_ m ->
  field_data m key = valid_pointer p ->
  laid_out this shared ov pos m /\
  (exists j, j < arb_mechanism_type.n_parameters (mechanism.mech_ this)
                 + arb_mechanism_type.n_state_vars (mechanism.mech_ this) /\
             p = Ptr data_block ((1 + j) * mechanism.width_ m)) /\
  0 < mechanism.width_ m /\
  ptr_offset p + mechanism.width_ m <= length (mechanism.data_ m) /\
  set_parameter m key values
  = mutated (mechanism.with_data
               (memory_copy (Some <$> values) (ptr_offset p)
                  (mechanism.width_ m) (mechanism.data_ m)) m)
            [dev_copy data_block (ptr_offset p) (mechanism.width_ m)].
Proof.
  intros Hal Hinst Hlen Hfd.
  destruct (field_data_valid_entry _ _ _ Hfd) as (j & d & Hj).
  destruct (field_table_pointer _ _ _ _ _ _ _ _ _ _ _ Hinst Hj)
    as (Hlo & Hcv & Hlt & -> & _).
  pose proof (round_up_ge (length (mechanism_layout.cv pos)) _ Hal) as Hw.
  pose proof (lo_width _ _ _ _ _ Hlo) as Hwidth.
  assert (Hpos : 0 < mechanism.width_ m).
  { rewrite Hwidth. destruct (mechanism_layout.cv pos); [done|simpl; lia]. }
  split; [done|]. split; [exists j; by rewrite Hwidth|]. split; [done|].
  split.
  { rewrite (lo_data_length _ _ _ _ _ Hlo), (lo_width_padded _ _ _ _ _ Hlo),
      Hwidth.
    cbn [ptr_offset]. unfold data_count. nia. }
  unfold set_parameter. rewrite Hfd, Hlen, Nat.eqb_refl. cbn [negb].
  destruct (Nat.eqb_spec (mechanism.width_ m) 0) as [H0|_]; [lia|]. done.
Qed.

(** X12. On an instance [instantiate] returned, [set_parameter] with a key
    [field_data] finds and as many values as there are sites issues one copy
    of [width_] cells to the field's pointer, inside the value buffer;
    afterwards the field's chunk holds the given values site by site, and
    [field_data] still returns the same pointer. *)
Theorem set_parameter_stores_values this id shared
    (ov : mechanism_overrides.t) pos m tr key values p :
  0 < alignment ->
  instantiate this id shared ov pos = (returned m, tr) ->
  length values = mechanism.width_ m ->
  field_data m key = valid_pointer p ->
  exists m',
    set_parameter m key values
    = mutated m' [dev_copy data_block (ptr_offset p) (mechanism.width_ m)] /\
    ptr_block p = data_block /\
    ptr_offset p + mechanism.width_ m <= length (mechanism.data_ m) /\
    (forall i v, values !! i = Some v ->
       mechanism.data_ m' !! (ptr_offset p + i) = Some (Some v)) /\
    field_data m' key = valid_pointer p.
Proof.
  intros Hal Hinst Hlen Hfd.
  destruct (set_parameter_on_instance _ _ _ _ _ _ _ _ _ _ Hal Hinst Hlen Hfd)
    as (_ & (j & _ & Hp) & _ & Hin & Heq).
  eexists. split; [exact Heq|]. split; [by rewrite Hp|]. split; [done|].
  split; [|by rewrite field_data_with_data].
  intros i v Hv. pose proof (lookup_lt_Some _ _ _ Hv) as Hi.
  cbn [mechanism.with_data mechanism.data_].
  rewrite memory_copy_lookup; [| lia | rewrite length_fmap; lia | lia].
  by rewrite list_lookup_fmap, Hv.
Qed.

(** X13. On an instance [instantiate] returned, a [set_parameter] that goes
    through changes the value buffer only: its size stays, every cell outside
    the [width_] cells at the field's pointer keeps its value, and so do the
    weights, the chunk of every other entry of [field_table] and the globals
    region; nothing else of the instance changes. *)
Theorem set_parameter_changes_one_chunk this id shared
    (ov : mechanism_overrides.t) pos m tr key values p m' ops :
  0 < alignment ->
  instantiate this id shared ov pos = (returned m, tr) ->
  field_data m key = valid_pointer p ->
  set_parameter m key values = mutated m' ops ->
  m' = mechanism.with_data (mechanism.data_ m') m /\
  length (mechanism.data_ m') = length (mechanism.data_ m) /\
  (forall c, c < ptr_offset p \/ ptr_offset p + mechanism.width_ m <= c ->
     mechanism.data_ m' !! c = mechanism.data_ m !! c) /\
  (forall i, i < mechanism.width_ m ->
     mechanism.data_ m' !! i = mechanism.data_ m !! i) /\
  (forall j name q d i,
     field_table m !! j = Some (name, (Some q, d)) -> q <> p ->
     i < mechanism.width_ m ->
     mechanism.data_ m' !! (ptr_offset q + i)
     = mechanism.data_ m !! (ptr_offset q + i)) /\
  (forall g i, ppack.globals (mechanism.ppack_ m) = Some g ->
     mechanism.data_ m' !! (ptr_offset g + i)
     = mechanism.data_ m !! (ptr_offset g + i)).
Proof.
  intros Hal Hinst Hfd Hset.
  assert (Hlen : length values = mechanism.width_ m).
  { unfold set_parameter in Hset.
    by destruct (Nat.eqb_spec (length values) (mechanism.width_ m)). }
  destruct (set_parameter_on_instance _ _ _ _ _ _ _ _ _ _ Hal Hinst Hlen Hfd)
    as (Hlo & (j & Hj & Hp) & Hpos & Hin & Heq).
  rewrite Heq in Hset. injection Hset as <- <-.
  cbn [mechanism.with_data mechanism.data_].
  assert (Hframe : forall c,
            c < ptr_offset p \/ ptr_offset p + mechanism.width_ m <= c ->
            memory_copy (Some <$> values) (ptr_offset p) (mechanism.width_ m)
              (mechanism.data_ m) !! c
            = mechanism.data_ m !! c).
  { intros c [Hc|Hc];
      [by apply memory_copy_lookup_lt|by apply memory_copy_lookup_ge]. }
  split; [done|]. split; [apply length_memory_copy|]. split; [exact Hframe|].
  subst p. cbn [ptr_offset] in *.
  split; [intros i Hi; apply Hframe; nia|]. split.
  - intros j' name q d i Hq Hne Hi.
    destruct (field_table_pointer _ _ _ _ _ _ _ _ _ _ _ Hinst Hq)
      as (_ & _ & _ & -> & _).
    rewrite <- (lo_width _ _ _ _ _ Hlo) in *. cbn [ptr_offset].
    apply Hframe.
    destruct (decide (j' = j)) as [->|Hjj]; [done|]. nia.
  - intros g i Hg. rewrite (lo_globals _ _ _ _ _ Hlo) in Hg.
    injection Hg as <-. cbn [ptr_offset]. apply Hframe.
    rewrite <- (lo_width _ _ _ _ _ Hlo). nia.
Qed.

(** X14. A second [set_parameter] on the same key replaces what the first
    one wrote: done after a first one that went through, it leaves the
    instance a single [set_parameter] with the second values leaves. *)
Theorem set_parameter_overwrites (m : mechanism.t) key values1 values2 m1
    ops1 :
  set_parameter m key values1 = mutated m1 ops1 ->
  set_parameter m1 key values2 = set_parameter m key values2.
Proof.
  intros Hset.
  assert (Hm1 : m1 = m \/
            exists p, field_data m key = valid_pointer p /\
                      ptr_block p = data_block /\
                      length values1 = mechanism.width_ m /\
                      (mechanism.width_ m =? 0) = false /\
                      m1 = mechanism.with_data
                             (memory_copy (Some <$> values1) (ptr_offset p)
                                (mechanism.width_ m) (mechanism.data_ m)) m).
  { unfold set_parameter in Hset.
    destruct (Nat.eqb_spec (length values1) (mechanism.width_ m)) as [Hlen1|];
      [|done].
    cbn [negb] in Hset.
    destruct (field_data m key) as [|p|]; [done| |done].
    destruct (mechanism.width_ m =? 0) eqn:Hw0; injection Hset as <- _;
      [by left|].
    destruct (ptr_block p) eqn:Hb; try (by left).
    right. by exists p. }
  destruct Hm1 as [->|(p & Hfd & Hb & Hlen1 & Hw0 & ->)]; [done|].
  unfold set_parameter. rewrite field_data_with_data, Hfd, Hb.
  cbn [mechanism.with_data mechanism.width_ mechanism.data_].
  destruct (Nat.eqb_spec (length values2) (mechanism.width_ m)) as [Hlen2|];
    [|done].
  rewrite Hw0. cbn [negb].
  f_equal. unfold memory_copy.
  rewrite list_inserts_overwrite; [done|].
  rewrite !length_take, !length_fmap. lia.
Qed.

End SetParameter.

(** ** A call of [instantiate] that throws *)

Section Failure.
Context `{BE : Backend}.

(** The key the override loop reports is a key of the overrides, and not
    the name of the schema's first global. *)
Lemma apply_global_overrides_thrown_key mech (ov : mechanism_overrides.t) gh
    k :
  (apply_global_overrides mech ov gh).2 = Some (no_such_global k) ->
  is_Some (mechanism_overrides.globals ov !! k) /\
  exists g0 rest, arb_mechanism_type.globals mech = g0 :: rest /\
                  arb_field_info.name g0 <> k.
Proof.
  unfold apply_global_overrides. intros He.
  destruct (for_each _ _ gh) as [gh' oe] eqn:Hf. simpl in He. subst oe.
  apply for_each_thrown in Hf as ([k' v] & s0 & Hin & Hb).
  apply elem_of_map_to_list in Hin.
  unfold arb_mechanism_type.n_globals in Hb.
  destruct (arb_mechanism_type.globals mech) as [|g0 rest]; [done|].
  rewrite span_cons in Hb. cbn [scan_globals] in Hb.
  destruct (String.eqb_spec (arb_field_info.name g0) k') as [|Hne]; [done|].
  cbn in Hb. injection Hb as ->.
  split; [by eexists|]. by exists g0, rest.
Qed.

(** X11. When [instantiate] throws for a missing ion it has issued no device
    operation.  When it throws for an override, the placement is not empty,
    the key it reports is a key of the overrides other than the name of the
    schema's first global, and every device operation issued by then acts on
    the value buffer: the index buffer and the device-side tables have not
    been allocated. *)
Theorem failed_instantiate_trace this id shared (ov : mechanism_overrides.t)
    pos e tr :
  instantiate this id shared ov pos = (thrown e, tr) ->
  match e with
  | missing_ion_state => tr = []
  | no_such_global k =>
      mechanism_layout.cv pos ≠ [] /\
      is_Some (mechanism_overrides.globals ov !! k) /\
      (exists g0 rest,
         arb_mechanism_type.globals (mechanism.mech_ this) = g0 :: rest /\
         arb_field_info.name g0 <> k) /\
      forall op, op ∈ tr -> op_block op = data_block
  end.
Proof.
  intros Hinst. destruct e as [|k].
  - assert (H1 : (instantiate this id shared ov pos).1
                 = thrown missing_ion_state) by (by rewrite Hinst).
    apply instantiate_thrown_missing in H1 as (info & Hin & Hnone).
    rewrite (instantiate_unbound _ _ _ _ _ _ Hin Hnone) in Hinst.
    by injection Hinst as <-.
  - assert (H1 : (instantiate this id shared ov pos).1
                 = thrown (no_such_global k)) by (by rewrite Hinst).
    apply instantiate_thrown_global in H1.
    apply apply_global_overrides_thrown_key in H1 as (Hkey & Hg).
    revert Hinst. unfold instantiate. cbv zeta beta.
    pose proof (set_ion_views_outcome (mechanism.mech_ this) ov shared)
      as (_ & Herr & _).
    cbv zeta in Herr.
    destruct (set_ion_views _ ov shared _) as [tbl [e|]].
    { intros [= -> _]. by destruct (Herr _ eq_refl). }
    destruct (Nat.eqb_spec (length (mechanism_layout.cv pos)) 0) as [|Hw0];
      [done|].
    value_block_spec Hv.
    destruct Hv as (_ & _ & _ & _ & _ & _ & _ & _ & _ & Hops).
    destruct (pack_values _ _ _ _ _ _ _ _ _) as [vb [e|]].
    { cbn [fst snd] in *. intros [= -> <-].
      split; [by destruct (mechanism_layout.cv pos)|].
      split; [done|]. split; [done|].
      intros op Hop.
      by apply Hops in Hop as [->|[(i & _ & [->| ->])| ->]]. }
    index_block_spec Hi. destruct Hi as (_ & Herr2 & _).
    destruct (pack_indices _ _ _ _ _ _ _ _ _) as [ib [e|]]; [|done].
    intros [= -> _]. by destruct (Herr2 _ eq_refl).
Qed.

End Failure.

(** ** The properties on the demonstration instance *)

Section OnTheDemoInstance.

Lemma demo_placed_a :
  instantiate demo.this 7 demo.shared demo.override_a demo.sites
  = (returned demo.placed_a, demo.placed_a_trace).
Proof. vm_compute. reflexivity. Defined.

Lemma demo_rejected :
  instantiate demo.this 7 demo.shared demo.override_c demo.sites
  = (thrown (no_such_global "c"), demo.rejected_trace).
Proof. vm_compute. reflexivity. Defined.

Lemma demo_sites_not_empty : mechanism_layout.cv demo.sites ≠ [].
Proof. discriminate. Defined.

Lemma demo_field_data_p :
  field_data demo.placed "p" = valid_pointer (Ptr data_block 3).
Proof. vm_compute. reflexivity. Defined.

Lemma demo_set_parameter_p :
  set_parameter demo.placed "p" [1; 2; 3]%float
  = mutated demo.placed_p [dev_copy data_block 3 3].
Proof. vm_compute. reflexivity. Defined.

Lemma field_chunks_are_disjoint_witness :
  0 < alignment (B := demo.backend) /\
  instantiate demo.this 7 demo.shared demo.no_override demo.sites
  = (returned demo.placed, demo.placed_trace) /\
  field_table demo.placed !! 0 = Some ("p", (Some (Ptr data_block 3), 3%float)) /\
  field_table demo.placed !! 1
  = Some ("s", (Some (Ptr data_block 6), 0.5%float)) /\
  3 + mechanism.width_ demo.placed <= 6.
Proof.
  split; [exact demo_alignment|]. split; [exact demo_placed|].
  split; [vm_compute; reflexivity|]. split; [vm_compute; reflexivity|].
  destruct (field_chunks_are_disjoint demo.this 7 demo.shared demo.no_override
              demo.sites demo.placed demo.placed_trace demo_alignment
              demo_placed) as (_ & Horder).
  apply (Horder 0 1 "p" "s" (Ptr data_block 3) (Ptr data_block 6)
           3%float 0.5%float); [lia|vm_compute; reflexivity..].
Defined.

Lemma field_chunks_hold_defaults_witness :
  0 < alignment (B := demo.backend) /\
  instantiate demo.this 7 demo.shared demo.no_override demo.sites
  = (returned demo.placed, demo.placed_trace) /\
  field_table demo.placed !! 1
  = Some ("s", (Some (Ptr data_block 6), 0.5%float)) /\
  2 < mechanism.width_ demo.placed /\
  mechanism.data_ demo.placed !! (6 + 2) = Some (Some 0.5%float).
Proof.
  split; [exact demo_alignment|]. split; [exact demo_placed|].
  split; [vm_compute; reflexivity|]. split; [vm_compute; lia|].
  apply (field_chunks_hold_defaults demo.this 7 demo.shared demo.no_override
           demo.sites demo.placed demo.placed_trace 1 "s" (Ptr data_block 6)
           0.5%float 2 demo_alignment demo_placed);
    [vm_compute; reflexivity|vm_compute; lia].
Defined.

Lemma placement_is_copied_witness :
  0 < alignment (B := demo.backend) /\
  instantiate demo.this 7 demo.shared demo.no_override demo.sites
  = (returned demo.placed, demo.placed_trace) /\
  exists p, ppack.multiplicity (mechanism.ppack_ demo.placed) = Some p /\
            ptr_block p = indices_block /\
            mechanism.indices_ demo.placed !! (ptr_offset p + 1)
            = Some (Some 2%Z).
Proof.
  split; [exact demo_alignment|]. split; [exact demo_placed|].
  destruct (placement_is_copied demo.this 7 demo.shared demo.no_override
              demo.sites demo.placed demo.placed_trace demo_alignment
              demo_placed) as (_ & _ & Hmult).
  apply (Hmult 1 2%Z); [vm_compute; lia|vm_compute; reflexivity].
Defined.

Lemma globals_region_holds_global_table_witness :
  0 < alignment (B := demo.backend) /\
  instantiate demo.this 7 demo.shared demo.override_a demo.sites
  = (returned demo.placed_a, demo.placed_a_trace) /\
  mechanism_layout.cv demo.sites ≠ [] /\
  exists g,
    ppack.globals (mechanism.ppack_ demo.placed_a) = Some g /\
    ptr_block g = data_block /\
    (forall j name v, global_table demo.placed_a !! j = Some (name, v) ->
       mechanism.data_ demo.placed_a !! (ptr_offset g + j) = Some v) /\
    (forall j,
       ptr_offset g
       + arb_mechanism_type.n_globals (mechanism.mech_ demo.placed_a) <= j ->
       j < length (mechanism.data_ demo.placed_a) ->
       mechanism.data_ demo.placed_a !! j = Some (Some NAN)).
Proof.
  split; [exact demo_alignment|]. split; [exact demo_placed_a|].
  split; [exact demo_sites_not_empty|].
  exact (globals_region_holds_global_table demo.this 7 demo.shared
           demo.override_a demo.sites demo.placed_a demo.placed_a_trace
           demo_alignment demo_placed_a demo_sites_not_empty).
Defined.

Lemma global_table_after_instantiate_witness :
  instantiate demo.this 7 demo.shared demo.override_a demo.sites
  = (returned demo.placed_a, demo.placed_a_trace) /\
  mechanism_layout.cv demo.sites ≠ [] /\
  global_table demo.placed_a = [("a", Some 5%float); ("b", Some 2%float)].
Proof.
  split; [exact demo_placed_a|]. split; [exact demo_sites_not_empty|].
  etrans;
    [exact (global_table_after_instantiate demo.this 7 demo.shared
              demo.override_a demo.sites demo.placed_a demo.placed_a_trace
              demo_placed_a demo_sites_not_empty)|].
  vm_compute. reflexivity.
Defined.

Lemma failed_instantiate_trace_witness :
  instantiate demo.this 7 demo.shared demo.override_c demo.sites
  = (thrown (no_such_global "c"), demo.rejected_trace) /\
  mechanism_layout.cv demo.sites ≠ [] /\
  is_Some (mechanism_overrides.globals demo.override_c !! "c") /\
  (exists g0 rest,
     arb_mechanism_type.globals (mechanism.mech_ demo.this) = g0 :: rest /\
     arb_field_info.name g0 <> "c") /\
  forall op, op ∈ demo.rejected_trace -> op_block op = data_block.
Proof.
  split; [exact demo_rejected|].
  exact (failed_instantiate_trace demo.this 7 demo.shared demo.override_c
           demo.sites (no_such_global "c") demo.rejected_trace demo_rejected).
Defined.

Lemma set_parameter_stores_values_witness :
  0 < alignment (B := demo.backend) /\
  instantiate demo.this 7 demo.shared demo.no_override demo.sites
  = (returned demo.placed, demo.placed_trace) /\
  length [1; 2; 3]%float = mechanism.width_ demo.placed /\
  field_data demo.placed "p" = valid_pointer (Ptr data_block 3) /\
  exists m',
    set_parameter demo.placed "p" [1; 2; 3]%float
    = mutated m' [dev_copy data_block 3 (mechanism.width_ demo.placed)] /\
    ptr_block (Ptr data_block 3) = data_block /\
    3 + mechanism.width_ demo.placed <= length (mechanism.data_ demo.placed) /\
    (forall i v, [1; 2; 3]%float !! i = Some v ->
       mechanism.data_ m' !! (3 + i) = Some (Some v)) /\
    field_data m' "p" = valid_pointer (Ptr data_block 3).
Proof.
  split; [exact demo_alignment|]. split; [exact demo_placed|].
  split; [reflexivity|]. split; [exact demo_field_data_p|].
  exact (set_parameter_stores_values demo.this 7 demo.shared demo.no_override
           demo.sites demo.placed demo.placed_trace "p" [1; 2; 3]%float
           (Ptr data_block 3) demo_alignment demo_placed eq_refl
           demo_field_data_p).
Defined.

Lemma set_parameter_changes_one_chunk_witness :
  0 < alignment (B := demo.backend) /\
  instantiate demo.this 7 demo.shared demo.no_override demo.sites
  = (returned demo.placed, demo.placed_trace) /\
  field_data demo.placed "p" = valid_pointer (Ptr data_block 3) /\
  set_parameter demo.placed "p" [1; 2; 3]%float
  = mutated demo.placed_p [dev_copy data_block 3 3] /\
  demo.placed_p
  = mechanism.with_data (mechanism.data_ demo.placed_p) demo.placed /\
  length (mechanism.data_ demo.placed_p) = length (mechanism.data_ demo.placed).
Proof.
  split; [exact demo_alignment|]. split; [exact demo_placed|].
  split; [exact demo_field_data_p|]. split; [exact demo_set_parameter_p|].
  destruct (set_parameter_changes_one_chunk demo.this 7 demo.shared
              demo.no_override demo.sites demo.placed demo.placed_trace "p"
              [1; 2; 3]%float (Ptr data_block 3) demo.placed_p
              [dev_copy data_block 3 3] demo_alignment demo_placed
              demo_field_data_p demo_set_parameter_p) as (Hm & Hlen & _).
  split; [exact Hm|exact Hlen].
Defined.

Lemma set_parameter_overwrites_witness :
  set_parameter demo.placed "p" [1; 2; 3]%float
  = mutated demo.placed_p [dev_copy data_block 3 3] /\
  set_parameter demo.placed_p "p" [4; 5; 6]%float
  = set_parameter demo.placed "p" [4; 5; 6]%float.
Proof.
  split; [exact demo_set_parameter_p|].
  exact (set_parameter_overwrites demo.placed "p" [1; 2; 3]%float
           [4; 5; 6]%float demo.placed_p [dev_copy data_block 3 3]
           demo_set_parameter_p).
Defined.

Lemma instantiate_populates_tables_witness :
  instantiate demo.this 7 demo.shared demo.no_override demo.sites
  = (returned demo.placed, demo.placed_trace) /\
  mechanism_layout.cv demo.sites ≠ [] /\
  tables_populated demo.placed.
Proof.
  split; [exact demo_placed|]. split; [exact demo_sites_not_empty|].
  exact (instantiate_populates_tables demo.this 7 demo.shared demo.no_override
           demo.sites demo.placed demo.placed_trace demo_placed
           demo_sites_not_empty).
Defined.

Lemma ion_index_chunk_holds_join_witness :
  0 < alignment (B := demo.backend) /\
  instantiate demo.this 7 demo.shared demo.no_override demo.sites
  = (returned demo.placed, demo.placed_trace) /\
  arb_mechanism_type.ions (mechanism.mech_ demo.this) !! 0
  = Some (arb_ion_info.mk "x") /\
  bound_ion demo.no_override demo.shared "x" = Some demo.ca /\
  index_into [3; 7; 2]%Z (ion_state.node_index_ demo.ca) !! 1 = Some 6 /\
  mechanism.indices_ demo.placed !! (3 + 1) = Some (Some 6%Z).
Proof.
  split; [exact demo_alignment|]. split; [exact demo_placed|].
  split; [reflexivity|]. split; [vm_compute; reflexivity|].
  split; [vm_compute; reflexivity|].
  destruct (ion_index_chunk_holds_join demo.this 7 demo.shared
              demo.no_override demo.sites demo.placed demo.placed_trace 0
              (arb_ion_info.mk "x") demo.ca
              (ion_state_view.mk (Some (demo.array_at 20))
                 (Some (demo.array_at 22)) (Some (demo.array_at 23))
                 (Some (demo.array_at 24)))
              (Ptr indices_block 3) demo_alignment demo_placed eq_refl)
    as (_ & _ & _ & Hcells); [vm_compute; reflexivity..|].
  apply (Hcells 1 6). vm_compute. reflexivity.
Defined.

Lemma ion_table_after_instantiate_witness :
  instantiate demo.this 7 demo.shared demo.no_override demo.sites
  = (returned demo.placed, demo.placed_trace) /\
  length (ion_table demo.placed)
  = arb_mechanism_type.n_ions (mechanism.mech_ demo.this) /\
  forall j info,
    arb_mechanism_type.ions (mechanism.mech_ demo.this) !! j = Some info ->
    exists oion,
      bound_ion demo.no_override demo.shared (arb_ion_info.name info)
      = Some oion /\
      ion_table demo.placed !! j
      = Some (arb_ion_info.name info,
              (ion_state_view.mk (Some (ion_state.iX_ oion))
                 (Some (ion_state.Xi_ oion)) (Some (ion_state.Xo_ oion))
                 (Some (ion_state.charge oion)),
               if decide (mechanism_layout.cv demo.sites = []) then None
               else Some (Ptr indices_block
                            ((1 + j) * mechanism.width_ demo.placed)))).
Proof.
  split; [exact demo_placed|].
  exact (ion_table_after_instantiate demo.this 7 demo.shared demo.no_override
           demo.sites demo.placed demo.placed_trace demo_placed).
Defined.

End OnTheDemoInstance.
